(** * CaptureCAM: the frame-quality and normalisation pipeline

    A shallow embedding of [src/app/capture/page.tsx] (brightness sampler,
    Laplacian sharpness estimator, centre-crop normaliser and the capture
    controller and what the page renders), of [src/app/api/upload/route.ts]
    (the upload handler), of [src/app/api/gallery/route.ts] (the gallery
    listing) and of [src/app/api/leads/route.ts] (the leads).

    JavaScript numbers are IEEE-754 binary64 values.  The pipeline is written
    once over an abstract [Number] interface and read at two carriers:
    - [JS]: Rocq's primitive binary64 floats, the arithmetic the program runs;
    - [Exact]: canonical rationals, the arithmetic the formulas are read in.

    The capture controller is given as [step], the page that renders after
    every event, and as [react], the page between two renders, whose handlers
    and buttons are those of the last render. *)

From Stdlib Require Import ZArith QArith Qcanon Lia List Bool.
From Stdlib Require Import Floats Uint63.
From stdpp Require Import base option strings gmap.
From Stdlib Require Import Ascii Sorted Lqa Qfield.
Import ListNotations.

Set Warnings "-inexact-float,-register-all".
Local Open Scope Z_scope.

(** ** Numbers *)

(** The operations the pipeline uses on JavaScript numbers. *)
Class Number := {
  num : Type;
  (** an integer value (image dimensions, byte samples, integer literals) *)
  of_int : Z -> num;
  nadd : num -> num -> num;
  nsub : num -> num -> num;
  nmul : num -> num -> num;
  ndiv : num -> num -> num;
  (** the relational operator [<] *)
  nlt : num -> num -> bool;
  (** storing into a [Float32Array] element *)
  fround : num -> num;
  (** [Math.round], read back as an integer canvas dimension *)
  round : num -> Z
}.

Declare Scope num_scope.
Delimit Scope num_scope with num.
Bind Scope num_scope with num.
Infix "+" := nadd : num_scope.
Infix "-" := nsub : num_scope.
Infix "*" := nmul : num_scope.
Infix "/" := ndiv : num_scope.
Notation "a <? b" := (nlt a b) : num_scope.
Notation "a >? b" := (nlt b a) (only parsing) : num_scope.

(** A decimal literal [n/d] such as [0.299]: division is correctly rounded, so
    the quotient of the two integers is the double nearest to the decimal. *)
Definition dec `{Number} (n d : Z) : num := (of_int n / of_int d)%num.

(** *** Binary64 *)

Module JS.

(** Integer to double, correctly rounded (exact below 2^53). *)
Definition of_Z (z : Z) : float :=
  SF2Prim (binary_normalize prec emax z 0 false).

Definition two52 : float := 0x1p52%float.

(** Nearest integer, ties to even, of a double in [0, 2^52). *)
Definition rint (a : float) : float := ((a + two52) - two52)%float.

(** [Math.fround]: the nearest binary32 value, ties to even.  A normal
    value is scaled to 24 integer bits ([frshiftexp] and [ldshiftexp] are
    biased by 2101), rounded, and scaled back. *)
Definition fround32 (x : float) : float :=
  if negb (PrimFloat.is_finite x) then x
  else if (x =? 0)%float then x
  else
    let a := abs x in
    let r :=
      if (a <? 0x1p-126)%float
      then (rint (a * 0x1p149) * 0x1p-149)%float
      else
        let '(m, e) := frshiftexp a in
        ldshiftexp (rint (ldshiftexp m 2125%uint63)) (Uint63.sub e 24%uint63) in
    let r := if (0x1.fffffep127 <? r)%float then infinity else r in
    if (x <? 0)%float then (- r)%float else r.

(** [Math.round] (round half up) of a finite double; [NaN] and the
    infinities become the canvas dimension 0. *)
Definition math_round (x : float) : Z :=
  match Prim2SF x with
  | S754_finite s m e =>
      let v := if s then Z.neg m else Z.pos m in
      if (0 <=? e)%Z then v * 2 ^ e
      else (2 * v + 2 ^ (- e)) / 2 ^ (- e + 1)
  | _ => 0
  end.

#[export] Instance number : Number := {|
  num := float;
  of_int := of_Z;
  nadd := PrimFloat.add;
  nsub := PrimFloat.sub;
  nmul := PrimFloat.mul;
  ndiv := PrimFloat.div;
  nlt := PrimFloat.ltb;
  fround := fround32;
  round := math_round
|}.

End JS.

(** *** Exact rationals *)

Module Exact.

Definition ltb (a b : Qc) : bool :=
  (Qnum a * QDen b <? Qnum b * QDen a)%Z.

(** [floor (q + 1/2)] *)
Definition math_round (q : Qc) : Z :=
  (2 * Qnum q + QDen q) / (2 * QDen q).

#[export] Instance number : Number := {|
  num := Qc;
  of_int := fun z => Q2Qc (inject_Z z);
  nadd := Qcplus;
  nsub := Qcminus;
  nmul := Qcmult;
  ndiv := Qcdiv;
  nlt := ltb;
  fround := fun q => q;
  round := math_round
|}.

End Exact.


(** ** Browser values *)

(** How a promise ends: resolved, rejected, or never settled. *)
Inductive Settled (A : Type) : Type :=
| Resolved (a : A)
| Rejected (msg : string)
| Pending.
Arguments Resolved {A} a.
Arguments Rejected {A} msg.
Arguments Pending {A}.

(** A decoded [HTMLImageElement]: [img.width] and [img.height]. *)
Record Image := { img_width : Z; img_height : Z }.

(** Assigning [img.src]: [onload] fires with the decoded image, or [onerror]. *)
Inductive LoadResult :=
| Loaded (img : Image)
| LoadError.

(** [ImageData.data]: RGBA samples, four per pixel, row by row. *)
Definition ImageData := list Z.

(** [data[i]] of a typed array. *)
Definition sample (data : ImageData) (i : Z) : Z := nth (Z.to_nat i) data 0.

(** What [getImageData(0, 0, w, h)] returns: [4*w*h] bytes. *)
Definition image_data (w h : Z) (data : ImageData) : Prop :=
  Z.of_nat (length data) = 4 * w * h /\ Forall (fun v => 0 <= v <= 255) data.

(** ** Constants ([page.tsx], lines 23-31) *)

Definition BRIGHTNESS_THRESHOLD : Z := 25.
Definition BRIGHTNESS_POLL_MS : Z := 500.
Definition BLUR_THRESHOLD : Z := 5.
Definition OUTPUT_W : Z := 1024.
Definition OUTPUT_H : Z := 585.

(** [for (let i = lo; i < hi; i++) acc = body i acc] *)
Fixpoint for_loop_from {A : Type} (n : nat) (i : Z) (body : Z -> A -> A) (acc : A) : A :=
  match n with
  | O => acc
  | S n' => for_loop_from n' (i + 1) body (body i acc)
  end.

Definition for_loop {A : Type} (lo hi : Z) (body : Z -> A -> A) (acc : A) : A :=
  for_loop_from (Z.to_nat (hi - lo)) lo body acc.

Section Pipeline.

Context `{N : Number}.
Local Open Scope num_scope.

(** ** Brightness sampler ([getAverageBrightness]) *)

Definition sampleW : Z := 64.
Definition sampleH : Z := 48.

(** [0.299 * r + 0.587 * g + 0.114 * b] *)
Definition luminance (r g b : Z) : num :=
  dec 299 1000 * of_int r + dec 587 1000 * of_int g + dec 114 1000 * of_int b.

(** [for (let i = 0; i < data.length; i += 4) total += ...] *)
Fixpoint sum_luminance (fuel : nat) (data : ImageData) (i : Z) (total : num) : num :=
  match fuel with
  | O => total
  | S fuel' =>
      if (i <? Z.of_nat (length data))%Z
      then sum_luminance fuel' data (i + 4)%Z
             (total + luminance (sample data i) (sample data (i + 1)%Z) (sample data (i + 2)%Z))
      else total
  end.

(** [ctx] is [None] when [canvas.getContext("2d")] returns null, and
    otherwise the samples read back after drawing the video frame at
    [sampleW] x [sampleH]. *)
Definition getAverageBrightness (ctx : option ImageData) : num :=
  match ctx with
  | None => of_int 255
  | Some data =>
      sum_luminance (length data) data 0%Z (of_int 0) / of_int (sampleW * sampleH)
  end.

(** ** Sharpness estimator ([getLaplacianVariance]) *)

(** The [Float32Array] grayscale buffer of [n] pixels. *)
Definition grayscale (n : Z) (data : ImageData) : list num :=
  map (fun i : Z =>
         let p := (i * 4)%Z in
         fround (luminance (sample data p) (sample data (p + 1)%Z) (sample data (p + 2)%Z)))
      (map Z.of_nat (seq 0 (Z.to_nat n))).

Definition gray_at (gray : list num) (i : Z) : num :=
  nth (Z.to_nat i) gray (of_int 0).

(** The kernel response at [(x, y)]. *)
Definition laplacian (w : Z) (gray : list num) (x y : Z) : num :=
  gray_at gray ((y - 1) * w + x)%Z
  + gray_at gray (y * w + (x - 1))%Z
  + of_int (-4) * gray_at gray (y * w + x)%Z
  + gray_at gray (y * w + (x + 1))%Z
  + gray_at gray ((y + 1) * w + x)%Z.

(** The three accumulators of the convolution loop. *)
Record Acc := { acc_sum : num; acc_sumSq : num; acc_count : Z }.

Definition accumulate (lap : num) (a : Acc) : Acc :=
  {| acc_sum := acc_sum a + lap;
     acc_sumSq := acc_sumSq a + lap * lap;
     acc_count := (acc_count a + 1)%Z |}.

Definition convolve (w h : Z) (gray : list num) : Acc :=
  for_loop 1 (h - 1)
    (fun y acc => for_loop 1 (w - 1) (fun x acc => accumulate (laplacian w gray x y) acc) acc)
    {| acc_sum := of_int 0; acc_sumSq := of_int 0; acc_count := 0 |}.

Definition variance_of (a : Acc) : num :=
  let mean := acc_sum a / of_int (acc_count a) in
  acc_sumSq a / of_int (acc_count a) - mean * mean.

(** Lines 76-102: grayscale conversion, convolution, variance. *)
Definition laplacianVariance (w h : Z) (data : ImageData) : num :=
  variance_of (convolve w h (grayscale (w * h) data)).

(** [ctx w h] is [None] when the context is null and otherwise the samples of
    the image drawn at [w] x [h].  The image has no [onerror] handler, the
    context is used unchecked, and [getImageData] throws on an empty
    rectangle, so on each of these failures [resolve] is never called. *)
Definition getLaplacianVariance
    (img : LoadResult) (ctx : Z -> Z -> option ImageData) : Settled num :=
  match img with
  | LoadError => Pending
  | Loaded img =>
      let w := 160%Z in
      let h := round (of_int (img_height img) / of_int (img_width img) * of_int w) in
      match ctx w h with
      | None => Pending
      | Some data =>
          if (h <=? 0)%Z then Pending else Resolved (laplacianVariance w h data)
      end
  end.

(** ** Frame normaliser ([resizeImage]) *)

(** The source rectangle of [drawImage]. *)
Record Crop := { sx : num; sy : num; sw : num; sh : num }.

(** Lines 118-135. *)
Definition crop_rect (img : Image) : Crop :=
  let targetRatio := of_int OUTPUT_W / of_int OUTPUT_H in
  let srcRatio := of_int (img_width img) / of_int (img_height img) in
  if srcRatio >? targetRatio then
    let sw := of_int (img_height img) * targetRatio in
    {| sx := (of_int (img_width img) - sw) / of_int 2; sy := of_int 0;
       sw := sw; sh := of_int (img_height img) |}
  else
    let sh := of_int (img_width img) / targetRatio in
    {| sx := of_int 0; sy := (of_int (img_height img) - sh) / of_int 2;
       sw := of_int (img_width img); sh := sh |}.

(** The canvas that is encoded: its size, the one [drawImage] call that
    filled it, and the encoding asked of [toDataURL]. *)
Record Artifact := {
  canvas_width : Z;
  canvas_height : Z;
  source : Crop;
  dest : Z * Z * Z * Z;
  encoding : string
}.

(** [ctx] tells whether [canvas.getContext("2d")] returns a context. *)
Definition resizeImage (img : LoadResult) (ctx : bool) : Settled Artifact :=
  match img with
  | LoadError => Rejected "Failed to load image for resize"
  | Loaded img =>
      let c := crop_rect img in
      if negb ctx then Rejected "Canvas context unavailable"
      else Resolved {| canvas_width := OUTPUT_W; canvas_height := OUTPUT_H;
                       source := c; dest := (0, 0, OUTPUT_W, OUTPUT_H)%Z;
                       encoding := "image/png" |}
  end.

(** Scale factors of a draw: destination size over source size. *)
Definition scale_x (a : Artifact) : num :=
  let '(_, _, dw, _) := dest a in of_int dw / sw (source a).
Definition scale_y (a : Artifact) : num :=
  let '(_, _, _, dh) := dest a in of_int dh / sh (source a).

End Pipeline.


(** ** Capture controller ([CapturePage]) *)

Section Controller.

Context `{N : Number}.
Local Open Scope num_scope.

(** The component's [useState] cells. *)
Record State := {
  capturedImage : option Artifact;
  brightness : num;
  blurWarning : option string;
  processing : bool;
  captureCount : Z;
  showFlash : bool
}.

Definition initial_state : State :=
  {| capturedImage := None; brightness := of_int 255; blurWarning := None;
     processing := false; captureCount := 0; showFlash := false |}.

Definition setCapturedImage (v : option Artifact) (s : State) : State :=
  {| capturedImage := v; brightness := brightness s; blurWarning := blurWarning s;
     processing := processing s; captureCount := captureCount s; showFlash := showFlash s |}.
Definition setBrightness (v : num) (s : State) : State :=
  {| capturedImage := capturedImage s; brightness := v; blurWarning := blurWarning s;
     processing := processing s; captureCount := captureCount s; showFlash := showFlash s |}.
Definition setBlurWarning (v : option string) (s : State) : State :=
  {| capturedImage := capturedImage s; brightness := brightness s; blurWarning := v;
     processing := processing s; captureCount := captureCount s; showFlash := showFlash s |}.
Definition setProcessing (v : bool) (s : State) : State :=
  {| capturedImage := capturedImage s; brightness := brightness s; blurWarning := blurWarning s;
     processing := v; captureCount := captureCount s; showFlash := showFlash s |}.
Definition setCaptureCount (f : Z -> Z) (s : State) : State :=
  {| capturedImage := capturedImage s; brightness := brightness s; blurWarning := blurWarning s;
     processing := processing s; captureCount := f (captureCount s); showFlash := showFlash s |}.
Definition setShowFlash (v : bool) (s : State) : State :=
  {| capturedImage := capturedImage s; brightness := brightness s; blurWarning := blurWarning s;
     processing := processing s; captureCount := captureCount s; showFlash := v |}.

(** [const tooDark = brightness < BRIGHTNESS_THRESHOLD] *)
Definition tooDark (s : State) : bool := brightness s <? of_int BRIGHTNESS_THRESHOLD.

(** A call of [handleCapture] suspended at an [await]: on the sharpness
    promise, on the resize promise, or on a promise that can no longer
    settle. *)
Inductive Task :=
| AwaitVariance (imageSrc : string)
| AwaitResize (imageSrc : string)
| Hung (imageSrc : string).

(** The component between two events: its state, the suspended calls of
    [handleCapture], and the flash timeouts not yet fired. *)
Record Controller := {
  ui : State;
  inflight : list Task;
  timers : nat
}.

Definition initial : Controller :=
  {| ui := initial_state; inflight := []; timers := 0 |}.

Definition with_ui (f : State -> State) (c : Controller) : Controller :=
  {| ui := f (ui c); inflight := inflight c; timers := timers c |}.

(** [!imageSrc] *)
Definition no_screenshot (shot : option string) : bool :=
  match shot with
  | None => true
  | Some s => if decide (s = "") then true else false
  end.

(** [handleCapture] up to its first [await] (lines 184-194); [shot] is what
    [webcamRef.current?.getScreenshot()] returns. *)
Definition handleCapture (c : Controller) (shot : option string) : Controller :=
  if tooDark (ui c) || processing (ui c) then c
  else
    let c1 := with_ui (fun s => setProcessing true (setBlurWarning None s)) c in
    if no_screenshot shot then with_ui (setProcessing false) c1
    else
      {| ui := ui c1;
         inflight := inflight c1 ++ [AwaitVariance (default "" shot)];
         timers := timers c1 |}.

(** The call at index [i] resumes with the sharpness promise settled as [r]
    (lines 194-203). *)
Definition resume_variance (c : Controller) (i : nat) (imageSrc : string)
    (r : Settled num) : Controller :=
  match r with
  | Resolved variance =>
      if variance <? of_int BLUR_THRESHOLD then
        {| ui := setProcessing false
                   (setBlurWarning
                      (Some "Too blurry — hold your phone steady and try again") (ui c));
           inflight := delete i (inflight c);
           timers := timers c |}
      else
        {| ui := ui c; inflight := <[i := AwaitResize imageSrc]> (inflight c);
           timers := timers c |}
  | Rejected _ =>
      {| ui := ui c; inflight := delete i (inflight c); timers := timers c |}
  | Pending =>
      {| ui := ui c; inflight := <[i := Hung imageSrc]> (inflight c); timers := timers c |}
  end.

(** The call at index [i] resumes with the resize promise settled as [r]
    (lines 203-211).  A rejection is thrown at the [await]; nothing catches
    it, so the rest of the function does not run. *)
Definition resume_resize (c : Controller) (i : nat) (imageSrc : string)
    (r : Settled Artifact) : Controller :=
  match r with
  | Resolved resized =>
      {| ui := setProcessing false
                 (setCaptureCount (fun n => (n + 1)%Z)
                    (setCapturedImage (Some resized) (setShowFlash true (ui c))));
         inflight := delete i (inflight c);
         timers := S (timers c) |}
  | Rejected _ =>
      {| ui := ui c; inflight := delete i (inflight c); timers := timers c |}
  | Pending =>
      {| ui := ui c; inflight := <[i := Hung imageSrc]> (inflight c); timers := timers c |}
  end.

(** [handleRetake] *)
Definition handleRetake (c : Controller) : Controller :=
  with_ui (fun s => setBlurWarning None (setCapturedImage None s)) c.

(** What can happen to the component. *)
Inductive Event :=
(** the polling interval fires; [ready] is [video && video.readyState >= 2] *)
| Tick (ready : bool) (ctx : option ImageData)
(** the capture button is pressed *)
| Click (shot : option string)
(** the image of the sharpness estimator of call [i] loads or fails *)
| SharpnessLoaded (i : nat) (img : LoadResult) (ctx : Z -> Z -> option ImageData)
(** the image of the normaliser of call [i] loads or fails *)
| ResizeLoaded (i : nat) (img : LoadResult) (ctx : bool)
(** the retake button is pressed *)
| Retake
(** a flash timeout fires *)
| FlashTimeout.

(** One event handled to completion by a page that has rendered since
    the event before it, as it has between two interactions of a user
    ([react] below is the page that has not).  The polling effect returns at
    once while an artifact is held ([if (capturedImage) return]); the capture
    button is rendered only in the camera view and the retake button only in
    the preview, so a press in the other view does not exist; the state
    setters called by one handler run are applied together before the next
    event. *)
Definition step (c : Controller) (e : Event) : Controller :=
  match e with
  | Tick ready ctx =>
      match capturedImage (ui c) with
      | Some _ => c
      | None =>
          if ready then with_ui (setBrightness (getAverageBrightness ctx)) c else c
      end
  | Click shot =>
      match capturedImage (ui c) with
      | Some _ => c
      | None => handleCapture c shot
      end
  | SharpnessLoaded i img ctx =>
      match inflight c !! i with
      | Some (AwaitVariance src) => resume_variance c i src (getLaplacianVariance img ctx)
      | _ => c
      end
  | ResizeLoaded i img ctx =>
      match inflight c !! i with
      | Some (AwaitResize src) => resume_resize c i src (resizeImage img ctx)
      | _ => c
      end
  | Retake =>
      match capturedImage (ui c) with
      | Some _ => handleRetake c
      | None => c
      end
  | FlashTimeout =>
      match timers c with
      | O => c
      | S n => {| ui := setShowFlash false (ui c); inflight := inflight c; timers := n |}
      end
  end.

Definition run (c : Controller) (es : list Event) : Controller := fold_left step es c.

Definition reachable (c : Controller) : Prop := exists es, c = run initial es.

(** *** Between two renders *)

(** The mounted component: its cells, calls and timeouts as the handlers
    have left them, and the state that its last render read.  What that
    render made stays until the next one: the buttons on the page, the polling
    effect, which is set up again only when [capturedImage] has changed
    (line 181), and [handleCapture], which [useCallback] makes anew only when
    [tooDark] or [processing] have changed (line 212), so that its guard reads
    the two as the render saw them.  A setter changes the cell at once for
    the next render to read; [setCaptureCount] is given a function of the
    cell. *)
Record Mounted := { component : Controller; rendered : State }.

(** The page just after a render. *)
Definition just_rendered (c : Controller) : Mounted :=
  {| component := c; rendered := ui c |}.

(** [handleCapture] past its guard (lines 185-194). *)
Definition start_capture (c : Controller) (shot : option string) : Controller :=
  let c1 := with_ui (fun s => setProcessing true (setBlurWarning None s)) c in
  if no_screenshot shot then with_ui (setProcessing false) c1
  else
    {| ui := ui c1;
       inflight := inflight c1 ++ [AwaitVariance (default "" shot)];
       timers := timers c1 |}.

Inductive Occurrence :=
(** an event is handled to completion *)
| Handled (e : Event)
(** React renders the component again *)
| Rerender.

(** The polling interval and the two buttons are those of the last render;
    the guard of [handleCapture] reads that render's [tooDark] and
    [processing]; a call that resumes after an [await], and a timeout, only
    set cells. *)
Definition react (p : Mounted) (o : Occurrence) : Mounted :=
  match o with
  | Rerender => just_rendered (component p)
  | Handled e =>
      let c := component p in
      {| component :=
           match e with
           | Tick ready ctx =>
               match capturedImage (rendered p) with
               | Some _ => c
               | None =>
                   if ready then with_ui (setBrightness (getAverageBrightness ctx)) c
                   else c
               end
           | Click shot =>
               match capturedImage (rendered p) with
               | Some _ => c
               | None =>
                   if tooDark (rendered p) || processing (rendered p) then c
                   else start_capture c shot
               end
           | Retake =>
               match capturedImage (rendered p) with
               | Some _ => handleRetake c
               | None => c
               end
           | SharpnessLoaded _ _ _ | ResizeLoaded _ _ _ | FlashTimeout => step c e
           end;
         rendered := rendered p |}
  end.

Definition perform (p : Mounted) (os : list Occurrence) : Mounted := fold_left react os p.

(** Every event is followed by a render. *)
Definition paced (es : list Event) : list Occurrence :=
  flat_map (fun e => [Handled e; Rerender]) es.

End Controller.


(** ** What [CapturePage] renders *)

Section View.

Context `{N : Number}.
Local Open Scope num_scope.

(** The three values of [statusLabel]. *)
Inductive StatusLabel := LowLight | Dim | Ready.

(** Lines 163-167. *)
Definition statusLabel (s : State) : StatusLabel :=
  if tooDark s then LowLight
  else if brightness s <? of_int 80 then Dim
  else Ready.

(** The text of the status pill (lines 262-266). *)
Definition status_text (l : StatusLabel) : string :=
  match l with
  | Ready => "Ready to capture"
  | Dim => "Dim lighting — still OK"
  | LowLight => "Too dark — add light"
  end.

(** The camera container: the status pill, the flash overlay, the blur
    warning, the low style of the brightness bar, and the capture button
    with its spinner. *)
Record CameraView := {
  pill : StatusLabel;
  pill_text : string;
  flash : bool;
  warning : option string;
  bar_low : bool;
  button_disabled : bool;
  spinner : bool
}.

(** [capturedImage ? preview : camera] *)
Inductive Main :=
| PreviewPane (image : Artifact)
| CameraPane (v : CameraView).

(** The header counter, shown when [captureCount > 0], and the main area. *)
Record Page := { counter : option Z; main : Main }.

(** [blurWarning && !tooDark] *)
Definition shown_warning (s : State) : option string :=
  match blurWarning s with
  | Some text => if decide (text = "") then None else if tooDark s then None else Some text
  | None => None
  end.

Definition render (s : State) : Page :=
  {| counter := if (0 <? captureCount s)%Z then Some (captureCount s) else None;
     main :=
       match capturedImage s with
       | Some image => PreviewPane image
       | None =>
           CameraPane
             {| pill := statusLabel s;
                pill_text := status_text (statusLabel s);
                flash := showFlash s;
                warning := shown_warning s;
                bar_low := tooDark s;
                button_disabled := tooDark s || processing s;
                spinner := processing s |}
       end |}.

End View.


(** ** Upload handler ([src/app/api/upload/route.ts]) *)

Module Upload.

(** A [File] of the form data: its MIME type, size and bytes. *)
Record File := { file_type : string; file_size : Z; file_bytes : list Z }.

(** [formData.get("image")]: a file or a plain string field. *)
Inductive FormEntry :=
| EntryFile (f : File)
| EntryString (s : string).

(** What reading a property of the [ALLOWED_TYPES] object gives: one of its
    own strings, or a member inherited from [Object.prototype], kept by the
    text it turns into inside a template literal. *)
Inductive JsValue :=
| JsString (s : string)
| JsInherited (text : string).

(** The object literal of lines 7-11. *)
Definition ALLOWED_TYPES : gmap string string :=
  {[ "image/png" := ".png"; "image/jpeg" := ".jpg"; "image/webp" := ".webp" ]}.

Definition native (name : string) : string :=
  "function " +:+ name +:+ "() { [native code] }".

(** The members every object literal inherits. *)
Definition Object_prototype : gmap string string :=
  list_to_map
    [ ("constructor", native "Object");
      ("__proto__", "[object Object]");
      ("hasOwnProperty", native "hasOwnProperty");
      ("isPrototypeOf", native "isPrototypeOf");
      ("propertyIsEnumerable", native "propertyIsEnumerable");
      ("toLocaleString", native "toLocaleString");
      ("toString", native "toString");
      ("valueOf", native "valueOf");
      ("__defineGetter__", native "__defineGetter__");
      ("__defineSetter__", native "__defineSetter__");
      ("__lookupGetter__", native "__lookupGetter__");
      ("__lookupSetter__", native "__lookupSetter__") ].

(** [Object.keys(ALLOWED_TYPES)]: the own keys, in the order the literal
    gives them. *)
Definition ALLOWED_KEYS : list string := ["image/png"; "image/jpeg"; "image/webp"].

(** [obj[key]]: an own property first, then the prototype. *)
Definition get_property (obj : gmap string string) (key : string) : option JsValue :=
  match obj !! key with
  | Some v => Some (JsString v)
  | None => JsInherited <$> (Object_prototype !! key)
  end.

(** [!ext] *)
Definition falsy (v : option JsValue) : bool :=
  match v with
  | None => true
  | Some (JsString s) => if decide (s = "") then true else false
  | Some (JsInherited _) => false
  end.

(** [`${ext}`] *)
Definition to_text (v : option JsValue) : string :=
  match v with
  | None => "undefined"
  | Some (JsString s) => s
  | Some (JsInherited text) => text
  end.

Definition MAX_FILE_SIZE : Z := 10 * 1024 * 1024.

(** What the error messages are built from. *)
Inductive Error :=
| NoImage
| UnsupportedType (type : string) (allowed : list string)
| TooLarge (size : Z) (max : Z)
| ServerError (message : string).

Inductive Body :=
| Success (filename url : string) (size : Z) (type : string)
| Failure (error : Error).

Record Response := { status : Z; body : Body }.

(** Directories and files on disk. *)
Record Disk := { dirs : gset string; files : gmap string (list Z) }.

(** A write that throws.  [writeFile] opens the file, which creates or
    empties it, and then writes; the handler has no cleanup.  So the
    exception leaves at the path either what was there before (nothing was
    opened: [None]) or what had been written by then ([Some], an empty list
    for a file that was only created). *)
Record WriteFailure := { write_message : string; left_behind : option (list Z) }.

(** What the handler gets from outside: the working directory, the next
    UUID, the parsed form (or the message of the exception that parsing
    throws), and whether [mkdir] and [writeFile] throw. *)
Record Env := {
  cwd : string;
  uuidv4 : string;
  formData : string + option FormEntry;
  mkdir_throws : option string;
  writeFile_throws : option WriteFailure
}.

Fixpoint ends_with_slash (s : string) : bool :=
  match s with
  | EmptyString => false
  | String c rest =>
      match rest with
      | EmptyString => Ascii.eqb c "/"
      | String _ _ => ends_with_slash rest
      end
  end.

(** [path.join] of a directory and a name. *)
Definition join2 (dir name : string) : string :=
  if ends_with_slash dir then dir +:+ name else dir +:+ "/" +:+ name.

(** [path.join]: the segments joined with "/" and the result normalised.
    The handlers join the working directory, which the system gives
    normalised, with names that hold no "/" and are neither empty nor made of
    dots; all there is to normalise then is the slash that the root directory
    "/" already ends with. *)
Definition path_join (parts : list string) : string :=
  match parts with
  | [] => "."
  | first :: rest => fold_left join2 rest first
  end.

Definition UPLOADS_DIR (env : Env) : string := path_join [cwd env; "public"; "uploads"].

Definition error_response (code : Z) (e : Error) : Response :=
  {| status := code; body := Failure e |}.

Definition POST (env : Env) (disk : Disk) : Response * Disk :=
  match formData env with
  | inl message => (error_response 500 (ServerError message), disk)
  | inr (None | Some (EntryString _)) => (error_response 400 NoImage, disk)
  | inr (Some (EntryFile file)) =>
      let ext := get_property ALLOWED_TYPES (file_type file) in
      if falsy ext then
        (error_response 400
           (UnsupportedType (file_type file) ALLOWED_KEYS), disk)
      else if (file_size file >? MAX_FILE_SIZE)%Z then
        (error_response 400 (TooLarge (file_size file) MAX_FILE_SIZE), disk)
      else
        match mkdir_throws env with
        | Some message => (error_response 500 (ServerError message), disk)
        | None =>
            let disk1 := {| dirs := {[ UPLOADS_DIR env ]} ∪ dirs disk; files := files disk |} in
            let filename := uuidv4 env +:+ to_text ext in
            let filepath := path_join [UPLOADS_DIR env; filename] in
            match writeFile_throws env with
            | Some failure =>
                (error_response 500 (ServerError (write_message failure)),
                 {| dirs := dirs disk1;
                    files := match left_behind failure with
                             | Some written => <[filepath := written]> (files disk1)
                             | None => files disk1
                             end |})
            | None =>
                ({| status := 201;
                    body := Success filename ("/uploads/" +:+ filename)
                                    (file_size file) (file_type file) |},
                 {| dirs := dirs disk1;
                    files := <[filepath := file_bytes file]> (files disk1) |})
            end
        end
  end.

(** The file the handler stores for an accepted upload. *)
Definition stored_path (env : Env) (ext : string) : string :=
  path_join [UPLOADS_DIR env; uuidv4 env +:+ ext].

(** A request carrying [file], with a disk that works. *)
Definition request (file : File) : Env :=
  {| cwd := "/app"; uuidv4 := "3f2b8c1e-5d4a-4e6f-9a7b-0c1d2e3f4a5b";
     formData := inr (Some (EntryFile file));
     mkdir_throws := None; writeFile_throws := None |}.

Definition empty_disk : Disk := {| dirs := ∅; files := ∅ |}.

End Upload.


(** ** Gallery listing ([src/app/api/gallery/route.ts]) *)

Module Gallery.

(** *** Library functions the handler calls *)

(** The state of the backward scan of Node's POSIX [path.extname]. *)
Record Scan := {
  startDot : Z;
  startPart : Z;
  scan_end : Z;
  matchedSlash : bool;
  preDotState : Z
}.

(** [path.charCodeAt(i)] *)
Definition char_at (path : string) (i : nat) : Ascii.ascii :=
  default "000"%char (String.get i path).

(** One round of the loop [for (let i = path.length - 1; i >= 0; --i)], at
    index [i]; [None] is the [break]. *)
Definition scan_step (code : Ascii.ascii) (i : Z) (st : Scan) : option Scan :=
  if Ascii.eqb code "/" then
    if negb (matchedSlash st) then None else Some st
  else
    let st1 :=
      if scan_end st =? -1
      then {| startDot := startDot st; startPart := startPart st; scan_end := i + 1;
              matchedSlash := false; preDotState := preDotState st |}
      else st in
    Some
      (if Ascii.eqb code "." then
         if startDot st1 =? -1
         then {| startDot := i; startPart := startPart st1; scan_end := scan_end st1;
                 matchedSlash := matchedSlash st1; preDotState := preDotState st1 |}
         else if negb (preDotState st1 =? 1)
         then {| startDot := startDot st1; startPart := startPart st1;
                 scan_end := scan_end st1; matchedSlash := matchedSlash st1;
                 preDotState := 1 |}
         else st1
       else if negb (startDot st1 =? -1)
       then {| startDot := startDot st1; startPart := startPart st1;
               scan_end := scan_end st1; matchedSlash := matchedSlash st1;
               preDotState := -1 |}
       else st1).

(** The loop from index [n - 1] down to 0. *)
Fixpoint scan (path : string) (n : nat) (st : Scan) : Scan :=
  match n with
  | O => st
  | S i =>
      match scan_step (char_at path i) (Z.of_nat i) st with
      | None =>
          {| startDot := startDot st; startPart := Z.of_nat i + 1; scan_end := scan_end st;
             matchedSlash := matchedSlash st; preDotState := preDotState st |}
      | Some st' => scan path i st'
      end
  end.

(** [path.slice(from, to)] for [0 <= from <= to]. *)
Definition slice (path : string) (from to : Z) : string :=
  String.substring (Z.to_nat from) (Z.to_nat (to - from)) path.

(** [path.extname(path)] *)
Definition extname (path : string) : string :=
  let st := scan path (String.length path)
              {| startDot := -1; startPart := 0; scan_end := -1;
                 matchedSlash := true; preDotState := 0 |} in
  if (startDot st =? -1) || (scan_end st =? -1) || (preDotState st =? 0)
     || ((preDotState st =? 1) && (startDot st =? scan_end st - 1)
         && (startDot st =? startPart st + 1))
  then ""
  else slice path (startDot st) (scan_end st).

(** Lower case of an ASCII letter; other bytes are kept. *)
Definition lower (c : Ascii.ascii) : Ascii.ascii :=
  let n := Ascii.nat_of_ascii c in
  if (65 <=? n)%nat && (n <=? 90)%nat then Ascii.ascii_of_nat (n + 32) else c.

(** [String.prototype.toLowerCase] on the bytes of the UTF-8 text.  Outside
    ASCII the lower case of a character is never one of the letters of the
    four extensions, so for the test against [ALLOWED_EXT] this is the same. *)
Fixpoint toLowerCase (s : string) : string :=
  match s with
  | EmptyString => EmptyString
  | String c s' => String (lower c) (toLowerCase s')
  end.

(** [array.sort(compare)]: a stable sort; [x] goes before the first [y]
    with [compare(x, y) <= 0]. *)
Fixpoint insert_sorted {A : Type} (compare : A -> A -> Z) (x : A) (l : list A) : list A :=
  match l with
  | [] => [x]
  | y :: l' => if compare x y <=? 0 then x :: l else y :: insert_sorted compare x l'
  end.

Definition sort {A : Type} (compare : A -> A -> Z) (l : list A) : list A :=
  fold_right (insert_sorted compare) [] l.

(** *** The handler *)

(** [fs.Stats]: the size in bytes and the birth time, a [Date], kept as its
    time value in milliseconds. *)
Record Stats := { size : Z; birthtime : Z }.

(** What the handler gets from the file system: the names [readdir] returns,
    or [None] when it throws; what [stat] returns for a path, or the message
    of the exception it throws. *)
Record Fs := {
  readdir : string -> option (list string);
  stat : string -> string + Stats
}.

Definition UPLOADS_DIR (cwd : string) : string :=
  Upload.path_join [cwd; "public"; "uploads"].

Definition ALLOWED_EXT : gset string := {[ ".png"; ".jpg"; ".jpeg"; ".webp" ]}.

(** One entry of the listing.  [createdAt] is the ISO text of the birth
    time, kept as the time value [new Date(createdAt).getTime()] reads back
    from it. *)
Record GalleryImage := {
  filename : string;
  url : string;
  image_size : Z;
  createdAt : Z
}.

Inductive Body :=
| Listing (images : list GalleryImage) (total : option Z)
| Failure (error : string).

Record Response := { status : Z; body : Body }.

(** The [for ... of] loop of lines 20-33; an exception of [stat] leaves it. *)
Fixpoint collect (fs : Fs) (dir : string) (files : list string)
    (images : list GalleryImage) : string + list GalleryImage :=
  match files with
  | [] => inr images
  | file :: rest =>
      let ext := toLowerCase (extname file) in
      if decide (ext ∈ ALLOWED_EXT) then
        match stat fs (Upload.path_join [dir; file]) with
        | inl message => inl message
        | inr info =>
            collect fs dir rest
              (images ++ [{| filename := file; url := "/uploads/" +:+ file;
                             image_size := size info; createdAt := birthtime info |}])
        end
      else collect fs dir rest images
  end.

(** [(a, b) => time(b) - time(a)] *)
Definition newest_first (a b : GalleryImage) : Z := createdAt b - createdAt a.

Definition GET (cwd : string) (fs : Fs) : Response :=
  match readdir fs (UPLOADS_DIR cwd) with
  | None => {| status := 200; body := Listing [] None |}
  | Some files =>
      match collect fs (UPLOADS_DIR cwd) files [] with
      | inl message => {| status := 500; body := Failure message |}
      | inr images =>
          let sorted := sort newest_first images in
          {| status := 200; body := Listing sorted (Some (Z.of_nat (length sorted))) |}
      end
  end.

End Gallery.


(** ** Leads ([src/app/api/leads/route.ts]) *)

Module Leads.

(** A JSON value, as [request.json()] returns it. *)
Inductive Json :=
| JNull
| JBool (b : bool)
| JNumber (x : float)
| JString (s : string)
| JArray (items : list Json)
| JObject (members : list (string * Json)).

(** The property [key] of a parsed object: of the members with that name
    the last one counts.  [None] is [undefined]. *)
Fixpoint member_of (members : list (string * Json)) (key : string) : option Json :=
  match members with
  | [] => None
  | (k, v) :: rest =>
      match member_of rest key with
      | Some later => Some later
      | None => if decide (k = key) then Some v else None
      end
  end.

(** What the destructuring of line 28 reads from [body].  Numbers, strings,
    booleans and arrays have none of the five properties read there. *)
Definition member (body : Json) (key : string) : option Json :=
  match body with
  | JObject members => member_of members key
  | _ => None
  end.

(** The values [!v] is false for. *)
Definition truthy (v : option Json) : bool :=
  match v with
  | None | Some JNull => false
  | Some (JBool b) => b
  | Some (JNumber x) => negb (PrimFloat.eqb x 0 || PrimFloat.is_nan x)
  | Some (JString s) => if decide (s = "") then false else true
  | Some (JArray _) | Some (JObject _) => true
  end.

(** [v ?? null] *)
Definition or_null (v : option Json) : Json := default JNull v.

(** What can be thrown inside the [try]: [request.json()] rejects a body
    that is not JSON, destructuring [null] is a [TypeError], and the database
    call fails; each with its message. *)
Inductive Thrown :=
| InvalidJson (message : string)
| DestructureNull
| Database (message : string).

Inductive Error :=
| ContactRequired
| ServerError (thrown : Thrown).

(** The [lead] object of the response; an [undefined] field is left out of
    the JSON text. *)
Record Lead := {
  id : Z;
  name : option Json;
  email : option Json;
  phone : option Json;
  company : option Json;
  image_url : option Json
}.

Inductive Body :=
| Leads (rows : list Json)
| Created (lead : Lead)
| Failure (error : Error).

Record Response := { status : Z; body : Body }.

(** A statement sent to the pool: its text and its parameters. *)
Record Statement := { sql : string; params : list Json }.

Definition SELECT_LEADS : string := "SELECT * FROM leads ORDER BY created_at DESC".

Definition INSERT_LEAD : string :=
  "INSERT INTO leads (name, email, phone, company, image_url)
       VALUES (?, ?, ?, ?, ?)".

(** What the handlers get from outside: the parsed body, or the message of
    the exception [request.json()] throws; what the pool answers to a
    statement: the rows of a query and the [insertId] of an insertion, or the
    message of the exception. *)
Record Env := {
  json : string + Json;
  query : Statement -> string + list Json;
  execute : Statement -> string + Z
}.

(** [GET]: the response, and the statements sent to the pool. *)
Definition GET (env : Env) : Response * list Statement :=
  let statement := {| sql := SELECT_LEADS; params := [] |} in
  match query env statement with
  | inr rows => ({| status := 200; body := Leads rows |}, [statement])
  | inl message =>
      ({| status := 500; body := Failure (ServerError (Database message)) |}, [statement])
  end.

(** [POST]: the response, and the statements sent to the pool. *)
Definition POST (env : Env) : Response * list Statement :=
  match json env with
  | inl message =>
      ({| status := 500; body := Failure (ServerError (InvalidJson message)) |}, [])
  | inr JNull =>
      ({| status := 500; body := Failure (ServerError DestructureNull) |}, [])
  | inr body =>
      let name := member body "name" in
      let email := member body "email" in
      let phone := member body "phone" in
      let company := member body "company" in
      let image_url := member body "image_url" in
      if negb (truthy name) && negb (truthy email) && negb (truthy phone) then
        ({| status := 400; body := Failure ContactRequired |}, [])
      else
        let statement :=
          {| sql := INSERT_LEAD;
             params := [or_null name; or_null email; or_null phone; or_null company;
                        or_null image_url] |} in
        match execute env statement with
        | inl message =>
            ({| status := 500; body := Failure (ServerError (Database message)) |},
             [statement])
        | inr insertId =>
            ({| status := 201;
                body := Created {| id := insertId; name := name; email := email;
                                   phone := phone; company := company;
                                   image_url := image_url |} |},
             [statement])
        end
  end.

(** The body has a name, an email or a phone that is not missing, [null],
    [false], [0] or the empty string. *)
Definition has_contact (body : Json) : bool :=
  truthy (member body "name") || truthy (member body "email")
  || truthy (member body "phone").

(** A pool that accepts every insertion and numbers it [next]. *)
Definition accepting (body : Json) (next : Z) : Env :=
  {| json := inr body; query := fun _ => inr []; execute := fun _ => inr next |}.

End Leads.


(** ** Notions the properties are stated with *)

Section Notions.

Context `{N : Number}.
Local Open Scope num_scope.




(** Every pixel of [data] has the colour [(r, g, b)], whatever its alpha. *)
Definition uniform_rgb (r g b : Z) (data : ImageData) : Prop :=
  forall k : Z, (0 <= k)%Z -> (4 * k < Z.of_nat (length data))%Z ->
    sample data (4 * k) = r /\ sample data (4 * k + 1) = g /\ sample data (4 * k + 2) = b.

(** [n] pixels of one colour and alpha. *)
Definition solid (n : nat) (r g b a : Z) : ImageData :=
  concat (repeat [r; g; b; a] n).

(** [total += l], [n] times. *)
Fixpoint add_times (n : nat) (l total : num) : num :=
  match n with
  | O => total
  | S n' => add_times n' l (total + l)
  end.

(** The integers [lo, lo+1, ..., hi-1]. *)
Definition range (lo hi : Z) : list Z :=
  map (fun k => (lo + Z.of_nat k)%Z) (seq 0 (Z.to_nat (hi - lo))).

(** The interior pixels of a [w] x [h] image, row by row. *)
Definition interior (w h : Z) : list (Z * Z) :=
  flat_map (fun y => map (fun x => (x, y)) (range 1 (w - 1))) (range 1 (h - 1)).

(** The kernel responses over the interior, in the order they are computed. *)
Definition responses (w h : Z) (gray : list num) : list num :=
  map (fun p => laplacian w gray (fst p) (snd p)) (interior w h).

(** Sum from the left, starting at 0, as a [+=] loop computes it. *)
Definition total (xs : list num) : num := fold_left nadd xs (of_int 0).

Definition mean (xs : list num) : num := total xs / of_int (Z.of_nat (length xs)).

(** [mean(response^2) - mean(response)^2] *)
Definition variance_spec (xs : list num) : num :=
  mean (map (fun r => r * r) xs) - mean xs * mean xs.

(** The 3 x 3 Laplacian kernel. *)
Definition kernel : list (list Z) := [[0; 1; 0]; [1; -4; 1]; [0; 1; 0]]%Z.

Definition kernel_at (dx dy : Z) : Z :=
  nth (Z.to_nat dx) (nth (Z.to_nat dy) kernel []) 0%Z.

(** The full nine-term convolution at [(x, y)]. *)
Definition kernel_response (w : Z) (gray : list num) (x y : Z) : num :=
  total
    (map (fun d : Z * Z =>
            of_int (kernel_at (fst d) (snd d))
            * gray_at gray ((y + snd d - 1) * w + (x + fst d - 1))%Z)
         [(0, 0); (1, 0); (2, 0); (0, 1); (1, 1); (2, 1); (0, 2); (1, 2); (2, 2)]%Z).

(** The kernel response where all five pixels have the gray value [v]. *)
Definition flat_response (v : num) : num := v + v + of_int (-4) * v + v + v.

(** A test on every triple drawn from three tables. *)
Definition forall3 (f : float -> float -> float -> bool) (ta tb tc : list float) : bool :=
  forallb (fun a => forallb (fun b => forallb (fun c => f a b c) tc) tb) ta.

(** One weighted channel of the luminance, for every byte. *)
Definition channel_table (n d : Z) : list float :=
  map (fun v => (JS.of_Z n / JS.of_Z d * JS.of_Z v)%float) (range 0 256).

(** The kernel response of five pixels whose gray value is the rounded sum
    of the three channel terms is 0. *)
Definition flat_ok (m4 fr fg fb : float) : bool :=
  let v := JS.fround32 (fr + fg + fb)%float in
  Leibniz.eqb (v + v + m4 * v + v + v)%float 0%float.

(** The data URL of a still, as [getScreenshot] returns it. *)
Definition still : string := "data:image/png;base64,iVBORw0KGgo=".

(** A sharp test image: a checkerboard of white and black pixels. *)
Definition checkerboard (w h : Z) : ImageData :=
  flat_map (fun i : Z =>
              let v := if Z.even (i mod w + i / w) then 255 else 0 in [v; v; v; 255])
           (range 0 (w * h))%Z.

(** The controller after a capture attempt is turned down as blurry. *)
Definition rejected_as_blurry (c : Controller) (i : nat) : Controller :=
  {| ui := setProcessing false
             (setBlurWarning
                (Some "Too blurry — hold your phone steady and try again") (ui c));
     inflight := delete i (inflight c);
     timers := timers c |}.

(** At most one evaluation is in flight, and only while [processing]. *)
Definition at_most_one (c : Controller) : Prop :=
  (length (inflight c) <= 1)%nat /\ (inflight c <> [] -> processing (ui c) = true).

(** A suspended call that can still resume. *)
Definition is_live (t : Task) : bool :=
  match t with
  | Hung _ => false
  | _ => true
  end.

Definition live (c : Controller) : nat := length (List.filter is_live (inflight c)).

(** How many capture attempts the event [e] brings to an outcome in [c]:
    a rejection as blurry, or an accepted artifact. *)
Definition outcome_of (c : Controller) (e : Event) : nat :=
  match e with
  | SharpnessLoaded i img ctx =>
      match inflight c !! i, getLaplacianVariance img ctx with
      | Some (AwaitVariance _), Resolved variance =>
          if variance <? of_int BLUR_THRESHOLD then 1%nat else 0%nat
      | _, _ => 0%nat
      end
  | ResizeLoaded i img ctx =>
      match inflight c !! i, resizeImage img ctx with
      | Some (AwaitResize _), Resolved _ => 1%nat
      | _, _ => 0%nat
      end
  | _ => 0%nat
  end.

(** The outcomes along a run. *)
Fixpoint count_outcomes (c : Controller) (es : list Event) : nat :=
  match es with
  | [] => 0%nat
  | e :: es' => (outcome_of c e + count_outcomes (step c e) es')%nat
  end.

Definition is_click (e : Event) : bool :=
  match e with
  | Click _ => true
  | _ => false
  end.

(** The camera view with the busy flag set and no call left that could
    clear it. *)
Definition stuck (c : Controller) : Prop :=
  processing (ui c) = true /\ capturedImage (ui c) = None /\ live c = 0%nat.

End Notions.


(** ** Notions for the controller's invariants *)

Section ControllerNotions.

Context `{N : Number}.

(** What the preview says of the image it shows: 1024 x 585 px, PNG. *)
Definition finished (a : Artifact) : Prop :=
  canvas_width a = 1024 /\ canvas_height a = 585
  /\ dest a = (0, 0, 1024, 585) /\ encoding a = "image/png".

(** While an evaluation runs no warning is on screen and no image is held;
    a held image is finished, with the busy flag and the warning cleared. *)
Definition calm (c : Controller) : Prop :=
  (inflight c <> [] -> blurWarning (ui c) = None /\ capturedImage (ui c) = None)
  /\ (forall a, capturedImage (ui c) = Some a ->
        finished a /\ processing (ui c) = false /\ blurWarning (ui c) = None).

Definition settled (c : Controller) : Prop := at_most_one c /\ calm c.

(** The event [e] switches the page from the camera to the preview. *)
Definition enters_preview (c : Controller) (e : Event) : bool :=
  match capturedImage (ui c), capturedImage (ui (step c e)) with
  | None, Some _ => true
  | _, _ => false
  end.

(** How often the preview appears along a run. *)
Fixpoint previews (c : Controller) (es : list Event) : Z :=
  match es with
  | [] => 0
  | e :: es' => (if enters_preview c e then 1 else 0) + previews (step c e) es'
  end.

(** The text of the blur warning (line 197). *)
Definition blur_text : string := "Too blurry — hold your phone steady and try again".

(** A flat still, which is turned down as blurry. *)
Definition blurry_capture : list Event :=
  [ Click (Some still);
    SharpnessLoaded 0 (Loaded {| img_width := 1920; img_height := 1080 |})
      (fun w h => Some (solid (Z.to_nat (w * h)) 128 128 128 255)) ].

Definition is_retake (e : Event) : bool :=
  match e with
  | Retake => true
  | _ => false
  end.


(** The event completes a capture: the normaliser of a waiting call
    resolves. *)
Definition accepts (c : Controller) (e : Event) : bool :=
  match e with
  | ResizeLoaded i img ctx =>
      match inflight c !! i, resizeImage img ctx with
      | Some (AwaitResize _), Resolved _ => true
      | _, _ => false
      end
  | _ => false
  end.

(** How many captures are completed along a run of the page. *)
Fixpoint accepted (p : Mounted) (os : list Occurrence) : Z :=
  match os with
  | [] => 0
  | o :: os' =>
      (match o with
       | Handled e => if accepts (component p) e then 1 else 0
       | Rerender => 0
       end) + accepted (react p o) os'
  end.

(** The render switches the page from the camera to the preview. *)
Definition appears (p : Mounted) (o : Occurrence) : bool :=
  match o, capturedImage (rendered p), capturedImage (ui (component p)) with
  | Rerender, None, Some _ => true
  | _, _, _ => false
  end.

(** How often the preview appears along a run of the page. *)
Fixpoint appearances (p : Mounted) (os : list Occurrence) : Z :=
  match os with
  | [] => 0
  | o :: os' => (if appears p o then 1 else 0) + appearances (react p o) os'
  end.

(** A press of the capture button with a sharp 1920 x 1080 still, followed
    through to the preview. *)
Definition sharp_capture : list Event :=
  [ Click (Some still);
    SharpnessLoaded 0 (Loaded {| img_width := 1920; img_height := 1080 |})
      (fun w h => Some (checkerboard w h));
    ResizeLoaded 0 (Loaded {| img_width := 1920; img_height := 1080 |}) true ].

End ControllerNotions.

(** ** Notions for gray frames *)

(** The binary64 brightness of a 64 x 48 frame of gray level [v]. *)
Definition gray_brightness (v : Z) : @num JS.number :=
  @ndiv JS.number (add_times 3072 (luminance v v v) (of_int 0)) (of_int 3072).

Definition gray_level_ok (v : Z) : bool :=
  Bool.eqb (PrimFloat.ltb (gray_brightness v) (JS.of_Z 25)) (v <? 25)
  && Bool.eqb (PrimFloat.ltb (gray_brightness v) (JS.of_Z 80)) (v <? 80).

(** ** Notions for the alpha channel *)

(** Two buffers of the same length that agree on every red, green and blue
    sample; the alpha samples, at the indices [4k + 3], may differ. *)
Definition same_rgb (data data' : ImageData) : Prop :=
  length data = length data'
  /\ forall i : Z, 0 <= i -> i mod 4 <> 3 -> sample data i = sample data' i.

(** ** Notions for the range of the sharpness *)

(** The sum of a list of rationals. *)
Fixpoint sumQ (l : list Q) : Q :=
  match l with
  | [] => 0%Q
  | x :: l' => (x + sumQ l')%Q
  end.

(** ** Notions for the gallery *)

Module GalleryNotions.
Import Gallery.

(** The file passes the extension test of line 22. *)
Definition is_image (file : string) : bool :=
  bool_decide (toLowerCase (extname file) ∈ ALLOWED_EXT).

(** The entry pushed for [file], when [stat] does not throw. *)
Definition entry (fs : Fs) (dir : string) (file : string) : option GalleryImage :=
  match stat fs (Upload.path_join [dir; file]) with
  | inr info =>
      Some {| filename := file; url := "/uploads/" +:+ file;
              image_size := size info; createdAt := birthtime info |}
  | inl _ => None
  end.

(** [a] is at least as new as [b]. *)
Definition not_older (a b : GalleryImage) : Prop := createdAt b <= createdAt a.

(** The entry was born at the instant [t]. *)
Definition born_at (t : Z) (g : GalleryImage) : bool := createdAt g =? t.

(** Every character of [s] passes [p]. *)
Fixpoint all_chars (p : Ascii.ascii -> bool) (s : string) : bool :=
  match s with
  | EmptyString => true
  | String c s' => p c && all_chars p s'
  end.

(** Neither a path separator nor a dot. *)
Definition plain_char (c : Ascii.ascii) : bool :=
  negb (Ascii.eqb c "/") && negb (Ascii.eqb c ".").

(** The characters of a UUID in its canonical text: hexadecimal digits and
    the hyphen. *)
Definition uuid_char (c : Ascii.ascii) : bool :=
  let n := Ascii.nat_of_ascii c in
  ((48 <=? n) && (n <=? 57) || (97 <=? n) && (n <=? 102) || (n =? 45))%nat.

(** The shape of what [uuidv4()] returns: 36 characters. *)
Definition is_uuid (s : string) : bool :=
  (String.length s =? 36)%nat && all_chars uuid_char s.

(** The file system answers for the directory [dir] of [disk]: [readdir]
    returns names [stat] succeeds on, and every file stored directly in
    [dir] is among them, with its length as size. *)
Definition serves (fs : Fs) (disk : Upload.Disk) (dir : string) : Prop :=
  exists names,
    readdir fs dir = Some names
    /\ (forall n, n ∈ names -> exists info, stat fs (Upload.path_join [dir; n]) = inr info)
    /\ (forall n bytes,
          all_chars (fun c => negb (Ascii.eqb c "/")) n = true ->
          Upload.files disk !! Upload.path_join [dir; n] = Some bytes ->
          n ∈ names
          /\ exists info, stat fs (Upload.path_join [dir; n]) = inr info
                          /\ size info = Z.of_nat (length bytes)).

(** A directory with one image and one text file; [stat] fails on the
    text file. *)
Definition one_png : Fs :=
  {| readdir := fun _ => Some ["card.PNG"; "notes.txt"];
     stat := fun p => if decide (p = "/app/public/uploads/card.PNG")
                      then inr {| size := 3; birthtime := 1700000000000 |}
                      else inl "ENOENT" |}.

(** The file system after the upload of [Upload.request]: the directory
    holds the one file written. *)
Definition after_upload (ext : string) (bytes : list Z) : Fs :=
  {| readdir := fun _ => Some ["3f2b8c1e-5d4a-4e6f-9a7b-0c1d2e3f4a5b" +:+ ext];
     stat := fun _ => inr {| size := Z.of_nat (length bytes);
                             birthtime := 1700000000000 |} |}.

End GalleryNotions.

(** * Properties *)

(** ** The number model on known values *)

Ltac evaluate :=
  repeat match goal with |- _ /\ _ => split end; vm_compute; reflexivity.

(** The decimal literals of the luminance formula. *)
Example js_literals :
  dec (H := JS.number) 299 1000 = 0.299%float
  /\ dec (H := JS.number) 587 1000 = 0.587%float
  /\ dec (H := JS.number) 114 1000 = 0.114%float.
Proof. evaluate. Qed.

Example js_of_int :
  JS.of_Z 255 = 255%float /\ JS.of_Z (-4) = (-4)%float /\ JS.of_Z 0 = 0%float
  /\ JS.of_Z (2 ^ 53 + 1) = 0x1p53%float.
Proof. evaluate. Qed.

(** [Math.fround(0.1)], a value with 24 bits already, a tie that goes to
    even, a binary32 subnormal, an overflow, a negative value. *)
Example js_fround32 :
  JS.fround32 0.1 = 0x1.99999ap-4%float
  /\ JS.fround32 255.5 = 255.5%float
  /\ JS.fround32 16777217 = 16777216%float
  /\ JS.fround32 1e-40 = 0x1.16c2p-133%float
  /\ JS.fround32 3.5e38 = infinity
  /\ JS.fround32 (-0.3) = (-0x1.333334p-2)%float.
Proof. evaluate. Qed.

(** [Math.round] rounds halves up. *)
Example js_math_round :
  JS.math_round 2.5 = 3 /\ JS.math_round (-2.5) = -2 /\ JS.math_round 2.4999 = 2
  /\ JS.math_round (-0.6) = -1 /\ JS.math_round 0.4 = 0 /\ JS.math_round nan = 0.
Proof. evaluate. Qed.

(** ** Frame normaliser *)




(** C1. Whatever the size of the source frame, every artifact [resizeImage]
    produces is a 1024 x 585 canvas filled by one draw onto the rectangle
    (0, 0, 1024, 585), and it produces one whenever the frame decodes and a
    rendering context is available. *)
Theorem resizeImage_output_dimensions :
  forall (N : Number) (img : Image),
    (exists a, resizeImage (Loaded img) true = Resolved a
               /\ canvas_width a = 1024 /\ canvas_height a = 585) /\
    (forall ctx a, resizeImage (Loaded img) ctx = Resolved a ->
       canvas_width a = 1024 /\ canvas_height a = 585 /\ dest a = (0, 0, 1024, 585)).
Proof.
  intros N img. split.
  - eexists. split; [reflexivity | split; reflexivity].
  - intros ctx a H. unfold resizeImage in H.
    destruct ctx; simpl in H; [| discriminate].
    injection H as <-. repeat split.
Qed.

Lemma resizeImage_output_dimensions_witness :
  exists a, resizeImage (N := JS.number)
              (Loaded {| img_width := 1080; img_height := 1920 |}) true = Resolved a
            /\ canvas_width a = 1024 /\ canvas_height a = 585.
Proof.
  exact (proj1 (resizeImage_output_dimensions JS.number
                  {| img_width := 1080; img_height := 1920 |})).
Defined.

Lemma exact_ltb_lt (a b : Qc) : Exact.ltb a b = true <-> (a < b)%Qc.
Proof. unfold Exact.ltb, Qclt, Qlt. apply Z.ltb_lt. Qed.

(** Over exact rationals the test of line 127 compares the two aspect
    ratios. *)
Lemma exact_wider_iff (w h : Z) :
  0 < w -> 0 < h ->
  ((@of_int Exact.number w / of_int h >? of_int OUTPUT_W / of_int OUTPUT_H)%num = true
   <-> OUTPUT_W * h < OUTPUT_H * w).
Proof.
  intros Hw Hh. cbn [nlt ndiv of_int Exact.number]. rewrite exact_ltb_lt.
  unfold Qclt, Qcdiv, Qcmult, Qcinv, OUTPUT_W, OUTPUT_H.
  cbn [this Q2Qc]. rewrite !Qred_correct.
  unfold Qlt, Qmult, Qinv, inject_Z. cbn [Qnum Qden].
  destruct h as [| ph | ph]; try lia. destruct w as [| pw | pw]; try lia.
  cbn. lia.
Qed.




Lemma exact_crop_eq (c : @Crop Exact.number) (x y w h : Qc) :
  (this (sx c) == this x)%Q -> (this (sy c) == this y)%Q ->
  (this (sw c) == this w)%Q -> (this (sh c) == this h)%Q ->
  c = @Build_Crop Exact.number x y w h.
Proof.
  destruct c as [a b c d]. cbn [sx sy sw sh]. intros Hx Hy Hw Hh.
  apply Qc_is_canon in Hx, Hy, Hw, Hh. congruence.
Qed.

Lemma js_crop_eq (c : @Crop JS.number) (x y w h : float) :
  sx c = x -> sy c = y -> sw c = w -> sh c = h -> c = @Build_Crop JS.number x y w h.
Proof. destruct c. cbn [sx sy sw sh]. congruence. Qed.

(** C6. A source that is already 1024 x 585 is cropped to itself,
    [sx = 0], [sy = 0], [sw = 1024], [sh = 585], and drawn at scale 1 in both
    directions onto a 1024 x 585 canvas; in binary64 and in exact
    arithmetic. *)
Theorem normalise_1024x585_is_identity :
  let img := {| img_width := 1024; img_height := 585 |} in
  (crop_rect (N := JS.number) img
     = {| sx := of_int 0; sy := of_int 0; sw := of_int 1024; sh := of_int 585 |}
   /\ exists a, resizeImage (N := JS.number) (Loaded img) true = Resolved a
        /\ canvas_width a = img_width img /\ canvas_height a = img_height img
        /\ scale_x a = 1%float /\ scale_y a = 1%float)
  /\
  (crop_rect (N := Exact.number) img
     = {| sx := of_int 0; sy := of_int 0; sw := of_int 1024; sh := of_int 585 |}
   /\ exists a, resizeImage (N := Exact.number) (Loaded img) true = Resolved a
        /\ canvas_width a = img_width img /\ canvas_height a = img_height img
        /\ scale_x a = 1%Qc /\ scale_y a = 1%Qc).
Proof.
  intros img. split; split.
  - apply js_crop_eq; vm_compute; reflexivity.
  - eexists. split; [reflexivity |]. repeat split; vm_compute; reflexivity.
  - apply exact_crop_eq; vm_compute; reflexivity.
  - eexists. split; [reflexivity |].
    repeat split; apply Qc_is_canon; vm_compute; reflexivity.
Qed.

(** The binary64 crop of common camera frames, landscape and portrait. *)
Example crop_1920x1080 :
  crop_rect (N := JS.number) {| img_width := 1920; img_height := 1080 |}
  = @Build_Crop JS.number 0x1.d89d89d89d88p+3%float 0%float
                           0x1.d89d89d89d89ep+10%float 1080%float.
Proof. apply js_crop_eq; vm_compute; reflexivity. Qed.


(** ** Brightness sampler *)

Section Brightness.

Context `{N : Number}.
Local Open Scope num_scope.

Lemma sum_luminance_uniform (r g b : Z) (data : ImageData) :
  uniform_rgb r g b data ->
  forall (m : nat) (fuel : nat) (k : Z) (total : num),
    (0 <= k)%Z -> Z.of_nat (length data) = (4 * (k + Z.of_nat m))%Z ->
    (m <= fuel)%nat ->
    sum_luminance fuel data (4 * k) total = add_times m (luminance r g b) total.
Proof.
  intros Hu m. induction m as [| m IH]; intros fuel k total Hk Hlen Hfuel.
  - destruct fuel as [| fuel]; [reflexivity |]. simpl.
    destruct (Z.ltb_spec (4 * k) (Z.of_nat (length data))); [lia | reflexivity].
  - destruct fuel as [| fuel]; [lia |]. simpl.
    destruct (Z.ltb_spec (4 * k) (Z.of_nat (length data))); [| lia].
    destruct (Hu k Hk) as (-> & -> & ->); [assumption |].
    replace (4 * k + 4)%Z with (4 * (k + 1))%Z by lia.
    apply IH; lia.
Qed.

Lemma brightness_uniform (r g b : Z) (data : ImageData) :
  image_data sampleW sampleH data -> uniform_rgb r g b data ->
  getAverageBrightness (Some data)
  = add_times 3072 (luminance r g b) (of_int 0) / of_int 3072.
Proof.
  intros [Hlen _] Hu. unfold getAverageBrightness.
  change (sampleW * sampleH)%Z with 3072%Z. f_equal.
  change 0%Z with (4 * 0)%Z at 1.
  apply sum_luminance_uniform; [assumption | lia | |].
  - rewrite Hlen. reflexivity.
  - unfold sampleW, sampleH in Hlen. lia.
Qed.

End Brightness.

Lemma solid_length (n : nat) (r g b a : Z) :
  length (solid n r g b a) = (4 * n)%nat.
Proof.
  unfold solid. induction n as [| n IH]; simpl; [reflexivity | rewrite IH; lia].
Qed.

Lemma solid_sample (n : nat) (r g b a : Z) (k : Z) :
  (0 <= k < Z.of_nat n)%Z ->
  sample (solid n r g b a) (4 * k) = r
  /\ sample (solid n r g b a) (4 * k + 1) = g
  /\ sample (solid n r g b a) (4 * k + 2) = b.
Proof.
  revert k. induction n as [| n IH]; intros k Hk; [lia |].
  destruct (Z.eq_dec k 0) as [-> | Hne].
  - repeat split.
  - unfold sample in *. specialize (IH (k - 1)%Z ltac:(lia)).
    replace (Z.to_nat (4 * k)) with (4 + Z.to_nat (4 * (k - 1)))%nat by lia.
    replace (Z.to_nat (4 * k + 1)) with (4 + Z.to_nat (4 * (k - 1) + 1))%nat by lia.
    replace (Z.to_nat (4 * k + 2)) with (4 + Z.to_nat (4 * (k - 1) + 2))%nat by lia.
    exact IH.
Qed.

Lemma solid_uniform (n : nat) (r g b a : Z) : uniform_rgb r g b (solid n r g b a).
Proof.
  intros k Hk Hlt. rewrite solid_length in Hlt. apply solid_sample. lia.
Qed.

Lemma solid_image_data (w h : Z) (r g b a : Z) :
  (0 <= w)%Z -> (0 <= h)%Z ->
  (0 <= r <= 255)%Z -> (0 <= g <= 255)%Z -> (0 <= b <= 255)%Z -> (0 <= a <= 255)%Z ->
  image_data w h (solid (Z.to_nat (w * h)) r g b a).
Proof.
  intros Hw Hh Hr Hg Hb Ha. split.
  - rewrite solid_length. nia.
  - unfold solid. induction (Z.to_nat (w * h)) as [| n IH]; simpl.
    + constructor.
    + repeat (constructor; [assumption |]). exact IH.
Qed.

(** C7. A sampled frame whose red, green and blue samples are all 0 has
    brightness exactly 0, and one whose samples are all 255 has brightness
    exactly 255: the mean over the 64 x 48 pixels of
    [0.299 R + 0.587 G + 0.114 B], in binary64 and in exact arithmetic. *)
Theorem brightness_black_and_white :
  forall data : ImageData,
    image_data sampleW sampleH data ->
    (uniform_rgb 0 0 0 data ->
       getAverageBrightness (N := JS.number) (Some data) = 0%float
       /\ getAverageBrightness (N := Exact.number) (Some data) = 0%Qc)
    /\
    (uniform_rgb 255 255 255 data ->
       getAverageBrightness (N := JS.number) (Some data) = 255%float
       /\ getAverageBrightness (N := Exact.number) (Some data) = Q2Qc 255).
Proof.
  intros data Hdata. split; intros Hu; split.
  1, 3: rewrite (brightness_uniform _ _ _ data Hdata Hu); vm_compute; reflexivity.
  all: rewrite (brightness_uniform _ _ _ data Hdata Hu);
    apply Qc_is_canon; vm_compute; reflexivity.
Qed.

Lemma brightness_black_and_white_witness :
  getAverageBrightness (N := JS.number) (Some (solid 3072 0 0 0 255)) = 0%float
  /\ getAverageBrightness (N := JS.number) (Some (solid 3072 255 255 255 255)) = 255%float.
Proof.
  split.
  - apply (brightness_black_and_white (solid 3072 0 0 0 255)).
    + apply (solid_image_data 64 48); lia.
    + apply solid_uniform.
  - apply (brightness_black_and_white (solid 3072 255 255 255 255)).
    + apply (solid_image_data 64 48); lia.
    + apply solid_uniform.
Defined.


(** ** Sharpness estimator *)

Lemma for_loop_from_fold {A : Type} (body : Z -> A -> A) (n : nat) (lo : Z) (acc : A) :
  for_loop_from n lo body acc
  = fold_left (fun a i => body i a) (map (fun k => (lo + Z.of_nat k)%Z) (seq 0 n)) acc.
Proof.
  revert lo acc. induction n as [| n IH]; intros lo acc; [reflexivity |].
  simpl. rewrite IH, Z.add_0_r. f_equal.
  rewrite <- seq_shift, map_map. apply map_ext. intros k. lia.
Qed.

Lemma for_loop_fold {A : Type} (body : Z -> A -> A) (lo hi : Z) (acc : A) :
  for_loop lo hi body acc = fold_left (fun a i => body i a) (range lo hi) acc.
Proof. apply for_loop_from_fold. Qed.

Lemma fold_left_flat_map {A B C : Type} (f : A -> C -> A) (g : B -> list C)
    (l : list B) (acc : A) :
  fold_left f (flat_map g l) acc = fold_left (fun a b => fold_left f (g b) a) l acc.
Proof.
  revert acc. induction l as [| b l IH]; intros acc; [reflexivity |].
  simpl. rewrite fold_left_app. apply IH.
Qed.

Lemma fold_left_through_map {A B C : Type} (f : A -> C -> A) (g : B -> C)
    (l : list B) (acc : A) :
  fold_left f (map g l) acc = fold_left (fun a b => f a (g b)) l acc.
Proof.
  revert acc. induction l as [| b l IH]; intros acc; [reflexivity | apply IH].
Qed.

Lemma fold_left_pointwise {A B : Type} (f g : A -> B -> A) (l : list B) (acc : A) :
  (forall a b, f a b = g a b) -> fold_left f l acc = fold_left g l acc.
Proof.
  intros Hfg. revert acc. induction l as [| b l IH]; intros acc; [reflexivity |].
  simpl. rewrite Hfg. apply IH.
Qed.

Lemma in_range (lo hi i : Z) : In i (range lo hi) <-> (lo <= i < hi)%Z.
Proof.
  unfold range. rewrite in_map_iff. split.
  - intros (k & <- & Hk). apply in_seq in Hk. lia.
  - intros Hi. exists (Z.to_nat (i - lo)). split; [lia |]. apply in_seq. lia.
Qed.

Lemma length_range (lo hi : Z) : length (range lo hi) = Z.to_nat (hi - lo).
Proof. unfold range. rewrite length_map, length_seq. reflexivity. Qed.

Lemma in_interior (w h x y : Z) :
  In (x, y) (interior w h) <-> (1 <= x <= w - 2 /\ 1 <= y <= h - 2)%Z.
Proof.
  unfold interior. rewrite in_flat_map. split.
  - intros (y' & Hy & Hin). apply in_map_iff in Hin as (x' & Heq & Hx).
    injection Heq as <- <-. apply in_range in Hy, Hx. lia.
  - intros [Hx Hy]. exists y. split; [apply in_range; lia |].
    apply in_map_iff. exists x. split; [reflexivity | apply in_range; lia].
Qed.

Lemma length_interior (w h : Z) :
  (2 <= w)%Z -> (2 <= h)%Z -> Z.of_nat (length (interior w h)) = ((w - 2) * (h - 2))%Z.
Proof.
  intros Hw Hh. unfold interior.
  assert (Hfm : forall l : list Z,
             length (flat_map (fun y => map (fun x => (x, y)) (range 1 (w - 1))) l)
             = (length l * Z.to_nat (w - 2))%nat).
  { induction l as [| y l IH]; [reflexivity |].
    simpl. rewrite length_app, IH, length_map, length_range.
    replace (w - 1 - 1)%Z with (w - 2)%Z by lia. reflexivity. }
  rewrite Hfm, length_range. nia.
Qed.

Section Sharpness.

Context `{N : Number}.
Local Open Scope num_scope.

Lemma convolve_fold (w h : Z) (gray : list num) :
  convolve w h gray
  = fold_left (fun a r => accumulate r a) (responses w h gray)
      {| acc_sum := of_int 0; acc_sumSq := of_int 0; acc_count := 0 |}.
Proof.
  unfold convolve, responses, interior.
  rewrite for_loop_fold, fold_left_through_map, fold_left_flat_map.
  apply fold_left_pointwise. intros a y.
  rewrite for_loop_fold, fold_left_through_map. reflexivity.
Qed.

Lemma accumulate_fold (rs : list num) (a : Acc) :
  let a' := fold_left (fun a r => accumulate r a) rs a in
  acc_sum a' = fold_left nadd rs (acc_sum a)
  /\ acc_sumSq a' = fold_left nadd (map (fun r => r * r) rs) (acc_sumSq a)
  /\ acc_count a' = (acc_count a + Z.of_nat (length rs))%Z.
Proof.
  revert a. induction rs as [| r rs IH]; intros a; simpl.
  - repeat split. lia.
  - destruct (IH (accumulate r a)) as (H1 & H2 & H3).
    rewrite H1, H2, H3. simpl. repeat split. lia.
Qed.

Lemma convolve_spec (w h : Z) (gray : list num) :
  let a := convolve w h gray in
  let R := responses w h gray in
  acc_sum a = total R
  /\ acc_sumSq a = total (map (fun r => r * r) R)
  /\ acc_count a = Z.of_nat (length R).
Proof.
  intros a R. subst a R. rewrite convolve_fold.
  destruct (accumulate_fold (responses w h gray)
              {| acc_sum := of_int 0; acc_sumSq := of_int 0; acc_count := 0 |})
    as (H1 & H2 & H3).
  rewrite H1, H2, H3. repeat split.
Qed.

Lemma variance_of_convolve (w h : Z) (gray : list num) :
  variance_of (convolve w h gray) = variance_spec (responses w h gray).
Proof.
  destruct (convolve_spec w h gray) as (H1 & H2 & H3).
  unfold variance_of, variance_spec, mean.
  rewrite H1, H2, H3, length_map. reflexivity.
Qed.

End Sharpness.

Lemma exact_nine_terms (z a b c d e f g h i : Qc) :
  (b + d + z * e + f + h
   = 0 + 0 * a + 1 * b + 0 * c + 1 * d + z * e + 1 * f + 0 * g + 1 * h + 0 * i)%Qc.
Proof. ring. Qed.

Lemma exact_laplacian_is_kernel (w : Z) (gray : list (@num Exact.number)) (x y : Z) :
  laplacian w gray x y = kernel_response w gray x y.
Proof.
  unfold laplacian, kernel_response, total.
  cbn [map fold_left fst snd].
  replace (y + 0 - 1)%Z with (y - 1)%Z by lia.
  replace (y + 1 - 1)%Z with y by lia.
  replace (y + 2 - 1)%Z with (y + 1)%Z by lia.
  replace (x + 0 - 1)%Z with (x - 1)%Z by lia.
  replace (x + 1 - 1)%Z with x by lia.
  replace (x + 2 - 1)%Z with (x + 1)%Z by lia.
  apply exact_nine_terms.
Qed.

(** C3. On a grayscale image of width [w >= 3] and height [h >= 3] the
    estimator evaluates the kernel response exactly at the interior pixels
    ([1 <= x <= w-2], [1 <= y <= h-2]), so it counts [(w-2)(h-2)] responses,
    and its result is [mean(response^2) - mean(response)^2] over them; each
    response is the convolution with [[0,1,0],[1,-4,1],[0,1,0]]. *)
Theorem laplacian_variance_over_interior :
  forall (N : Number) (w h : Z) (gray : list num),
    3 <= w -> 3 <= h ->
    let R := responses w h gray in
    (forall x y, In (x, y) (interior w h) <-> 1 <= x <= w - 2 /\ 1 <= y <= h - 2)
    /\ Z.of_nat (length R) = (w - 2) * (h - 2)
    /\ acc_count (convolve w h gray) = (w - 2) * (h - 2)
    /\ variance_of (convolve w h gray) = variance_spec R
    /\ (forall data, laplacianVariance w h data
                     = variance_spec (responses w h (grayscale (w * h) data)))
    /\ (forall (g : list (@num Exact.number)) x y,
          laplacian w g x y = kernel_response w g x y).
Proof.
  intros N w h gray Hw Hh R. subst R.
  assert (Hlen : Z.of_nat (length (responses w h gray)) = (w - 2) * (h - 2)).
  { unfold responses. rewrite length_map. apply length_interior; lia. }
  split; [intros x y; apply in_interior |].
  split; [exact Hlen |].
  split; [destruct (convolve_spec w h gray) as (_ & _ & ->); exact Hlen |].
  split; [apply variance_of_convolve |].
  split; [intros data; apply variance_of_convolve |].
  intros g x y. apply exact_laplacian_is_kernel.
Qed.

Lemma laplacian_variance_over_interior_witness :
  let gray := grayscale (N := JS.number) (5 * 4) (checkerboard 5 4) in
  acc_count (convolve 5 4 gray) = 6
  /\ variance_of (convolve 5 4 gray) = variance_spec (responses 5 4 gray).
Proof.
  intros gray.
  pose proof (laplacian_variance_over_interior JS.number 5 4 gray
                ltac:(lia) ltac:(lia)) as (_ & _ & H1 & H2 & _).
  split; [exact H1 | exact H2].
Defined.


Section FlatImage.

Context `{N : Number}.
Local Open Scope num_scope.

Lemma gray_at_grayscale (n : Z) (data : ImageData) (i : Z) :
  (0 <= i < n)%Z ->
  gray_at (grayscale n data) i
  = fround (luminance (sample data (i * 4)) (sample data (i * 4 + 1))
                      (sample data (i * 4 + 2))).
Proof.
  intros Hi. unfold gray_at, grayscale.
  set (f := fun i : Z => fround _).
  rewrite (nth_indep _ _ (f 0%Z)) by (rewrite !length_map, length_seq; lia).
  rewrite map_nth.
  rewrite (nth_indep _ _ (Z.of_nat 0)) by (rewrite length_map, length_seq; lia).
  rewrite map_nth, seq_nth by lia.
  subst f. cbv beta. replace (Z.of_nat (0 + Z.to_nat i)) with i by lia. reflexivity.
Qed.

Lemma flat_grayscale (w h r g b : Z) (data : ImageData) (i : Z) :
  image_data w h data -> uniform_rgb r g b data -> (0 <= i < w * h)%Z ->
  gray_at (grayscale (w * h) data) i = fround (luminance r g b).
Proof.
  intros [Hlen _] Hu Hi. rewrite gray_at_grayscale by assumption.
  destruct (Hu i) as (H1 & H2 & H3); [lia | lia |].
  replace (i * 4)%Z with (4 * i)%Z by lia. rewrite H1, H2, H3. reflexivity.
Qed.

Lemma responses_flat (w h : Z) (gray : list num) (v : num) :
  (3 <= w)%Z -> (3 <= h)%Z ->
  (forall i, (0 <= i < w * h)%Z -> gray_at gray i = v) ->
  responses w h gray = repeat (flat_response v) (Z.to_nat ((w - 2) * (h - 2))).
Proof.
  intros Hw Hh Hv. unfold responses.
  rewrite (map_ext_in _ (fun _ => flat_response v)).
  - rewrite map_const. f_equal.
    pose proof (length_interior w h ltac:(lia) ltac:(lia)). lia.
  - intros [x y] Hin. apply in_interior in Hin. cbn [fst snd].
    unfold laplacian, flat_response. rewrite !Hv by nia. reflexivity.
Qed.

Lemma flat_variance (w h r g b : Z) (data : ImageData) :
  (3 <= w)%Z -> (3 <= h)%Z -> image_data w h data -> uniform_rgb r g b data ->
  laplacianVariance w h data
  = variance_spec (repeat (flat_response (fround (luminance r g b)))
                          (Z.to_nat ((w - 2) * (h - 2)))).
Proof.
  intros Hw Hh Hdata Hu. unfold laplacianVariance.
  rewrite variance_of_convolve. f_equal.
  apply responses_flat; [assumption | assumption |].
  intros i Hi. apply (flat_grayscale w h r g b); assumption.
Qed.

End FlatImage.

Lemma exact_of_int_m4 : @of_int Exact.number (-4) = (- (1 + 1 + 1 + 1))%Qc.
Proof. apply Qc_is_canon. reflexivity. Qed.

Lemma exact_flat_response (v : Qc) : @flat_response Exact.number v = 0%Qc.
Proof.
  unfold flat_response. rewrite exact_of_int_m4. cbn [nadd nmul Exact.number].
  change (@num Exact.number) with Qc. ring.
Qed.

Lemma exact_total_zeros (n : nat) : @total Exact.number (repeat 0%Qc n) = 0%Qc.
Proof.
  unfold total. change (@of_int Exact.number 0) with 0%Qc.
  induction n as [| n IH]; [reflexivity |].
  simpl. replace (@nadd Exact.number 0%Qc 0%Qc) with 0%Qc; [exact IH |].
  apply Qc_is_canon. reflexivity.
Qed.

Lemma exact_variance_zeros (n : nat) : @variance_spec Exact.number (repeat 0%Qc n) = 0%Qc.
Proof.
  unfold variance_spec, mean. rewrite map_repeat.
  replace (@nmul Exact.number 0%Qc 0%Qc) with 0%Qc by (apply Qc_is_canon; reflexivity).
  rewrite !exact_total_zeros. generalize (Z.of_nat (length (repeat 0%Qc n))). intros z.
  cbn [nsub nmul ndiv Exact.number]. generalize (@of_int Exact.number z). intros q.
  change (@num Exact.number) with Qc in *. unfold Qcdiv. ring.
Qed.

(** Every flat image has sharpness 0 in exact arithmetic. *)
Lemma exact_flat_variance (w h r g b : Z) (data : ImageData) :
  3 <= w -> 3 <= h -> image_data w h data -> uniform_rgb r g b data ->
  laplacianVariance (N := Exact.number) w h data = 0%Qc.
Proof.
  intros Hw Hh Hdata Hu. rewrite (flat_variance w h r g b) by assumption.
  rewrite exact_flat_response. apply exact_variance_zeros.
Qed.

(** *** Binary64: the count divides 0 exactly *)

Lemma digits2_pos_lower (p : positive) : 2 ^ (Z.pos (digits2_pos p) - 1) <= Z.pos p.
Proof.
  induction p as [p IH | p IH |]; cbn [digits2_pos]; [| | simpl; lia].
  all: rewrite Pos2Z.inj_succ;
    replace (Z.succ (Z.pos (digits2_pos p)) - 1)
      with (Z.succ (Z.pos (digits2_pos p) - 1)) by lia;
    rewrite Z.pow_succ_r by lia; lia.
Qed.

Lemma digits2_pos_bound (p : positive) : Z.pos p < 2 ^ 53 -> Z.pos (digits2_pos p) <= 53.
Proof.
  intros Hp. destruct (Z_le_gt_dec (Z.pos (digits2_pos p)) 53) as [H | H]; [exact H |].
  pose proof (digits2_pos_lower p).
  assert (2 ^ 53 <= 2 ^ (Z.pos (digits2_pos p) - 1)) by (apply Z.pow_le_mono_r; lia).
  lia.
Qed.

Lemma digits2_pos_shift (p k : positive) :
  digits2_pos (Pos.iter xO p k) = (digits2_pos p + k)%positive.
Proof.
  induction k as [| k IH] using Pos.peano_ind.
  - simpl. lia.
  - rewrite Pos.iter_succ. cbn [digits2_pos]. rewrite IH. lia.
Qed.

(** An integer below 2^53 is converted without rounding, to a valid positive
    finite double. *)
Lemma binary_round_small (p : positive) :
  Z.pos p < 2 ^ 53 ->
  exists m e, binary_round prec emax false p 0 = S754_finite false m e
              /\ bounded prec emax m e = true.
Proof.
  intros Hp. pose proof (digits2_pos_bound p Hp) as Hd.
  set (d := digits2_pos p) in *.
  assert (Hal : exists mz,
             shl_align p 0 (fexp prec emax (Z.pos d + 0)) = (mz, Z.pos d - 53)
             /\ Z.pos (digits2_pos mz) = 53).
  { unfold shl_align, fexp, SpecFloat.emin, prec, emax.
    replace (Z.max (Z.pos d + 0 - 53) (3 - 1024 - 53)) with (Z.pos d - 53) by lia.
    destruct (Z.pos d - 53 - 0) as [| k | k] eqn:E; try lia.
    - exists p. split; [f_equal; lia | fold d; lia].
    - exists (Pos.iter xO p k). split; [f_equal; lia |].
      rewrite digits2_pos_shift. fold d. lia. }
  destruct Hal as (mz & Hal & Hdz).
  exists mz, (Z.pos d - 53).
  unfold binary_round. fold d. rewrite Hal.
  assert (Hshr : forall l, shr_fexp prec emax (Z.pos mz) (Z.pos d - 53) l
                           = (shr_record_of_loc (Z.pos mz) l, Z.pos d - 53)).
  { intros l. unfold shr_fexp, Zdigits2. rewrite Hdz.
    unfold fexp, SpecFloat.emin, prec, emax.
    replace (Z.max (53 + (Z.pos d - 53) - 53) (3 - 1024 - 53) - (Z.pos d - 53))
      with 0 by lia.
    reflexivity. }
  unfold binary_round_aux. rewrite Hshr.
  cbn [shr_record_of_loc shr_m loc_of_shr_record round_nearest_even].
  rewrite Hshr. cbn [shr_record_of_loc shr_m].
  unfold prec, emax.
  destruct (Z.leb_spec (Z.pos d - 53) (1024 - 53)); [| lia].
  split; [reflexivity |].
  unfold bounded, canonical_mantissa. rewrite Hdz.
  unfold fexp, SpecFloat.emin, prec, emax.
  apply andb_true_intro. split; [apply Z.eqb_eq; lia | apply Z.leb_le; lia].
Qed.

Lemma js_zero_div (n : Z) : 1 <= n < 2 ^ 53 -> (0 / JS.of_Z n)%float = 0%float.
Proof.
  intros Hn. destruct n as [| p | p]; try lia.
  destruct (binary_round_small p) as (m & e & Hbr & Hb); [lia |].
  apply Prim2SF_inj. rewrite FloatAxioms.div_spec. unfold JS.of_Z. cbn [binary_normalize].
  rewrite Hbr. rewrite Prim2SF_SF2Prim by exact Hb.
  reflexivity.
Qed.

Lemma js_total_zeros (n : nat) : @total JS.number (repeat 0%float n) = 0%float.
Proof.
  unfold total. change (@of_int JS.number 0) with 0%float.
  induction n as [| n IH]; [reflexivity | exact IH].
Qed.

Lemma js_variance_zeros (n : Z) :
  1 <= n < 2 ^ 53 -> @variance_spec JS.number (repeat 0%float (Z.to_nat n)) = 0%float.
Proof.
  intros Hn. unfold variance_spec, mean. rewrite map_repeat.
  change (@nmul JS.number 0%float 0%float) with 0%float.
  rewrite !js_total_zeros, !repeat_length, !Z2Nat.id by lia.
  cbn [nsub nmul ndiv of_int JS.number]. rewrite !js_zero_div by exact Hn.
  reflexivity.
Qed.

(** *** Binary64: equal gray values cancel exactly *)

(** The check passes for all 256^3 colours. *)
Lemma js_flat_check :
  forall3 (flat_ok (JS.of_Z (-4)))
    (channel_table 299 1000) (channel_table 587 1000) (channel_table 114 1000) = true.
Proof. vm_compute. reflexivity. Qed.

Lemma forall3_spec (f : float -> float -> float -> bool) (ta tb tc : list float) :
  forall3 f ta tb tc = true ->
  forall a b c, In a ta -> In b tb -> In c tc -> f a b c = true.
Proof.
  unfold forall3. intros H a b c Ha Hb Hc.
  rewrite forallb_forall in H. specialize (H a Ha).
  rewrite forallb_forall in H. specialize (H b Hb).
  rewrite forallb_forall in H. exact (H c Hc).
Qed.

Lemma in_channel_table (n d v : Z) :
  0 <= v <= 255 -> In (JS.of_Z n / JS.of_Z d * JS.of_Z v)%float (channel_table n d).
Proof.
  intros Hv. unfold channel_table.
  apply (in_map (fun v => (JS.of_Z n / JS.of_Z d * JS.of_Z v)%float)).
  apply in_range. lia.
Qed.

Lemma flat_ok_response (r g b : Z) :
  flat_ok (JS.of_Z (-4))
    (JS.of_Z 299 / JS.of_Z 1000 * JS.of_Z r) (JS.of_Z 587 / JS.of_Z 1000 * JS.of_Z g)
    (JS.of_Z 114 / JS.of_Z 1000 * JS.of_Z b)
  = Leibniz.eqb (@flat_response JS.number (fround (luminance r g b))) 0%float.
Proof. reflexivity. Qed.

Lemma js_flat_response (r g b : Z) :
  0 <= r <= 255 -> 0 <= g <= 255 -> 0 <= b <= 255 ->
  @flat_response JS.number (fround (luminance r g b)) = 0%float.
Proof.
  intros Hr Hg Hb. apply Leibniz.eqb_spec. rewrite <- flat_ok_response.
  exact (forall3_spec _ _ _ _ js_flat_check _ _ _
           (in_channel_table 299 1000 r Hr) (in_channel_table 587 1000 g Hg)
           (in_channel_table 114 1000 b Hb)).
Qed.

Lemma image_data_byte (w h : Z) (data : ImageData) (i : Z) :
  image_data w h data -> 0 <= i < Z.of_nat (length data) -> 0 <= sample data i <= 255.
Proof.
  intros [_ Hall] Hi. rewrite Forall_forall in Hall. apply Hall.
  unfold sample. apply list_elem_of_In, nth_In. lia.
Qed.

(** Every flat image has sharpness 0 in binary64. *)
Lemma js_flat_variance (w h r g b : Z) (data : ImageData) :
  3 <= w -> 3 <= h -> (w - 2) * (h - 2) < 2 ^ 53 ->
  image_data w h data -> uniform_rgb r g b data ->
  laplacianVariance (N := JS.number) w h data = 0%float.
Proof.
  intros Hw Hh Hn Hdata Hu.
  rewrite (flat_variance w h r g b) by assumption.
  assert (Hlen : Z.of_nat (length data) = 4 * w * h) by apply Hdata.
  destruct (Hu 0) as (Hr & Hg & Hb); [lia | nia |].
  pose proof (image_data_byte w h data 0 Hdata ltac:(nia)) as Br.
  pose proof (image_data_byte w h data 1 Hdata ltac:(nia)) as Bg.
  pose proof (image_data_byte w h data 2 Hdata ltac:(nia)) as Bb.
  change (4 * 0) with 0 in Hr. change (4 * 0 + 1) with 1 in Hg.
  change (4 * 0 + 2) with 2 in Hb. rewrite Hr in Br. rewrite Hg in Bg. rewrite Hb in Bb.
  rewrite js_flat_response by assumption.
  apply js_variance_zeros. nia.
Qed.

Section Rejection.

Context `{N : Number}.

Lemma sharpness_below_floor (c : Controller) (i : nat) (src : string)
    (img : Image) (ctx : Z -> Z -> option ImageData) (data : ImageData) (v : num) :
  inflight c !! i = Some (AwaitVariance src) ->
  0 < round (of_int (img_height img) / of_int (img_width img) * of_int 160)%num ->
  ctx 160 (round (of_int (img_height img) / of_int (img_width img) * of_int 160))%num
    = Some data ->
  laplacianVariance 160
    (round (of_int (img_height img) / of_int (img_width img) * of_int 160))%num data = v ->
  (v <? of_int BLUR_THRESHOLD)%num = true ->
  step c (SharpnessLoaded i (Loaded img) ctx) = rejected_as_blurry c i.
Proof.
  intros Htask Hpos Hctx Hvar Hlt. unfold step. rewrite Htask.
  unfold getLaplacianVariance. rewrite Hctx, Hvar.
  destruct (Z.leb_spec (round (of_int (img_height img) / of_int (img_width img)
                               * of_int 160)%num) 0); [lia |].
  unfold resume_variance. rewrite Hlt. reflexivity.
Qed.

End Rejection.

(** C8. A flat image (every pixel one colour) whose downscaled size is at
    least 3 x 3 has sharpness exactly 0, and the capture attempt that
    measures it is rejected as blurry: the warning is set, the busy flag is
    cleared, no image is captured.  In binary64, for every colour and every
    size whose pixel count a double holds exactly, and in exact arithmetic. *)
Theorem flat_image_is_rejected :
  (forall (w h r g b : Z) (data : ImageData),
     3 <= w -> 3 <= h -> (w - 2) * (h - 2) < 2 ^ 53 ->
     image_data w h data -> uniform_rgb r g b data ->
     laplacianVariance (N := JS.number) w h data = 0%float)
  /\
  (forall (c : @Controller JS.number) (i : nat) (src : string) (img : Image)
          (ctx : Z -> Z -> option ImageData) (r g b : Z) (data : ImageData),
     let h := @round JS.number
                (of_int (img_height img) / of_int (img_width img) * of_int 160)%num in
     3 <= h < 2 ^ 32 -> image_data 160 h data -> uniform_rgb r g b data ->
     inflight c !! i = Some (AwaitVariance src) -> ctx 160 h = Some data ->
     step c (SharpnessLoaded i (Loaded img) ctx) = rejected_as_blurry c i)
  /\
  (forall (w h r g b : Z) (data : ImageData),
     3 <= w -> 3 <= h -> image_data w h data -> uniform_rgb r g b data ->
     laplacianVariance (N := Exact.number) w h data = 0%Qc)
  /\
  (forall (c : @Controller Exact.number) (i : nat) (src : string) (img : Image)
          (ctx : Z -> Z -> option ImageData) (r g b : Z) (data : ImageData),
     let h := @round Exact.number
                (of_int (img_height img) / of_int (img_width img) * of_int 160)%num in
     3 <= h -> image_data 160 h data -> uniform_rgb r g b data ->
     inflight c !! i = Some (AwaitVariance src) -> ctx 160 h = Some data ->
     step c (SharpnessLoaded i (Loaded img) ctx) = rejected_as_blurry c i).
Proof.
  split; [| split; [| split]].
  - apply js_flat_variance.
  - intros c i src img ctx r g b data h Hh Hdata Hu Htask Hctx.
    apply (sharpness_below_floor c i src img ctx data 0%float); try assumption.
    + fold h. lia.
    + apply (js_flat_variance 160 h r g b); [lia | lia | lia | assumption ..].
    + reflexivity.
  - apply exact_flat_variance.
  - intros c i src img ctx r g b data h Hh Hdata Hu Htask Hctx.
    apply (sharpness_below_floor c i src img ctx data 0%Qc); try assumption.
    + fold h. lia.
    + apply (exact_flat_variance 160 h r g b); [lia | assumption ..].
    + reflexivity.
Qed.

(** A 1920 x 1080 still is downscaled to 160 x 90. *)
Lemma js_height_1920x1080 :
  @round JS.number (of_int 1080 / of_int 1920 * of_int 160)%num = 90.
Proof. vm_compute. reflexivity. Qed.

Lemma flat_image_is_rejected_witness :
  let c := {| ui := setProcessing true (@initial_state JS.number);
              inflight := [AwaitVariance still];
              timers := 0 |} in
  laplacianVariance (N := JS.number) 160 90 (solid (Z.to_nat (160 * 90)) 200 120 40 255)
  = 0%float
  /\ step c (SharpnessLoaded 0 (Loaded {| img_width := 1920; img_height := 1080 |})
               (fun w h => Some (solid (Z.to_nat (w * h)) 200 120 40 255)))
     = rejected_as_blurry c 0.
Proof.
  intros c. destruct flat_image_is_rejected as (Hjs & Hstep & _). split.
  - apply (Hjs 160 90 200 120 40); [lia | lia | lia | apply solid_image_data; lia |].
    apply solid_uniform.
  - apply (Hstep c 0%nat still _ _ 200 120 40
             (solid (Z.to_nat (160 * 90)) 200 120 40 255));
      cbn [img_width img_height]; rewrite ?js_height_1920x1080.
    + lia.
    + apply solid_image_data; lia.
    + apply solid_uniform.
    + reflexivity.
    + reflexivity.
Defined.


(** ** Capture controller *)

Section ControllerFacts.

Context `{N : Number}.

Lemma handleCapture_blocked (c : Controller) (shot : option string) :
  tooDark (ui c) = true \/ processing (ui c) = true -> handleCapture c shot = c.
Proof.
  intros H. unfold handleCapture.
  destruct H as [-> | ->]; [reflexivity | rewrite orb_true_r; reflexivity].
Qed.

Lemma click_blocked (c : Controller) (shot : option string) :
  tooDark (ui c) = true \/ processing (ui c) = true -> step c (Click shot) = c.
Proof.
  intros H. simpl. destruct (capturedImage (ui c)); [reflexivity |].
  apply handleCapture_blocked, H.
Qed.

Lemma short_list_lookup {A : Type} (l : list A) (i : nat) (x : A) :
  (length l <= 1)%nat -> l !! i = Some x -> l = [x] /\ i = 0%nat.
Proof.
  destruct l as [| y [| z l]]; simpl; intros Hlen Hi; [discriminate | | lia].
  destruct i as [| i]; [injection Hi as ->; auto | discriminate].
Qed.

Lemma step_at_most_one (c : Controller) (e : Event) :
  at_most_one c -> at_most_one (step c e).
Proof.
  unfold at_most_one. intros [Hlen Hproc].
  destruct e as [ready ctx | shot | i img ctx | i img ctx | |]; simpl.
  - destruct (capturedImage (ui c)); [split; assumption |].
    destruct ready; split; assumption.
  - destruct (capturedImage (ui c)); [split; assumption |].
    unfold handleCapture.
    destruct (tooDark (ui c) || processing (ui c)) eqn:Hgate; [split; assumption |].
    apply orb_false_elim in Hgate as [_ Hidle].
    assert (Hnil : inflight c = []).
    { destruct (inflight c) as [| t l] eqn:E; [reflexivity |].
      rewrite Hproc in Hidle; [discriminate | discriminate]. }
    destruct (no_screenshot shot); simpl; rewrite Hnil; split; simpl; auto; congruence.
  - destruct (inflight c !! i) as [[src | src | src] |] eqn:Hi; try (split; assumption).
    destruct (short_list_lookup _ _ _ Hlen Hi) as [Hl ->].
    unfold resume_variance.
    destruct (getLaplacianVariance img ctx) as [v | msg |];
      [destruct (nlt v _) |..]; simpl; rewrite Hl; simpl; split; auto; try congruence.
    all: intros _; apply Hproc; rewrite Hl; discriminate.
  - destruct (inflight c !! i) as [[src | src | src] |] eqn:Hi; try (split; assumption).
    destruct (short_list_lookup _ _ _ Hlen Hi) as [Hl ->].
    unfold resume_resize.
    destruct (resizeImage img ctx) as [a | msg |];
      simpl; rewrite Hl; simpl; split; auto; try congruence.
    intros _; apply Hproc; rewrite Hl; discriminate.
  - destruct (capturedImage (ui c)); split; assumption.
  - destruct (timers c); split; assumption.
Qed.

Lemma run_app (c : Controller) (es1 es2 : list Event) :
  run c (es1 ++ es2) = run (run c es1) es2.
Proof. apply fold_left_app. Qed.

Lemma run_three (c0 c1 c2 : Controller) (e1 e2 e3 : Event) :
  step c0 e1 = c1 -> step c1 e2 = c2 -> run c0 [e1; e2; e3] = step c2 e3.
Proof. intros <- <-. reflexivity. Qed.

Lemma run_at_most_one (c : Controller) (es : list Event) :
  at_most_one c -> at_most_one (run c es).
Proof.
  revert c. induction es as [| e es IH]; intros c H; [exact H |].
  apply IH, step_at_most_one, H.
Qed.

Lemma reachable_at_most_one (c : Controller) : reachable c -> at_most_one c.
Proof.
  intros [es ->]. apply run_at_most_one. split; simpl; [lia | congruence].
Qed.

Lemma reachable_run (es : list Event) : reachable (run initial es).
Proof. exists es. reflexivity. Qed.

Lemma reachable_step (c : Controller) (e : Event) : reachable c -> reachable (step c e).
Proof.
  intros [es ->]. exists (es ++ [e]). rewrite run_app. reflexivity.
Qed.

Lemma second_click_ignored (c : Controller) (shot1 shot2 : option string) :
  reachable c -> inflight (step c (Click shot1)) <> [] ->
  step (step c (Click shot1)) (Click shot2) = step c (Click shot1).
Proof.
  intros Hr Hne. apply click_blocked. right.
  apply (reachable_at_most_one _ (reachable_step c (Click shot1) Hr)), Hne.
Qed.

Lemma outcome_consumes_live (c : Controller) (e : Event) :
  at_most_one c -> is_click e = false ->
  (outcome_of c e + live (step c e) <= live c)%nat.
Proof.
  intros [Hlen Hproc] Hnc. unfold live.
  destruct e as [ready ctx | shot | i img ctx | i img ctx | |]; simpl in *;
    try discriminate.
  - destruct (capturedImage (ui c)); [lia |]. destruct ready; simpl; lia.
  - destruct (inflight c !! i) as [[src | src | src] |] eqn:Hi; try lia.
    destruct (short_list_lookup _ _ _ Hlen Hi) as [Hl ->].
    unfold resume_variance.
    destruct (getLaplacianVariance img ctx) as [v | msg |];
      [destruct (nlt v _) |..]; simpl; rewrite Hl; simpl; lia.
  - destruct (inflight c !! i) as [[src | src | src] |] eqn:Hi; try lia.
    destruct (short_list_lookup _ _ _ Hlen Hi) as [Hl ->].
    unfold resume_resize.
    destruct (resizeImage img ctx) as [a | msg |]; simpl; rewrite Hl; simpl; lia.
  - destruct (capturedImage (ui c)); simpl; lia.
  - destruct (timers c); simpl; lia.
Qed.

Lemma outcomes_bounded (es : list Event) (c : Controller) :
  at_most_one c -> forallb (fun e => negb (is_click e)) es = true ->
  (count_outcomes c es <= live c)%nat.
Proof.
  revert c. induction es as [| e es IH]; intros c Hc Hes; simpl; [lia |].
  simpl in Hes. apply andb_prop in Hes as [He Hes]. apply negb_true_iff in He.
  pose proof (outcome_consumes_live c e Hc He).
  pose proof (IH (step c e) (step_at_most_one c e Hc) Hes). lia.
Qed.

Lemma live_at_most_one (c : Controller) : at_most_one c -> (live c <= 1)%nat.
Proof.
  intros [Hlen _]. unfold live.
  pose proof (List.filter_length_le is_live (inflight c)). lia.
Qed.

End ControllerFacts.

Section Gate.

Context `{N : Number}.

Lemma first_click_starts (c : Controller) (shot : option string) :
  reachable c -> processing (ui c) = false -> inflight (step c (Click shot)) <> [] ->
  exists src, inflight (step c (Click shot)) = [AwaitVariance src].
Proof.
  intros Hr Hidle Hne. destruct (reachable_at_most_one c Hr) as [_ Hproc].
  assert (Hnil : inflight c = []).
  { destruct (inflight c) as [| t l] eqn:E; [reflexivity |].
    rewrite Hproc in Hidle; discriminate. }
  simpl in *. destruct (capturedImage (ui c)); [congruence |].
  unfold handleCapture in *.
  destruct (tooDark (ui c) || processing (ui c)); [congruence |].
  destruct (no_screenshot shot); simpl in *; [congruence |].
  rewrite Hnil. eexists. reflexivity.
Qed.

Lemma decided_once (c : Controller) (src : string) (img : LoadResult)
    (ctx : Z -> Z -> option ImageData) (v : num) (img' : Image) :
  inflight c = [AwaitVariance src] ->
  getLaplacianVariance img ctx = Resolved v ->
  if (v <? of_int BLUR_THRESHOLD)%num
  then count_outcomes c [SharpnessLoaded 0 img ctx] = 1%nat
  else count_outcomes c [SharpnessLoaded 0 img ctx; ResizeLoaded 0 (Loaded img') true]
       = 1%nat.
Proof.
  intros Hl Hv. unfold BLUR_THRESHOLD in *.
  destruct (v <? of_int 5)%num eqn:Hlt; simpl; rewrite Hl; simpl;
    rewrite Hv; unfold BLUR_THRESHOLD; rewrite Hlt; [reflexivity |].
  unfold resume_variance, BLUR_THRESHOLD. rewrite Hlt. simpl. rewrite Hl. reflexivity.
Qed.

End Gate.

Section Stuck.

Context `{N : Number}.

Lemma live_zero_lookup (l : list Task) (i : nat) (t : Task) :
  length (List.filter is_live l) = 0%nat -> l !! i = Some t -> is_live t = false.
Proof.
  revert i. induction l as [| u l IH]; intros i Hlive Hi; [discriminate |].
  simpl in Hlive. destruct (is_live u) eqn:Hu; [discriminate |].
  destruct i as [| i]; simpl in Hi; [injection Hi as <-; exact Hu | eauto].
Qed.

Lemma stuck_step (c : Controller) (e : Event) : stuck c -> stuck (step c e).
Proof.
  intros (Hproc & Hcap & Hlive).
  destruct e as [ready ctx | shot | i img ctx | i img ctx | |]; simpl; rewrite ?Hcap.
  - destruct ready; repeat split; assumption.
  - rewrite handleCapture_blocked by auto. repeat split; assumption.
  - destruct (inflight c !! i) as [t |] eqn:Hi; [| repeat split; assumption].
    apply (live_zero_lookup _ _ _ Hlive) in Hi.
    destruct t; try discriminate; repeat split; assumption.
  - destruct (inflight c !! i) as [t |] eqn:Hi; [| repeat split; assumption].
    apply (live_zero_lookup _ _ _ Hlive) in Hi.
    destruct t; try discriminate; repeat split; assumption.
  - repeat split; assumption.
  - destruct (timers c); repeat split; assumption.
Qed.

Lemma stuck_run (es : list Event) (c : Controller) : stuck c -> stuck (run c es).
Proof.
  revert c. induction es as [| e es IH]; intros c H; [exact H |].
  apply IH, stuck_step, H.
Qed.

(** Once stuck, the capture button never works again. *)
Lemma stuck_forever (c : Controller) (es : list Event) (shot : option string) :
  stuck c ->
  processing (ui (run c es)) = true
  /\ capturedImage (ui (run c es)) = None
  /\ step (run c es) (Click shot) = run c es.
Proof.
  intros H. destruct (stuck_run es c H) as (Hproc & Hcap & Hlive).
  repeat split; [assumption | assumption |]. apply click_blocked. auto.
Qed.

End Stuck.

(** C10. Without a 2D context [getAverageBrightness] returns 255; a poll
    that gets this value leaves the frame not too dark, and the next press
    of an idle capture button starts an evaluation. *)
Theorem brightness_without_context :
  (forall N : Number, getAverageBrightness None = of_int 255)
  /\
  (forall c : @Controller JS.number,
     capturedImage (ui c) = None ->
     let c' := step c (Tick true None) in
     brightness (ui c') = 255%float /\ tooDark (ui c') = false
     /\ forall shot : string,
          processing (ui c) = false -> shot <> "" ->
          processing (ui (step c' (Click (Some shot)))) = true
          /\ inflight (step c' (Click (Some shot))) = inflight c ++ [AwaitVariance shot])
  /\
  (forall c : @Controller Exact.number,
     capturedImage (ui c) = None ->
     let c' := step c (Tick true None) in
     brightness (ui c') = Q2Qc 255 /\ tooDark (ui c') = false
     /\ forall shot : string,
          processing (ui c) = false -> shot <> "" ->
          processing (ui (step c' (Click (Some shot)))) = true
          /\ inflight (step c' (Click (Some shot))) = inflight c ++ [AwaitVariance shot]).
Proof.
  split; [reflexivity |].
  split; intros c Hcap c'; subst c'; simpl; rewrite Hcap; simpl.
  - split; [vm_compute; reflexivity |]. split; [reflexivity |].
    intros shot Hidle Hshot. rewrite Hcap. unfold handleCapture. simpl.
    change (tooDark _) with false. rewrite Hidle. simpl.
    destruct (decide (shot = "")); [contradiction |]. simpl. auto.
  - split; [apply Qc_is_canon; reflexivity |]. split; [reflexivity |].
    intros shot Hidle Hshot. rewrite Hcap. unfold handleCapture. simpl.
    change (tooDark _) with false. rewrite Hidle. simpl.
    destruct (decide (shot = "")); [contradiction |]. simpl. auto.
Qed.

Lemma brightness_without_context_witness :
  tooDark (ui (step (@initial JS.number) (Tick true None))) = false
  /\ inflight (step (step (@initial JS.number) (Tick true None))
                    (Click (Some still)))
     = [AwaitVariance still].
Proof.
  destruct brightness_without_context as (_ & Hjs & _).
  destruct (Hjs initial eq_refl) as (_ & Hdark & Hclick). split; [exact Hdark |].
  apply (Hclick still eq_refl). discriminate.
Defined.

(** *** A sharp image *)

Lemma nth_flat_map4 (f : Z -> list Z) (l : list Z) (k c : nat) :
  (forall x, length (f x) = 4%nat) -> (k < length l)%nat -> (c < 4)%nat ->
  nth (4 * k + c) (flat_map f l) 0 = nth c (f (nth k l 0)) 0.
Proof.
  intros Hf. revert k. induction l as [| a l IH]; intros k Hk Hc; [simpl in Hk; lia |].
  cbn [flat_map]. destruct k as [| k].
  - rewrite app_nth1 by (rewrite Hf; lia). reflexivity.
  - rewrite app_nth2 by (rewrite Hf; lia). rewrite Hf.
    replace (4 * S k + c - 4)%nat with (4 * k + c)%nat by lia.
    apply IH; [simpl in Hk; lia | exact Hc].
Qed.

Lemma nth_range (n : Z) (k : nat) : Z.of_nat k < n -> nth k (range 0 n) 0 = Z.of_nat k.
Proof.
  intros Hk. unfold range.
  rewrite (nth_indep _ 0 (0 + Z.of_nat 0)) by (rewrite length_map, length_seq; lia).
  rewrite (map_nth (fun k => 0 + Z.of_nat k)), seq_nth by lia. lia.
Qed.

Lemma checkerboard_sample (w h i c : Z) :
  0 <= i < w * h -> 0 <= c < 3 ->
  sample (checkerboard w h) (4 * i + c) = if Z.even (i mod w + i / w) then 255 else 0.
Proof.
  intros Hi Hc. unfold sample, checkerboard.
  replace (Z.to_nat (4 * i + c)) with (4 * Z.to_nat i + Z.to_nat c)%nat by lia.
  rewrite nth_flat_map4; [| reflexivity | rewrite length_range; lia | lia].
  rewrite nth_range by lia. rewrite Z2Nat.id by lia. cbv zeta.
  destruct (Z.even (i mod w + i / w));
    destruct (Z.to_nat c) as [| [| [| n]]] eqn:E; try reflexivity; lia.
Qed.

Lemma js_checkerboard_gray (w h i : Z) :
  0 <= i < w * h ->
  gray_at (grayscale (N := JS.number) (w * h) (checkerboard w h)) i
  = if Z.even (i mod w + i / w) then 255%float else 0%float.
Proof.
  intros Hi. rewrite gray_at_grayscale by exact Hi.
  replace (i * 4) with (4 * i + 0) by lia.
  replace (4 * i + 0 + 1) with (4 * i + 1) by lia.
  replace (4 * i + 0 + 2) with (4 * i + 2) by lia.
  rewrite !(checkerboard_sample w h i) by lia.
  destruct (Z.even (i mod w + i / w)); vm_compute; reflexivity.
Qed.

Lemma mod_row (w a x : Z) : 0 <= x < w -> (a * w + x) mod w = x.
Proof.
  intros Hx. rewrite Z.add_comm, Z_mod_plus_full. apply Z.mod_small, Hx.
Qed.

Lemma div_row (w a x : Z) : 0 <= x < w -> (a * w + x) / w = a.
Proof.
  intros Hx. rewrite Z.add_comm, Z.div_add by lia. rewrite Z.div_small by exact Hx. lia.
Qed.

(** On the checkerboard every interior pixel differs from its four
    neighbours, so the response is -1020 on white and 1020 on black. *)
Lemma js_checkerboard_response (h x y : Z) :
  3 <= h -> 1 <= x <= 158 -> 1 <= y <= h - 2 ->
  laplacian (N := JS.number) 160 (grayscale (160 * h) (checkerboard 160 h)) x y
  = if Z.even (x + y) then (-1020)%float else 1020%float.
Proof.
  intros Hh Hx Hy. unfold laplacian. rewrite !js_checkerboard_gray by lia.
  rewrite !mod_row, !div_row by lia.
  replace (x - 1) with (Z.pred x) by lia. replace (x + 1) with (Z.succ x) by lia.
  replace (y - 1) with (Z.pred y) by lia. replace (y + 1) with (Z.succ y) by lia.
  rewrite !Z.even_add, !Z.even_pred, !Z.even_succ, <- !Z.negb_even.
  destruct (Z.even x), (Z.even y); vm_compute; reflexivity.
Qed.

(** The 160 x 90 checkerboard is far above the blur floor. *)
Lemma js_checkerboard_variance :
  laplacianVariance (N := JS.number) 160 90 (checkerboard 160 90) = 1040400%float.
Proof.
  unfold laplacianVariance. rewrite variance_of_convolve. unfold responses.
  rewrite (map_ext_in _ (fun p => if Z.even (fst p + snd p)
                                  then (-1020)%float else 1020%float)).
  - vm_compute. reflexivity.
  - intros [x y] Hin. apply in_interior in Hin. cbn [fst snd].
    apply js_checkerboard_response; lia.
Qed.

Lemma js_checkerboard_pass :
  getLaplacianVariance (N := JS.number)
    (Loaded {| img_width := 1920; img_height := 1080 |})
    (fun w h => Some (checkerboard w h))
  = Resolved 1040400%float.
Proof.
  unfold getLaplacianVariance. cbn [img_width img_height].
  rewrite js_height_1920x1080, js_checkerboard_variance. reflexivity.
Qed.

Lemma still_not_empty : still <> "".
Proof. discriminate. Qed.

Lemma js_click_starts (shot : string) :
  shot <> "" ->
  step (@initial JS.number) (Click (Some shot))
  = {| ui := setProcessing true initial_state; inflight := [AwaitVariance shot];
       timers := 0 |}.
Proof.
  intros Hshot. cbn [step initial ui capturedImage initial_state].
  unfold handleCapture. cbn [ui initial]. 
  change (tooDark initial_state || processing initial_state) with false.
  cbv iota. unfold no_screenshot. destruct (decide (shot = "")); [contradiction |].
  reflexivity.
Qed.

Lemma js_sharp_passes (shot : string) :
  step {| ui := setProcessing true (@initial_state JS.number);
          inflight := [AwaitVariance shot]; timers := 0 |}
       (SharpnessLoaded 0 (Loaded {| img_width := 1920; img_height := 1080 |})
          (fun w h => Some (checkerboard w h)))
  = {| ui := setProcessing true initial_state; inflight := [AwaitResize shot];
       timers := 0 |}.
Proof.
  cbn [step inflight lookup list_lookup]. rewrite js_checkerboard_pass. reflexivity.
Qed.

(** C5 fails on the code.  Three capture attempts from the initial state
    with a sharp 1920 x 1080 still, each with a failure the claim lists: the
    still does not decode in the sharpness estimator; the still does not
    decode in the normaliser; the normaliser gets no rendering context.  Each leaves the busy flag set with
    no call left to clear it, and from then on the flag stays set and every
    press of the capture button is ignored, whatever happens. *)
Theorem capture_failure_leaves_busy :
  let shot := Some still in
  let frame := Loaded {| img_width := 1920; img_height := 1080 |} in
  let sharp := fun w h : Z => Some (checkerboard w h) in
  let decode_fails_in_estimator :=
    run (@initial JS.number) [Click shot; SharpnessLoaded 0 LoadError sharp] in
  let decode_fails_in_normaliser :=
    run (@initial JS.number)
        [Click shot; SharpnessLoaded 0 frame sharp; ResizeLoaded 0 LoadError true] in
  let no_context_in_normaliser :=
    run (@initial JS.number)
        [Click shot; SharpnessLoaded 0 frame sharp; ResizeLoaded 0 frame false] in
  Forall
    (fun c : Controller =>
       processing (ui c) = true
       /\ capturedImage (ui c) = None
       /\ forall (es : list Event) (again : option string),
            processing (ui (run c es)) = true
            /\ capturedImage (ui (run c es)) = None
            /\ step (run c es) (Click again) = run c es)
    [decode_fails_in_estimator; decode_fails_in_normaliser; no_context_in_normaliser].
Proof.
  intros shot frame sharp c1 c2 c3.
  assert (H2 : c2 = step {| ui := setProcessing true initial_state;
                            inflight := [AwaitResize still];
                            timers := 0 |} (ResizeLoaded 0 LoadError true))
    by exact (run_three _ _ _ _ _ _ (js_click_starts still still_not_empty)
                (js_sharp_passes _)).
  assert (H3 : c3 = step {| ui := setProcessing true initial_state;
                            inflight := [AwaitResize still];
                            timers := 0 |} (ResizeLoaded 0 frame false))
    by exact (run_three _ _ _ _ _ _ (js_click_starts still still_not_empty)
                (js_sharp_passes _)).
  assert (Hstuck : Forall stuck [c1; c2; c3]).
  { rewrite H2, H3.
    constructor; [| constructor; [| constructor; [| constructor]]]; repeat split. }
  eapply Forall_impl; [exact Hstuck |].
  intros c (Hp & Hcap & Hl).
  split; [exact Hp |]. split; [exact Hcap |].
  intros es again. apply stuck_forever. repeat split; assumption.
Qed.

(** A sharp still is accepted.  From the initial state, a press with a
    1920 x 1080 still whose downscaled copy is the checkerboard: its sharpness,
    1040400, is above the floor, the still is normalised and held as a
    1024 x 585 PNG, the counter goes to 1, the busy flag is cleared; while the
    image is held polls and presses change nothing, and retake returns to the
    camera view. *)
Theorem sharp_image_is_accepted :
  let shot := Some still in
  let frame := Loaded {| img_width := 1920; img_height := 1080 |} in
  let sharp := fun w h : Z => Some (checkerboard w h) in
  let c := run (@initial JS.number)
               [Click shot; SharpnessLoaded 0 frame sharp; ResizeLoaded 0 frame true] in
  getLaplacianVariance (N := JS.number) frame sharp = Resolved 1040400%float
  /\ PrimFloat.ltb 1040400%float (JS.of_Z BLUR_THRESHOLD) = false
  /\ processing (ui c) = false /\ captureCount (ui c) = 1 /\ inflight c = []
  /\ blurWarning (ui c) = None
  /\ (exists a, capturedImage (ui c) = Some a
                /\ canvas_width a = 1024 /\ canvas_height a = 585
                /\ encoding a = "image/png")
  /\ step c (Tick true (Some (solid 3072 0 0 0 255))) = c
  /\ step c (Click shot) = c
  /\ capturedImage (ui (step c Retake)) = None.
Proof.
  intros shot frame sharp c.
  assert (Hc : c = step {| ui := setProcessing true initial_state;
                           inflight := [AwaitResize still];
                           timers := 0 |} (ResizeLoaded 0 frame true))
    by exact (run_three _ _ _ _ _ _ (js_click_starts still still_not_empty)
                (js_sharp_passes _)).
  split; [exact js_checkerboard_pass |].
  split; [reflexivity |]. rewrite Hc.
  split; [reflexivity |]. split; [reflexivity |]. split; [reflexivity |].
  split; [reflexivity |].
  split; [eexists; split; [reflexivity |]; repeat split |].
  split; [reflexivity |]. split; reflexivity.
Qed.

(** *** Between two renders *)

Section RenderingFacts.

Context `{N : Number}.

(** A page that has just rendered handles an event as [step] says. *)
Lemma react_just_rendered (c : Controller) (e : Event) :
  react (just_rendered c) (Handled e) = {| component := step c e; rendered := ui c |}.
Proof. destruct e; reflexivity. Qed.

Lemma perform_paced (es : list Event) (c : Controller) :
  perform (just_rendered c) (paced es) = just_rendered (run c es).
Proof.
  revert c. induction es as [| e es IH]; intros c; [reflexivity |].
  change (paced (e :: es)) with (Handled e :: Rerender :: paced es).
  change (perform (just_rendered c) (Handled e :: Rerender :: paced es))
    with (perform (react (react (just_rendered c) (Handled e)) Rerender) (paced es)).
  rewrite react_just_rendered. apply IH.
Qed.

(** The guard reads the render: a press on a page that shows the frame as
    too dark, or the busy flag as set, does nothing. *)
Lemma stale_click_blocked (p : Mounted) (shot : option string) :
  tooDark (rendered p) = true \/ processing (rendered p) = true ->
  react p (Handled (Click shot)) = p.
Proof.
  intros H. destruct p as [c s]. cbn [react component rendered] in *.
  destruct (capturedImage s); [reflexivity |].
  destruct H as [-> | ->]; rewrite ?orb_true_r; reflexivity.
Qed.

(** A press that starts an evaluation has passed the guard of the last
    render, and so does the next press before the page renders again. *)
Lemma press_twice (p : Mounted) (shot1 shot2 : option string) :
  inflight (component (react p (Handled (Click shot1)))) <> inflight (component p) ->
  no_screenshot shot2 = false ->
  inflight (component (perform p [Handled (Click shot1); Handled (Click shot2)]))
  = inflight (component p) ++ [AwaitVariance (default "" shot1);
                               AwaitVariance (default "" shot2)]
  /\ processing (ui (component (react p (Handled (Click shot1))))) = true.
Proof.
  destruct p as [c s]. cbn [perform fold_left react component rendered].
  destruct (capturedImage s); [intros H; contradiction H; reflexivity |].
  destruct (tooDark s || processing s); [intros H; contradiction H; reflexivity |].
  unfold start_capture.
  destruct (no_screenshot shot1); [intros H; contradiction H; reflexivity |].
  intros _ ->. cbn. rewrite <- app_assoc. split; reflexivity.
Qed.

End RenderingFacts.

Lemma js_sharp_passes_at (c : @Controller JS.number) (i : nat) (src : string) :
  inflight c !! i = Some (AwaitVariance src) ->
  step c (SharpnessLoaded i (Loaded {| img_width := 1920; img_height := 1080 |})
            (fun w h => Some (checkerboard w h)))
  = {| ui := ui c; inflight := <[i := AwaitResize src]> (inflight c);
       timers := timers c |}.
Proof. intros H. cbn [step]. rewrite H, js_checkerboard_pass. reflexivity. Qed.

Lemma js_sharp_outcome (c : @Controller JS.number) (i : nat) :
  outcome_of c (SharpnessLoaded i (Loaded {| img_width := 1920; img_height := 1080 |})
                  (fun w h => Some (checkerboard w h)))
  = 0%nat.
Proof.
  cbn [outcome_of]. rewrite js_checkerboard_pass.
  destruct (inflight c !! i) as [[src | src | src] |]; reflexivity.
Qed.

Lemma perform_cons (p p' : @Mounted JS.number) (o : Occurrence) (os : list Occurrence) :
  react p o = p' -> perform p (o :: os) = perform p' os.
Proof. intros <-. reflexivity. Qed.

Lemma count_outcomes_cons (c c' : @Controller JS.number) (e : Event) (es : list Event)
    (n : nat) :
  step c e = c' -> outcome_of c e = n ->
  count_outcomes c (e :: es) = (n + count_outcomes c' es)%nat.
Proof. intros <- <-. reflexivity. Qed.

Lemma appearances_cons (p p' : @Mounted JS.number) (o : Occurrence) (os : list Occurrence)
    (b : bool) :
  react p o = p' -> appears p o = b ->
  appearances p (o :: os) = (if b then 1 else 0) + appearances p' os.
Proof. intros <- <-. reflexivity. Qed.

Lemma accepted_cons (p p' : @Mounted JS.number) (e : Event) (os : list Occurrence)
    (b : bool) :
  react p (Handled e) = p' -> accepts (component p) e = b ->
  accepted p (Handled e :: os) = (if b then 1 else 0) + accepted p' os.
Proof. intros <- <-. reflexivity. Qed.

Lemma react_load (p : @Mounted JS.number) (e : Event) (c' : Controller) :
  is_click e = false -> is_retake e = false ->
  (forall ready ctx, e <> Tick ready ctx) ->
  step (component p) e = c' ->
  react p (Handled e) = {| component := c'; rendered := rendered p |}.
Proof.
  intros Hc Hr Ht <-. destruct e; try discriminate; try reflexivity.
  contradiction (Ht ready ctx). reflexivity.
Qed.

(** C4. The guard of [handleCapture] reads [tooDark] and [processing] as
    the last render saw them.  A press on a page that shows the frame as too
    dark, or the busy flag as set, changes nothing.  Where every event is
    followed by a render, at most one evaluation is in flight, and only with
    the busy flag shown; a second press is then ignored, the two presses lead
    to at most one outcome, and to exactly one once the attempt is decided.
    But the page does not render between two presses that are handled one
    right after the other: whenever the first press starts an evaluation, the
    second starts another, although the busy flag is set by then.  So two
    presses with a sharp still, within one render, give two evaluations and
    two accepted images: the counter shows 2 after the preview has appeared
    once. *)
Theorem capture_gate :
  (forall N : Number,
     (forall (p : Mounted) (shot : option string),
        tooDark (rendered p) = true \/ processing (rendered p) = true ->
        react p (Handled (Click shot)) = p)
     /\
     (forall es : list Event,
        let p := perform (just_rendered initial) (paced es) in
        (length (inflight (component p)) <= 1)%nat
        /\ (inflight (component p) <> [] -> processing (rendered p) = true)
        /\ forall shot1 shot2 : option string,
             inflight (component (react p (Handled (Click shot1)))) <> [] ->
             perform p [Handled (Click shot1); Rerender; Handled (Click shot2)]
             = perform p [Handled (Click shot1); Rerender]
             /\ (forall es' : list Event,
                   forallb (fun e => negb (is_click e)) es' = true ->
                   (count_outcomes
                      (component (perform p [Handled (Click shot1); Rerender;
                                             Handled (Click shot2)])) es' <= 1)%nat)
             /\ forall (img : LoadResult) (ctx : Z -> Z -> option ImageData) (v : num)
                       (img' : Image),
                  processing (rendered p) = false ->
                  getLaplacianVariance img ctx = Resolved v ->
                  count_outcomes
                    (component (perform p [Handled (Click shot1); Rerender;
                                           Handled (Click shot2)]))
                    (if (v <? of_int BLUR_THRESHOLD)%num
                     then [SharpnessLoaded 0 img ctx]
                     else [SharpnessLoaded 0 img ctx; ResizeLoaded 0 (Loaded img') true])
                  = 1%nat)
     /\
     (forall (p : Mounted) (shot1 shot2 : option string),
        inflight (component (react p (Handled (Click shot1)))) <> inflight (component p) ->
        no_screenshot shot2 = false ->
        processing (ui (component (react p (Handled (Click shot1))))) = true
        /\ inflight (component (perform p [Handled (Click shot1); Handled (Click shot2)]))
           = inflight (component p) ++ [AwaitVariance (default "" shot1);
                                        AwaitVariance (default "" shot2)]))
  /\
  (let shot := Some still in
   let frame := Loaded {| img_width := 1920; img_height := 1080 |} in
   let sharp := fun w h : Z => Some (checkerboard w h) in
   let pressed_twice :=
     perform (just_rendered (@initial JS.number))
             [Handled (Click shot); Handled (Click shot)] in
   let loads := [SharpnessLoaded 0 frame sharp; SharpnessLoaded 1 frame sharp;
                 ResizeLoaded 0 frame true; ResizeLoaded 0 frame true] in
   let followed := [Handled (SharpnessLoaded 0 frame sharp);
                    Handled (SharpnessLoaded 1 frame sharp);
                    Handled (ResizeLoaded 0 frame true); Rerender;
                    Handled (ResizeLoaded 0 frame true); Rerender] in
   inflight (component pressed_twice) = [AwaitVariance still; AwaitVariance still]
   /\ processing (rendered pressed_twice) = false
   /\ count_outcomes (component pressed_twice) loads = 2%nat
   /\ accepted pressed_twice followed = 2
   /\ appearances pressed_twice followed = 1
   /\ captureCount (rendered (perform pressed_twice followed)) = 2
   /\ counter (render (rendered (perform pressed_twice followed))) = Some 2
   /\ inflight (component (perform pressed_twice followed)) = []).
Proof.
  split.
  - intros N. split; [exact stale_click_blocked |]. split; [| intros p shot1 shot2 H1 H2;
      destruct (press_twice p shot1 shot2 H1 H2); auto].
    intros es p. subst p. rewrite perform_paced.
    pose proof (reachable_run es) as Hr. set (c := run initial es) in *.
    destruct (reachable_at_most_one _ Hr) as [Hlen Hproc].
    split; [exact Hlen |]. split; [exact Hproc |].
    intros shot1 shot2 Hne. rewrite react_just_rendered in Hne. cbn [component] in Hne.
    assert (E1 : perform (just_rendered c) [Handled (Click shot1); Rerender]
                 = just_rendered (step c (Click shot1))).
    { change (react (react (just_rendered c) (Handled (Click shot1))) Rerender
              = just_rendered (step c (Click shot1))).
      rewrite react_just_rendered. reflexivity. }
    assert (E2 : perform (just_rendered c)
                   [Handled (Click shot1); Rerender; Handled (Click shot2)]
                 = just_rendered (step c (Click shot1))).
    { change (react (perform (just_rendered c) [Handled (Click shot1); Rerender])
                    (Handled (Click shot2))
              = just_rendered (step c (Click shot1))).
      rewrite E1, react_just_rendered, (second_click_ignored _ shot1 shot2 Hr Hne).
      reflexivity. }
    rewrite E2, E1. split; [reflexivity |]. cbn [component just_rendered rendered].
    split.
    + intros es' Hes'.
      assert (Hc : at_most_one (step c (Click shot1)))
        by (apply reachable_at_most_one, reachable_step, Hr).
      pose proof (outcomes_bounded es' _ Hc Hes').
      pose proof (live_at_most_one _ Hc). lia.
    + intros img ctx v img' Hidle Hv.
      destruct (first_click_starts c shot1 Hr Hidle Hne) as [src Hsrc].
      pose proof (decided_once _ src img ctx v img' Hsrc Hv) as Hone.
      destruct (v <? of_int BLUR_THRESHOLD)%num; exact Hone.
  - intros shot frame sharp pressed_twice loads followed.
    set (busy := setProcessing true (@initial_state JS.number)).
    set (c2 := {| ui := busy; inflight := [AwaitVariance still; AwaitVariance still];
                  timers := 0 |}).
    set (c3 := {| ui := busy; inflight := [AwaitResize still; AwaitVariance still];
                  timers := 0 |}).
    set (c4 := {| ui := busy; inflight := [AwaitResize still; AwaitResize still];
                  timers := 0 |}).
    set (p2 := {| component := c2; rendered := @initial_state JS.number |}).
    set (p3 := {| component := c3; rendered := @initial_state JS.number |}).
    set (p4 := {| component := c4; rendered := @initial_state JS.number |}).
    set (l1 := SharpnessLoaded 0 frame sharp).
    set (l2 := SharpnessLoaded 1 frame sharp).
    set (l3 := ResizeLoaded 0 frame true).
    assert (H2 : pressed_twice = p2) by reflexivity.
    assert (S1 : step c2 l1 = c3) by exact (js_sharp_passes_at c2 0 still eq_refl).
    assert (S2 : step c3 l2 = c4) by exact (js_sharp_passes_at c3 1 still eq_refl).
    assert (R1 : react p2 (Handled l1) = p3)
      by (apply react_load; [reflexivity | reflexivity | discriminate | exact S1]).
    assert (R2 : react p3 (Handled l2) = p4)
      by (apply react_load; [reflexivity | reflexivity | discriminate | exact S2]).
    assert (Hrun : perform p2 [Handled l1; Handled l2; Handled l3; Rerender;
                               Handled l3; Rerender]
                   = perform p4 [Handled l3; Rerender; Handled l3; Rerender]).
    { etransitivity; [exact (perform_cons p2 p3 _ _ R1) |].
      exact (perform_cons p3 p4 _ _ R2). }
    assert (Hout : count_outcomes c2 [l1; l2; l3; l3] = count_outcomes c4 [l3; l3]).
    { etransitivity;
        [exact (count_outcomes_cons c2 c3 l1 [l2; l3; l3] 0 S1 (js_sharp_outcome c2 0)) |].
      exact (count_outcomes_cons c3 c4 l2 [l3; l3] 0 S2 (js_sharp_outcome c3 1)). }
    assert (Hacc : accepted p2 [Handled l1; Handled l2; Handled l3; Rerender;
                                Handled l3; Rerender]
                   = accepted p4 [Handled l3; Rerender; Handled l3; Rerender]).
    { etransitivity;
        [exact (accepted_cons p2 p3 l1 [Handled l2; Handled l3; Rerender; Handled l3;
                                        Rerender] false R1 eq_refl) |].
      exact (accepted_cons p3 p4 l2 [Handled l3; Rerender; Handled l3; Rerender]
               false R2 eq_refl). }
    assert (Happ : appearances p2 [Handled l1; Handled l2; Handled l3; Rerender;
                                   Handled l3; Rerender]
                   = appearances p4 [Handled l3; Rerender; Handled l3; Rerender]).
    { etransitivity;
        [exact (appearances_cons p2 p3 (Handled l1)
                  [Handled l2; Handled l3; Rerender; Handled l3; Rerender]
                  false R1 eq_refl) |].
      exact (appearances_cons p3 p4 (Handled l2)
               [Handled l3; Rerender; Handled l3; Rerender] false R2 eq_refl). }
    unfold loads, followed. rewrite H2.
    change (SharpnessLoaded 0 frame sharp) with l1.
    change (SharpnessLoaded 1 frame sharp) with l2.
    change (ResizeLoaded 0 frame true) with l3.
    rewrite Hrun, Hacc, Happ. change (component p2) with c2. rewrite Hout.
    split; [reflexivity |]. split; [reflexivity |]. split; [reflexivity |].
    split; [reflexivity |]. split; [reflexivity |]. split; [reflexivity |].
    split; reflexivity.
Qed.


Lemma capture_gate_witness :
  perform (just_rendered (@initial JS.number))
          [Handled (Click (Some still)); Rerender; Handled (Click (Some still))]
  = perform (just_rendered (@initial JS.number)) [Handled (Click (Some still)); Rerender].
Proof.
  destruct capture_gate as [Hall _]. destruct (Hall JS.number) as (_ & Hpaced & _).
  pose proof (Hpaced []) as H. cbv zeta in H. destruct H as (_ & _ & Hsecond).
  refine (proj1 (Hsecond (Some still) (Some still) _)). vm_compute. discriminate.
Defined.


(** ** Upload handler *)

Module UploadFacts.
Import Upload.

Lemma allowed_lookup (t : string) :
  ALLOWED_TYPES !! t
  = if decide (t = "image/png") then Some ".png"
    else if decide (t = "image/jpeg") then Some ".jpg"
    else if decide (t = "image/webp") then Some ".webp"
    else None.
Proof.
  unfold ALLOWED_TYPES.
  destruct (decide (t = "image/png")) as [-> | H1]; [reflexivity |].
  destruct (decide (t = "image/jpeg")) as [-> | H2]; [reflexivity |].
  destruct (decide (t = "image/webp")) as [-> | H3]; [reflexivity |].
  rewrite !lookup_insert_ne by congruence. apply lookup_singleton_ne. congruence.
Qed.

(** What the handler does on the three allowed types, on an oversized file,
    and on a type that names no property of [ALLOWED_TYPES], own or
    inherited. *)
Theorem POST_validation :
  forall (env : Env) (disk : Disk) (file : File),
    formData env = inr (Some (EntryFile file)) ->
    (forall ext,
       ALLOWED_TYPES !! file_type file = Some ext ->
       file_size file <= 10 * 1024 * 1024 ->
       mkdir_throws env = None -> writeFile_throws env = None ->
       fst (POST env disk)
       = {| status := 201;
            body := Success (uuidv4 env +:+ ext) ("/uploads/" +:+ uuidv4 env +:+ ext)
                            (file_size file) (file_type file) |}
       /\ files (snd (POST env disk)) !! stored_path env ext = Some (file_bytes file))
    /\
    (ALLOWED_TYPES !! file_type file = None ->
     Object_prototype !! file_type file = None ->
     status (fst (POST env disk)) = 400 /\ snd (POST env disk) = disk)
    /\
    (forall ext,
       ALLOWED_TYPES !! file_type file = Some ext ->
       10 * 1024 * 1024 < file_size file ->
       status (fst (POST env disk)) = 400 /\ snd (POST env disk) = disk).
Proof.
  intros env disk file Hform. unfold POST. rewrite Hform. unfold get_property.
  split; [| split].
  - intros ext Hext Hsize Hmk Hwr. rewrite Hext.
    assert (Hne : ext <> "").
    { rewrite allowed_lookup in Hext.
      repeat destruct (decide _); congruence. }
    simpl. destruct (decide (ext = "")); [contradiction |].
    destruct (Z.gtb_spec (file_size file) MAX_FILE_SIZE) as [Hgt | _];
      [unfold MAX_FILE_SIZE in Hgt; lia |].
    rewrite Hmk, Hwr. simpl. split; [reflexivity |].
    unfold stored_path. apply lookup_insert_eq.
  - intros Hown Hproto. rewrite Hown, Hproto. simpl. auto.
  - intros ext Hext Hsize. rewrite Hext.
    assert (Hne : ext <> "").
    { rewrite allowed_lookup in Hext.
      repeat destruct (decide _); congruence. }
    simpl. destruct (decide (ext = "")); [contradiction |].
    destruct (Z.gtb_spec (file_size file) MAX_FILE_SIZE) as [_ | Hle];
      [simpl; auto | unfold MAX_FILE_SIZE in Hle; lia].
Qed.

Lemma POST_validation_witness :
  status (fst (POST (request {| file_type := "image/png"; file_size := 3;
                               file_bytes := [137; 80; 78] |}) empty_disk)) = 201.
Proof.
  pose proof (POST_validation
                (request {| file_type := "image/png"; file_size := 3;
                            file_bytes := [137; 80; 78] |})
                empty_disk _ eq_refl) as (Hok & _).
  destruct (Hok ".png" eq_refl ltac:(simpl; lia) eq_refl eq_refl) as [-> _].
  reflexivity.
Defined.

(** C9 fails on the code.  A file whose MIME type is [constructor], one byte
    long, is not one of the three allowed types, yet the handler answers 201
    and writes it: [ALLOWED_TYPES["constructor"]] is the inherited [Object]
    function, which is not falsy. *)
Theorem POST_accepts_inherited_name :
  let file := {| file_type := "constructor"; file_size := 1; file_bytes := [0] |} in
  let name := "3f2b8c1e-5d4a-4e6f-9a7b-0c1d2e3f4a5bfunction Object() { [native code] }" in
  ALLOWED_TYPES !! file_type file = None
  /\ file_size file <= MAX_FILE_SIZE
  /\ fst (POST (request file) empty_disk)
     = {| status := 201;
          body := Success name ("/uploads/" +:+ name) 1 "constructor" |}
  /\ files (snd (POST (request file) empty_disk)) !! ("/app/public/uploads/" +:+ name)
     = Some [0].
Proof.
  intros file name. split; [reflexivity |]. split; [vm_compute; discriminate |].
  split; [reflexivity |]. vm_compute. reflexivity.
Qed.

End UploadFacts.


(** * Further properties *)

(** ** Brightness of gray frames *)

Lemma js_gray_levels : forallb gray_level_ok (range 0 256) = true.
Proof. vm_compute. reflexivity. Qed.

Lemma js_gray_level (v : Z) :
  0 <= v <= 255 ->
  PrimFloat.ltb (gray_brightness v) (JS.of_Z 25) = (v <? 25)
  /\ PrimFloat.ltb (gray_brightness v) (JS.of_Z 80) = (v <? 80).
Proof.
  intros Hv. pose proof js_gray_levels as H.
  rewrite forallb_forall in H. specialize (H v).
  assert (Hin : In v (range 0 256)) by (apply in_range; lia).
  apply H in Hin. unfold gray_level_ok in Hin.
  apply andb_prop in Hin as [H1 H2]. split; apply eqb_prop; assumption.
Qed.

Lemma gray_tick (v : Z) (data : ImageData) (c : @Controller JS.number) :
  image_data sampleW sampleH data -> uniform_rgb v v v data ->
  capturedImage (ui c) = None ->
  step c (Tick true (Some data)) = with_ui (setBrightness (N := JS.number) (gray_brightness v)) c.
Proof.
  intros Hdata Hu Hcap. cbn [step]. rewrite Hcap.
  rewrite (brightness_uniform _ _ _ data Hdata Hu). reflexivity.
Qed.

(** A 64 x 48 frame of one gray level [v], sampled in binary64: it is too
    dark exactly when [v < 25], the status is dim for [25 <= v < 80] and
    ready from 80 on, and a capture press on a too dark frame is ignored. *)
Theorem gray_frame_status :
  forall (v : Z) (data : ImageData) (c : @Controller JS.number),
    0 <= v <= 255 ->
    image_data sampleW sampleH data -> uniform_rgb v v v data ->
    capturedImage (ui c) = None ->
    let c' := step c (Tick true (Some data)) in
    tooDark (ui c') = (v <? 25)
    /\ statusLabel (ui c') = (if v <? 25 then LowLight else if v <? 80 then Dim else Ready)
    /\ (v < 25 -> forall shot, step c' (Click shot) = c').
Proof.
  intros v data c Hv Hdata Hu Hcap c'. subst c'.
  rewrite (gray_tick v data c Hdata Hu Hcap).
  destruct (js_gray_level v Hv) as [H25 H80].
  assert (Hdark : tooDark (ui (with_ui (setBrightness (N := JS.number) (gray_brightness v)) c)) = (v <? 25))
    by exact H25.
  split; [exact Hdark |]. split.
  - unfold statusLabel. rewrite Hdark. destruct (v <? 25); [reflexivity |].
    change (brightness (ui (with_ui (setBrightness (N := JS.number) (gray_brightness v)) c)))
      with (gray_brightness v).
    change (@nlt JS.number (gray_brightness v) (of_int 80))
      with (PrimFloat.ltb (gray_brightness v) (JS.of_Z 80)).
    rewrite H80. destruct (v <? 80); reflexivity.
  - intros Hlt shot. apply click_blocked. left. rewrite Hdark. apply Z.ltb_lt, Hlt.
Qed.

Lemma gray_frame_status_witness :
  statusLabel (ui (step (@initial JS.number) (Tick true (Some (solid 3072 25 25 25 255)))))
  = Dim.
Proof.
  destruct (gray_frame_status 25 (solid 3072 25 25 25 255) initial) as (_ & H & _).
  - lia.
  - apply (solid_image_data 64 48); lia.
  - apply solid_uniform.
  - reflexivity.
  - exact H.
Defined.


(** ** Brightness in exact arithmetic *)

Lemma exact_luminance (r g b : Z) :
  @luminance Exact.number r g b = Q2Qc ((299 * r + 587 * g + 114 * b) # 1000).
Proof.
  apply Qc_is_canon. unfold luminance, dec.
  cbn [nadd nmul ndiv of_int Exact.number].
  unfold Qcdiv, Qcmult, Qcplus, Qcinv. cbn [this Q2Qc].
  rewrite !Qred_correct.
  unfold Qeq, Qplus, Qmult, Qinv, inject_Z. cbn [Qnum Qden]. cbn. lia.
Qed.

Lemma exact_luminance_range (r g b : Z) :
  0 <= r <= 255 -> 0 <= g <= 255 -> 0 <= b <= 255 ->
  (0 <= @luminance Exact.number r g b <= Q2Qc 255)%Qc.
Proof.
  intros Hr Hg Hb. rewrite exact_luminance. unfold Qcle. cbn [this Q2Qc].
  rewrite !Qred_correct. unfold Qle. cbn [Qnum Qden]. lia.
Qed.

Lemma exact_add_bounds (t l : Qc) (k : Z) :
  (0 <= t <= Q2Qc (inject_Z (255 * k)))%Qc -> (0 <= l <= Q2Qc 255)%Qc ->
  (0 <= @nadd Exact.number t l <= Q2Qc (inject_Z (255 * (k + 1))))%Qc.
Proof.
  cbn [nadd Exact.number]. unfold Qcle, Qcplus. cbn [this Q2Qc].
  rewrite !Qred_correct. intros [Ht0 Ht] [Hl0 Hl].
  assert (E : (inject_Z (255 * (k + 1)) == inject_Z (255 * k) + 255)%Q).
  { unfold Qeq, Qplus, inject_Z. cbn [Qnum Qden]. lia. }
  rewrite E. split.
  - apply (Qplus_le_compat 0 t 0 l); assumption.
  - apply Qplus_le_compat; assumption.
Qed.

Lemma exact_sum_luminance_range (data : ImageData) (n : Z) :
  image_data 1 n data ->
  forall (fuel : nat) (k : Z) (t : Qc),
    0 <= k <= n -> (0 <= t <= Q2Qc (inject_Z (255 * k)))%Qc ->
    (0 <= @sum_luminance Exact.number fuel data (4 * k) t
       <= Q2Qc (inject_Z (255 * n)))%Qc.
Proof.
  intros Hdata. assert (Hlen : Z.of_nat (length data) = 4 * 1 * n) by apply Hdata.
  induction fuel as [| fuel IH]; intros k t Hk Ht; simpl.
  - destruct Ht as [Ht0 Ht]. split; [exact Ht0 |].
    eapply Qcle_trans; [exact Ht |]. unfold Qcle. cbn [this Q2Qc].
    rewrite !Qred_correct. rewrite <- Zle_Qle. lia.
  - destruct (Z.ltb_spec (4 * k) (Z.of_nat (length data))) as [Hlt | Hge].
    + replace (4 * k + 4) with (4 * (k + 1)) by lia. apply IH; [lia |].
      apply exact_add_bounds; [exact Ht |].
      apply exact_luminance_range; apply (image_data_byte 1 n data _ Hdata); lia.
    + destruct Ht as [Ht0 Ht]. split; [exact Ht0 |].
      eapply Qcle_trans; [exact Ht |]. unfold Qcle. cbn [this Q2Qc].
      rewrite !Qred_correct. rewrite <- Zle_Qle. lia.
Qed.

Lemma exact_add_times (n : nat) (l t : Qc) :
  @add_times Exact.number n l t = (t + Q2Qc (inject_Z (Z.of_nat n)) * l)%Qc.
Proof.
  revert t. induction n as [| n IH]; intros t.
  - cbn [add_times]. change (Q2Qc (inject_Z (Z.of_nat 0))) with 0%Qc.
    change (@num Exact.number) with Qc. ring.
  - cbn [add_times]. rewrite IH. cbn [nadd Exact.number].
    change (@num Exact.number) with Qc.
    replace (Q2Qc (inject_Z (Z.of_nat (S n))))
      with (Q2Qc (inject_Z (Z.of_nat n)) + 1)%Qc; [ring |].
    apply Qc_is_canon. unfold Qcplus. cbn [this Q2Qc]. rewrite !Qred_correct.
    unfold Qeq, Qplus, inject_Z. cbn [Qnum Qden]. lia.
Qed.

(** The brightness of a sampled 64 x 48 frame, read in exact arithmetic, lies
    between 0 and 255, and for a frame of one colour it is the luminance
    [(299 R + 587 G + 114 B) / 1000] of that colour. *)
Theorem exact_brightness_range :
  forall data : ImageData,
    image_data sampleW sampleH data ->
    (0 <= getAverageBrightness (N := Exact.number) (Some data) <= Q2Qc 255)%Qc
    /\ forall r g b : Z,
         uniform_rgb r g b data ->
         getAverageBrightness (N := Exact.number) (Some data)
         = Q2Qc ((299 * r + 587 * g + 114 * b) # 1000).
Proof.
  intros data Hdata. split.
  - assert (Hd : image_data 1 3072 data).
    { destruct Hdata as [Hlen Hall]. split; [exact Hlen | exact Hall]. }
    pose proof (exact_sum_luminance_range data 3072 Hd (length data) 0
                  (@of_int Exact.number 0) ltac:(lia)) as H.
    change (4 * 0) with 0 in H.
    destruct H as [H0 H1].
    { split; unfold Qcle; cbn; discriminate. }
    unfold getAverageBrightness. change (sampleW * sampleH) with 3072.
    set (t := sum_luminance _ _ _ _) in *. clearbody t.
    cbn [ndiv of_int Exact.number]. unfold Qcle in *. unfold Qcdiv, Qcmult, Qcinv.
    cbn [this Q2Qc] in *. rewrite !Qred_correct in *.
    destruct t as [[tn td] Ht]. cbn [this] in *.
    unfold Qle, Qmult, Qinv, inject_Z in *. cbn [Qnum Qden] in *. cbn in *. split; nia.
  - intros r g b Hu. rewrite (brightness_uniform r g b data Hdata Hu).
    rewrite exact_add_times, exact_luminance. cbn [ndiv of_int Exact.number].
    apply Qc_is_canon. unfold Qcdiv, Qcmult, Qcplus, Qcinv. cbn [this Q2Qc].
    rewrite !Qred_correct. unfold Qeq, Qplus, Qmult, Qinv, inject_Z.
    cbn [Qnum Qden]. cbn. lia.
Qed.

Lemma exact_brightness_range_witness :
  getAverageBrightness (N := Exact.number) (Some (solid 3072 200 100 50 255))
  = Q2Qc ((299 * 200 + 587 * 100 + 114 * 50) # 1000).
Proof.
  apply (exact_brightness_range (solid 3072 200 100 50 255)).
  - apply (solid_image_data 64 48); lia.
  - apply solid_uniform.
Defined.


(** ** Images without interior pixels *)

(** With fewer than three rows no kernel response is computed. *)
Lemma convolve_no_rows `{N : Number} (h : Z) (gray : list num) :
  h <= 2 ->
  convolve 160 h gray = {| acc_sum := of_int 0; acc_sumSq := of_int 0; acc_count := 0 |}.
Proof.
  intros Hh. unfold convolve, for_loop.
  replace (Z.to_nat (h - 1 - 1)) with 0%nat by lia. reflexivity.
Qed.

(** An image so wide that its 160-pixel copy has one or two rows has no
    interior pixel: the sharpness is [0/0 - (0/0)*(0/0)], which in binary64 is
    NaN; [NaN < 5] is false, so the still is not turned down as blurry and goes
    on to the normaliser.  With no row at all [getImageData] throws and the
    promise never settles. *)
Theorem thin_image_sharpness :
  forall (img : Image) (ctx : Z -> Z -> option ImageData) (data : ImageData) (h : Z),
    h = @round JS.number
          (of_int (img_height img) / of_int (img_width img) * of_int 160)%num ->
    ctx 160 h = Some data ->
    (h <= 0 -> getLaplacianVariance (N := JS.number) (Loaded img) ctx = Pending)
    /\
    (1 <= h <= 2 ->
     getLaplacianVariance (N := JS.number) (Loaded img) ctx = Resolved nan
     /\ (@nlt JS.number nan (of_int BLUR_THRESHOLD)) = false
     /\ forall (c : @Controller JS.number) (src : string),
          inflight c = [AwaitVariance src] ->
          step c (SharpnessLoaded 0 (Loaded img) ctx)
          = {| ui := ui c; inflight := [AwaitResize src]; timers := timers c |}).
Proof.
  intros img ctx data h Hh Hctx.
  assert (Hget : getLaplacianVariance (N := JS.number) (Loaded img) ctx
                 = if h <=? 0 then Pending
                   else Resolved (laplacianVariance 160 h data)).
  { unfold getLaplacianVariance. cbv zeta. rewrite <- Hh, Hctx. reflexivity. }
  split.
  - intros H0. rewrite Hget. destruct (Z.leb_spec h 0); [reflexivity | lia].
  - intros H12.
    assert (Hnan : laplacianVariance (N := JS.number) 160 h data = nan).
    { unfold laplacianVariance. rewrite convolve_no_rows by lia. reflexivity. }
    assert (Hres : getLaplacianVariance (N := JS.number) (Loaded img) ctx = Resolved nan).
    { rewrite Hget, Hnan. destruct (Z.leb_spec h 0); [lia | reflexivity]. }
    split; [exact Hres |]. split; [reflexivity |].
    intros c src Hin. cbn [step]. rewrite Hin. cbn [lookup list_lookup].
    rewrite Hres. unfold resume_variance.
    change (@nlt JS.number nan (of_int BLUR_THRESHOLD)) with false.
    cbv iota. rewrite Hin. reflexivity.
Qed.

Lemma thin_image_sharpness_witness :
  getLaplacianVariance (N := JS.number)
    (Loaded {| img_width := 1920; img_height := 20 |})
    (fun w h => Some (checkerboard w h)) = Resolved nan.
Proof.
  refine (proj1 (proj2 (thin_image_sharpness
                   {| img_width := 1920; img_height := 20 |}
                   (fun w h => Some (checkerboard w h)) (checkerboard 160 2) 2 _ _) _)).
  - vm_compute. reflexivity.
  - reflexivity.
  - lia.
Defined.


(** ** The alpha channel *)

Section Alpha.

Context `{N : Number}.

Lemma sum_luminance_same_rgb (data data' : ImageData) :
  same_rgb data data' ->
  forall (fuel : nat) (k : Z) (total : num),
    0 <= k ->
    sum_luminance fuel data (4 * k) total = sum_luminance fuel data' (4 * k) total.
Proof.
  intros [Hlen Hsame]. induction fuel as [| fuel IH]; intros k total Hk; [reflexivity |].
  cbn [sum_luminance]. rewrite <- Hlen.
  destruct (4 * k <? Z.of_nat (length data)); [| reflexivity].
  rewrite <- (Hsame (4 * k)), <- (Hsame (4 * k + 1)), <- (Hsame (4 * k + 2));
    try lia.
  - replace (4 * k + 4) with (4 * (k + 1)) by lia. apply IH. lia.
  - rewrite Z.add_comm, Z.mul_comm, Z.mod_add by lia. discriminate.
  - rewrite Z.add_comm, Z.mul_comm, Z.mod_add by lia. discriminate.
  - rewrite Z.mul_comm, Z.mod_mul by lia. discriminate.
Qed.

Lemma grayscale_same_rgb (data data' : ImageData) (n : Z) :
  same_rgb data data' -> grayscale n data = grayscale n data'.
Proof.
  intros [_ Hsame]. unfold grayscale. apply map_ext_in. intros i Hi.
  apply in_map_iff in Hi as (m & <- & _). cbv zeta.
  rewrite <- (Hsame (Z.of_nat m * 4)), <- (Hsame (Z.of_nat m * 4 + 1)),
    <- (Hsame (Z.of_nat m * 4 + 2)); try lia; [reflexivity | ..].
  - rewrite Z.add_comm, Z.mod_add by lia. discriminate.
  - rewrite Z.add_comm, Z.mod_add by lia. discriminate.
  - rewrite Z.mod_mul by lia. discriminate.
Qed.

End Alpha.

(** Transparency does not count.  Two frames that differ only in their
    alpha samples have the same brightness and the same sharpness, in any
    arithmetic, and so meet the same verdict of the capture button. *)
Theorem alpha_is_ignored :
  forall (N : Number) (data data' : ImageData),
    same_rgb data data' ->
    getAverageBrightness (Some data) = getAverageBrightness (Some data')
    /\ (forall w h : Z, laplacianVariance w h data = laplacianVariance w h data')
    /\ (forall (c : Controller) (i : nat) (img : LoadResult),
          step c (Tick true (Some data)) = step c (Tick true (Some data'))
          /\ step c (SharpnessLoaded i img (fun _ _ => Some data))
             = step c (SharpnessLoaded i img (fun _ _ => Some data'))).
Proof.
  intros N data data' Hsame.
  assert (Hb : getAverageBrightness (Some data) = getAverageBrightness (Some data')).
  { unfold getAverageBrightness. destruct Hsame as [Hlen Hs]. rewrite <- Hlen.
    f_equal. change 0 with (4 * 0) at 1 3.
    apply sum_luminance_same_rgb; [split; assumption | lia]. }
  assert (Hv : forall w h : Z, laplacianVariance w h data = laplacianVariance w h data').
  { intros w h. unfold laplacianVariance. rewrite (grayscale_same_rgb data data' _ Hsame).
    reflexivity. }
  split; [exact Hb |]. split; [exact Hv |].
  intros c i img. split.
  - cbn [step]. rewrite Hb. reflexivity.
  - cbn [step]. destruct (inflight c !! i) as [[src | src | src] |]; try reflexivity.
    f_equal. unfold getLaplacianVariance. destruct img as [img |]; [| reflexivity].
    cbv zeta. rewrite Hv. reflexivity.
Qed.

Lemma alpha_is_ignored_witness :
  getAverageBrightness (N := JS.number) (Some [200; 100; 50; 255])
  = getAverageBrightness (N := JS.number) (Some [200; 100; 50; 0]).
Proof.
  apply (alpha_is_ignored JS.number [200; 100; 50; 255] [200; 100; 50; 0]).
  split; [reflexivity |]. intros i Hi Hmod. unfold sample.
  destruct (Z.to_nat i) as [| [| [| [| n]]]] eqn:E; try reflexivity.
  replace i with 3 in Hmod by lia. contradiction Hmod. reflexivity.
Defined.


(** ** The crop in exact arithmetic *)

Lemma exact_crop_wide (w h : Z) :
  0 < w -> 0 < h -> 1024 * h < 585 * w ->
  crop_rect (N := Exact.number) {| img_width := w; img_height := h |}
  = @Build_Crop Exact.number
      (Q2Qc ((585 * w - 1024 * h) # 1170)) 0%Qc (Q2Qc ((1024 * h) # 585)) (Q2Qc (inject_Z h)).
Proof.
  intros Hw Hh Hwide. unfold crop_rect. cbn [img_width img_height].
  destruct (exact_wider_iff w h Hw Hh) as [_ Hif].
  rewrite (Hif Hwide). 
  apply exact_crop_eq; cbn [sx sy sw sh nsub nmul ndiv of_int Exact.number];
    unfold Qcdiv, Qcmult, Qcminus, Qcplus, Qcopp, Qcinv, OUTPUT_W, OUTPUT_H;
    cbn [this Q2Qc]; rewrite !Qred_correct;
    unfold Qeq, Qplus, Qmult, Qinv, Qopp, inject_Z; cbn [Qnum Qden]; cbn;
    rewrite ?Pos2Z.inj_mul; lia.
Qed.

Lemma exact_crop_tall (w h : Z) :
  0 < w -> 0 < h -> 585 * w <= 1024 * h ->
  crop_rect (N := Exact.number) {| img_width := w; img_height := h |}
  = @Build_Crop Exact.number
      0%Qc (Q2Qc ((1024 * h - 585 * w) # 2048)) (Q2Qc (inject_Z w)) (Q2Qc ((585 * w) # 1024)).
Proof.
  intros Hw Hh Htall. unfold crop_rect. cbn [img_width img_height].
  destruct (nlt _ _) eqn:E.
  { apply (exact_wider_iff w h Hw Hh) in E. unfold OUTPUT_W, OUTPUT_H in E. lia. }
  apply exact_crop_eq; cbn [sx sy sw sh nsub nmul ndiv of_int Exact.number];
    unfold Qcdiv, Qcmult, Qcminus, Qcplus, Qcopp, Qcinv, OUTPUT_W, OUTPUT_H;
    cbn [this Q2Qc]; rewrite !Qred_correct;
    unfold Qeq, Qplus, Qmult, Qinv, Qopp, inject_Z; cbn [Qnum Qden]; cbn;
    change (1024 * 1) with 1024; cbn [Qnum Qden];
    rewrite ?Pos2Z.inj_mul; lia.
Qed.

Lemma exact_of_int_nonzero (z : Z) : z <> 0 -> @of_int Exact.number z <> 0%Qc.
Proof.
  intros Hz E. apply (f_equal this) in E. cbn [of_int Exact.number this Q2Qc] in E.
  assert (Hq : (Qred (inject_Z z) == 0)%Q) by (rewrite E; reflexivity).
  rewrite Qred_correct in Hq. unfold Qeq, inject_Z in Hq. cbn [Qnum Qden] in Hq. lia.
Qed.

Lemma exact_uniform_scale (img : Image) :
  0 < img_width img -> 0 < img_height img ->
  let c := crop_rect (N := Exact.number) img in
  @ndiv Exact.number (of_int 1024) (sw c) = @ndiv Exact.number (of_int 585) (sh c).
Proof.
  intros Hw Hh c. subst c. unfold crop_rect, OUTPUT_W, OUTPUT_H.
  pose proof (exact_of_int_nonzero 1024 ltac:(lia)) as H1.
  pose proof (exact_of_int_nonzero 585 ltac:(lia)) as H2.
  pose proof (exact_of_int_nonzero (img_width img) ltac:(lia)) as H3.
  pose proof (exact_of_int_nonzero (img_height img) ltac:(lia)) as H4.
  destruct (nlt _ _); cbn [sw sh ndiv nmul Exact.number] in *;
    change (@num Exact.number) with Qc in *; field; auto.
Qed.

(** The crop rectangle, read in exact arithmetic, lies inside the source
    image, spans its full width or its full height, and has the aspect ratio
    1024 : 585 exactly, so the frame is drawn with the same scale factor in
    both directions: it is neither stretched nor letterboxed. *)
Theorem exact_crop_inside_source :
  forall img : Image,
    0 < img_width img -> 0 < img_height img ->
    let c := crop_rect (N := Exact.number) img in
    let W : Qc := @of_int Exact.number (img_width img) in
    let H : Qc := @of_int Exact.number (img_height img) in
    (0 <= sx c /\ 0 <= sy c /\ 0 < sw c /\ 0 < sh c
     /\ sx c + sw c <= W /\ sy c + sh c <= H)%Qc
    /\ (sw c = W \/ sh c = H)
    /\ (sw c * Q2Qc 585 = sh c * Q2Qc 1024)%Qc
    /\ forall a : @Artifact Exact.number,
         resizeImage (Loaded img) true = Resolved a -> scale_x a = scale_y a.
Proof.
  intros [w h] Hw Hh c W H. cbn [img_width img_height] in *.
  split; [| split; [| split]].
  - subst c W H. destruct (Z.lt_ge_cases (1024 * h) (585 * w)) as [Hwide | Htall].
    + rewrite (exact_crop_wide w h Hw Hh Hwide). cbn [sx sy sw sh of_int Exact.number].
      unfold Qcle, Qclt, Qcplus. cbn [this Q2Qc]. rewrite !Qred_correct.
      unfold Qle, Qlt, Qplus, inject_Z. cbn [Qnum Qden].
      rewrite ?Pos2Z.inj_mul. repeat split; lia.
    + rewrite (exact_crop_tall w h Hw Hh Htall). cbn [sx sy sw sh of_int Exact.number].
      unfold Qcle, Qclt, Qcplus. cbn [this Q2Qc]. rewrite !Qred_correct.
      unfold Qle, Qlt, Qplus, inject_Z. cbn [Qnum Qden].
      rewrite ?Pos2Z.inj_mul. repeat split; lia.
  - subst c W H. destruct (Z.lt_ge_cases (1024 * h) (585 * w)) as [Hwide | Htall].
    + right. rewrite (exact_crop_wide w h Hw Hh Hwide). reflexivity.
    + left. rewrite (exact_crop_tall w h Hw Hh Htall). reflexivity.
  - subst c W H. destruct (Z.lt_ge_cases (1024 * h) (585 * w)) as [Hwide | Htall].
    + rewrite (exact_crop_wide w h Hw Hh Hwide). cbn [sw sh]. apply Qc_is_canon.
      unfold Qcmult. cbn [this Q2Qc]. rewrite !Qred_correct.
      unfold Qeq, Qmult, inject_Z. cbn [Qnum Qden]. rewrite ?Pos2Z.inj_mul. lia.
    + rewrite (exact_crop_tall w h Hw Hh Htall). cbn [sw sh]. apply Qc_is_canon.
      unfold Qcmult. cbn [this Q2Qc]. rewrite !Qred_correct.
      unfold Qeq, Qmult, inject_Z. cbn [Qnum Qden]. rewrite ?Pos2Z.inj_mul. lia.
  - intros a Ha. cbn in Ha. injection Ha as <-. unfold scale_x, scale_y.
    cbn [dest source]. unfold OUTPUT_W, OUTPUT_H.
    apply (exact_uniform_scale {| img_width := w; img_height := h |}); assumption.
Qed.

Lemma exact_crop_inside_source_witness :
  let c := crop_rect (N := Exact.number) {| img_width := 1080; img_height := 1920 |} in
  (sw c * Q2Qc 585 = sh c * Q2Qc 1024)%Qc.
Proof.
  intros c.
  apply (exact_crop_inside_source {| img_width := 1080; img_height := 1920 |});
    simpl; lia.
Defined.


(** ** The range of the sharpness in exact arithmetic *)

Lemma sumQ_square_dist (l : list Q) (a : Q) :
  (sumQ (map (fun y => (y - a) * (y - a)) l)
   == sumQ (map (fun y => y * y) l) - 2 * a * sumQ l
      + inject_Z (Z.of_nat (length l)) * (a * a))%Q.
Proof.
  induction l as [| y l IH].
  - cbn. ring.
  - cbn [map sumQ length]. rewrite IH, Nat2Z.inj_succ. unfold Z.succ.
    rewrite inject_Z_plus. ring.
Qed.

Lemma sumQ_squares_nonneg (f : Q -> Q) (l : list Q) :
  (0 <= sumQ (map (fun y => f y * f y) l))%Q.
Proof.
  induction l as [| y l IH]; cbn [map sumQ]; [apply Qle_refl |].
  assert (Hsq : (0 <= f y * f y)%Q) by nra.
  apply (Qplus_le_compat 0 _ 0 _); assumption.
Qed.

(** The square of the sum is at most the count times the sum of squares. *)
Lemma sumQ_cauchy (l : list Q) :
  (sumQ l * sumQ l
   <= inject_Z (Z.of_nat (length l)) * sumQ (map (fun y => y * y) l))%Q.
Proof.
  induction l as [| a l IH].
  - cbn. apply Qle_refl.
  - cbn [map sumQ length]. rewrite Nat2Z.inj_succ. unfold Z.succ. rewrite inject_Z_plus.
    pose proof (sumQ_squares_nonneg (fun y => y - a)%Q l) as Hd.
    cbv beta in Hd. rewrite sumQ_square_dist in Hd.
    set (S := sumQ l) in *. set (T := sumQ (map (fun y => y * y)%Q l)) in *.
    set (n := inject_Z (Z.of_nat (length l))) in *.
    change (inject_Z 1) with 1%Q. nra.
Qed.

Lemma sumQ_bound (l : list Q) (b : Q) :
  (forall x, In x l -> 0 <= x <= b)%Q ->
  (0 <= sumQ l <= inject_Z (Z.of_nat (length l)) * b)%Q.
Proof.
  induction l as [| x l IH]; intros H.
  - cbn. split; [apply Qle_refl |]. rewrite Qmult_0_l. apply Qle_refl.
  - cbn [sumQ length]. rewrite Nat2Z.inj_succ. unfold Z.succ. rewrite inject_Z_plus.
    destruct (H x (or_introl eq_refl)) as [Hx0 Hxb].
    destruct IH as [Hl0 Hlb]; [intros y Hy; apply H; right; exact Hy |].
    change (inject_Z 1) with 1%Q. split; nra.
Qed.

Lemma this_total (xs : list Qc) (a : Qc) :
  (this (fold_left Qcplus xs a) == this a + sumQ (map this xs))%Q.
Proof.
  revert a. induction xs as [| x xs IH]; intros a; cbn [fold_left map sumQ].
  - ring.
  - rewrite IH. unfold Qcplus. cbn [this Q2Qc]. rewrite Qred_correct. ring.
Qed.

Lemma sumQ_squares_this (xs : list Qc) :
  (sumQ (map this (map (fun r => @nmul Exact.number r r) xs))
   == sumQ (map (fun y => y * y) (map this xs)))%Q.
Proof.
  induction xs as [| x xs IH]; cbn [map sumQ]; [reflexivity |].
  rewrite IH. cbn [nmul Exact.number]. unfold Qcmult. cbn [this Q2Qc].
  rewrite Qred_correct. reflexivity.
Qed.

(** The variance of values between [-M] and [M] lies between 0 and [M^2]. *)
Lemma exact_variance_range (xs : list Qc) (M : Q) :
  xs <> [] ->
  (forall x, In x xs -> - M <= this x <= M)%Q ->
  (0 <= this (@variance_spec Exact.number xs) <= M * M)%Q.
Proof.
  intros Hne Hbound.
  set (n := inject_Z (Z.of_nat (length xs))).
  set (S := sumQ (map this xs)).
  set (T := sumQ (map (fun y => y * y)%Q (map this xs))).
  assert (Hn : (0 < n)%Q).
  { unfold n. rewrite <- (Zlt_Qlt 0). destruct xs; [contradiction | cbn [length]; lia]. }
  assert (Hcs : (S * S <= n * T)%Q).
  { unfold S, T, n. rewrite <- (length_map this xs). apply sumQ_cauchy. }
  assert (HT : (0 <= T <= n * (M * M))%Q).
  { unfold T, n. rewrite <- (length_map this xs), <- (length_map (fun y => y * y)%Q).
    apply sumQ_bound. intros y Hy. apply in_map_iff in Hy as (z & <- & Hz).
    apply in_map_iff in Hz as (x & <- & Hx). destruct (Hbound x Hx). split; nra. }
  assert (E : (this (@variance_spec Exact.number xs)
               == (n * T - S * S) / (n * n))%Q).
  { unfold variance_spec, mean, total. rewrite length_map.
    cbn [nsub nmul ndiv of_int Exact.number].
    unfold Qcminus, Qcplus, Qcopp, Qcdiv, Qcmult, Qcinv. cbn [this Q2Qc].
    rewrite !Qred_correct, !this_total. cbn [this Q2Qc]. rewrite !Qred_correct.
    rewrite sumQ_squares_this. change (@num Exact.number) with Qc.
    fold n S T. change (inject_Z 0) with 0%Q.
    clearbody n S T. clear - Hn. field. lra. }
  rewrite E. split.
  - apply Qle_shift_div_l; [nra | nra].
  - apply Qle_shift_div_r; [nra | nra].
Qed.

Lemma exact_gray_range (w h : Z) (data : ImageData) (i : Z) :
  image_data w h data -> 0 <= i < w * h ->
  (0 <= this (@gray_at Exact.number (grayscale (w * h) data) i) <= 255)%Q.
Proof.
  intros Hdata Hi. assert (Hlen : Z.of_nat (length data) = 4 * w * h) by apply Hdata.
  rewrite gray_at_grayscale by exact Hi. cbn [fround Exact.number].
  destruct (exact_luminance_range (sample data (i * 4)) (sample data (i * 4 + 1))
              (sample data (i * 4 + 2))) as [H0 H1];
    try (apply (image_data_byte w h data _ Hdata); lia).
  unfold Qcle in H0, H1. cbn [this Q2Qc] in H0, H1. rewrite Qred_correct in H1.
  split; assumption.
Qed.

Lemma exact_response_range (w h : Z) (data : ImageData) (x y : Z) :
  image_data w h data -> 1 <= x <= w - 2 -> 1 <= y <= h - 2 ->
  (- (1020) <= this (@laplacian Exact.number w (grayscale (w * h) data) x y) <= 1020)%Q.
Proof.
  intros Hdata Hx Hy. unfold laplacian.
  pose proof (exact_gray_range w h data ((y - 1) * w + x) Hdata ltac:(nia)) as H1.
  pose proof (exact_gray_range w h data (y * w + (x - 1)) Hdata ltac:(nia)) as H2.
  pose proof (exact_gray_range w h data (y * w + x) Hdata ltac:(nia)) as H3.
  pose proof (exact_gray_range w h data (y * w + (x + 1)) Hdata ltac:(nia)) as H4.
  pose proof (exact_gray_range w h data ((y + 1) * w + x) Hdata ltac:(nia)) as H5.
  cbn [nadd nmul of_int Exact.number]. unfold Qcplus, Qcmult. cbn [this Q2Qc].
  rewrite !Qred_correct. change (inject_Z (-4)) with (-4 # 1)%Q.
  split; lra.
Qed.

(** The range of the sharpness.  Read in exact arithmetic, the sharpness of
    an image of at least 3 x 3 pixels lies between 0 and 1040400: every kernel
    response lies between -1020 and 1020, and the variance of such values is
    at most 1020 squared. *)
Theorem exact_sharpness_range :
  forall (w h : Z) (data : ImageData),
    3 <= w -> 3 <= h -> image_data w h data ->
    (forall x y, 1 <= x <= w - 2 -> 1 <= y <= h - 2 ->
       (Q2Qc (-1020) <= laplacian (N := Exact.number) w (grayscale (w * h) data) x y
        <= Q2Qc 1020)%Qc)
    /\ (0 <= laplacianVariance (N := Exact.number) w h data <= Q2Qc 1040400)%Qc.
Proof.
  intros w h data Hw Hh Hdata. split.
  - intros x y Hx Hy. unfold Qcle. cbn [this Q2Qc]. rewrite !Qred_correct.
    apply (exact_response_range w h data x y Hdata Hx Hy).
  - unfold laplacianVariance. rewrite variance_of_convolve.
    destruct (exact_variance_range
                (@responses Exact.number w h (grayscale (w * h) data)) 1020)
      as [H0 H1].
    + intros E. apply (f_equal (@length _)) in E. unfold responses in E.
      rewrite length_map in E.
      pose proof (length_interior w h ltac:(lia) ltac:(lia)). cbn [length] in E. nia.
    + intros r Hr. unfold responses in Hr. apply in_map_iff in Hr as ([x y] & <- & Hin).
      apply in_interior in Hin. cbn [fst snd].
      apply (exact_response_range w h data x y Hdata); lia.
    + unfold Qcle. cbn [this Q2Qc]. rewrite Qred_correct. split; [exact H0 |].
      eapply Qle_trans; [exact H1 |]. vm_compute. discriminate.
Qed.

Lemma exact_sharpness_range_witness :
  (0 <= laplacianVariance (N := Exact.number) 5 4 (solid (Z.to_nat (5 * 4)) 10 200 30 255)
   <= Q2Qc 1040400)%Qc.
Proof.
  apply (exact_sharpness_range 5 4 (solid (Z.to_nat (5 * 4)) 10 200 30 255));
    [lia | lia |].
  apply solid_image_data; lia.
Defined.


(** ** Invariants of the controller *)

Section ControllerInvariants.

Context `{N : Number}.

Lemma resizeImage_finished (img : LoadResult) (ctx : bool) (a : Artifact) :
  resizeImage img ctx = Resolved a -> finished a.
Proof.
  unfold resizeImage. destruct img as [img |]; [| discriminate].
  destruct ctx; simpl; [| discriminate]. intros [= <-]. repeat split.
Qed.

Lemma idle_has_no_call (c : Controller) :
  at_most_one c -> processing (ui c) = false -> inflight c = [].
Proof.
  intros [_ Hproc] Hidle. destruct (inflight c) as [| t l] eqn:E; [reflexivity |].
  rewrite Hproc in Hidle; discriminate.
Qed.

Ltac unchanged Hcalm :=
  match goal with
  | |- calm (step ?c ?e) =>
      replace (step c e) with c; [exact Hcalm | cbn [step]; now rewrite_by_eqs]
  end
with rewrite_by_eqs :=
  repeat match goal with
         | H : _ = _ |- _ => rewrite H
         end.

Lemma step_calm (c : Controller) (e : Event) : at_most_one c -> calm c -> calm (step c e).
Proof.
  intros [Hlen Hproc] Hcalm.
  destruct e as [ready ctx | shot | i img ctx | i img ctx | |].
  - destruct (capturedImage (ui c)) eqn:Hcap; [unchanged Hcalm |].
    destruct ready; [| unchanged Hcalm].
    destruct Hcalm as [Hrun Hprev]. unfold calm. cbn [step]. rewrite Hcap. cbn.
    rewrite Hcap. split; [intros Hne; destruct (Hrun Hne); auto | discriminate].
  - destruct (capturedImage (ui c)) eqn:Hcap; [unchanged Hcalm |].
    destruct (tooDark (ui c) || processing (ui c)) eqn:Hgate.
    { replace (step c (Click shot)) with c; [exact Hcalm |].
      cbn [step]. rewrite Hcap. unfold handleCapture. rewrite Hgate. reflexivity. }
    unfold calm. cbn [step]. rewrite Hcap. unfold handleCapture. rewrite Hgate.
    destruct (no_screenshot shot); cbn; rewrite Hcap; split; auto; discriminate.
  - destruct (inflight c !! i) as [[src | src | src] |] eqn:Hi; try unchanged Hcalm.
    destruct (short_list_lookup _ _ _ Hlen Hi) as [Hl ->].
    destruct Hcalm as [Hrun Hprev].
    destruct Hrun as [Hwarn Hcap]; [rewrite Hl; discriminate |].
    unfold calm. cbn [step]. rewrite Hi. unfold resume_variance.
    destruct (getLaplacianVariance img ctx) as [v | msg |];
      [destruct (nlt v _) |..]; cbn; rewrite ?Hl, ?Hcap; cbn;
      split; auto; try discriminate; intros Hne; contradiction.
  - destruct (inflight c !! i) as [[src | src | src] |] eqn:Hi; try unchanged Hcalm.
    destruct (short_list_lookup _ _ _ Hlen Hi) as [Hl ->].
    destruct Hcalm as [Hrun Hprev].
    destruct Hrun as [Hwarn Hcap]; [rewrite Hl; discriminate |].
    unfold calm. cbn [step]. rewrite Hi. unfold resume_resize.
    destruct (resizeImage img ctx) as [a | msg |] eqn:Ha;
      cbn; rewrite ?Hl, ?Hcap; cbn; split; auto; try discriminate;
      try (intros Hne; contradiction).
    intros a' [= <-]. split; [exact (resizeImage_finished _ _ _ Ha) | auto].
  - destruct (capturedImage (ui c)) eqn:Hcap; [| unchanged Hcalm].
    destruct Hcalm as [Hrun Hprev]. unfold calm. cbn [step]. rewrite Hcap. cbn.
    split; [auto | discriminate].
  - destruct (timers c) eqn:Ht; [unchanged Hcalm |].
    destruct Hcalm as [Hrun Hprev]. unfold calm. cbn [step]. rewrite Ht. cbn.
    split; [exact Hrun | exact Hprev].
Qed.

Lemma step_settled (c : Controller) (e : Event) : settled c -> settled (step c e).
Proof.
  intros [Hone Hcalm]. split; [apply step_at_most_one, Hone | apply step_calm; assumption].
Qed.

Lemma run_settled (es : list Event) (c : Controller) : settled c -> settled (run c es).
Proof.
  revert c. induction es as [| e es IH]; intros c H; [exact H |].
  apply IH, step_settled, H.
Qed.

Lemma initial_settled : settled initial.
Proof.
  split; [split; simpl; [lia | congruence] |].
  split; [intros H; contradiction H; reflexivity | intros a H; discriminate].
Qed.

Lemma reachable_settled (c : Controller) : reachable c -> settled c.
Proof. intros [es ->]. apply run_settled, initial_settled. Qed.

End ControllerInvariants.


(** The sharp capture ends in the preview. *)
Lemma js_sharp_capture :
  run (@initial JS.number) sharp_capture
  = step {| ui := setProcessing true initial_state; inflight := [AwaitResize still];
            timers := 0 |}
         (ResizeLoaded 0 (Loaded {| img_width := 1920; img_height := 1080 |}) true).
Proof.
  exact (run_three _ _ _ _ _ _ (js_click_starts still still_not_empty)
           (js_sharp_passes _)).
Qed.

Lemma js_sharp_capture_held :
  exists a, capturedImage (ui (run (@initial JS.number) sharp_capture)) = Some a.
Proof. rewrite js_sharp_capture. eexists. reflexivity. Qed.

(** A held image in a state reached with a render after every event. *)
Lemma held_image_is_settled `{N : Number} (c : Controller) (a : Artifact) :
  reachable c -> capturedImage (ui c) = Some a ->
  main (render (ui c)) = PreviewPane a
  /\ processing (ui c) = false /\ blurWarning (ui c) = None /\ inflight c = []
  /\ forall e : Event, is_retake e = false -> e <> FlashTimeout -> step c e = c.
Proof.
  intros Hr Hcap.
  destruct (reachable_settled c Hr) as [Hone [Hrun Hprev]].
  destruct (Hprev a Hcap) as (_ & Hidle & Hwarn).
  pose proof (idle_has_no_call c Hone Hidle) as Hl.
  split; [unfold render; cbn [main]; rewrite Hcap; reflexivity |].
  repeat (split; [assumption |]).
  intros e Hre Hfl.
  destruct e as [ready ctx | shot | i img ctx | i img ctx | |]; cbn [step];
    rewrite ?Hcap, ?Hl; try reflexivity; [discriminate Hre | contradiction].
Qed.

Section RenderedInvariants.

Context `{N : Number}.

Lemma perform_one (c : Controller) (e : Event) :
  perform (just_rendered c) [Handled e; Rerender] = just_rendered (step c e).
Proof.
  change (react (react (just_rendered c) (Handled e)) Rerender = just_rendered (step c e)).
  rewrite react_just_rendered. reflexivity.
Qed.

(** Only the normaliser provides a held image. *)
Lemma react_held_finished (p : Mounted) (o : Occurrence) :
  (forall a, capturedImage (ui (component p)) = Some a -> finished a) ->
  forall a, capturedImage (ui (component (react p o))) = Some a -> finished a.
Proof.
  intros H. destruct o as [e |]; [| exact H]. cbn [react component].
  destruct e as [ready ctx | shot | i img ctx | i img ctx | |]; cbn [step].
  - destruct (capturedImage (rendered p)); [exact H |]. destruct ready; exact H.
  - destruct (capturedImage (rendered p)); [exact H |].
    destruct (tooDark (rendered p) || processing (rendered p)); [exact H |].
    unfold start_capture. destruct (no_screenshot shot); exact H.
  - destruct (inflight (component p) !! i) as [[src | src | src] |]; try exact H.
    unfold resume_variance.
    destruct (getLaplacianVariance img ctx) as [v | msg |];
      [destruct (nlt v _) |..]; exact H.
  - destruct (inflight (component p) !! i) as [[src | src | src] |]; try exact H.
    unfold resume_resize.
    destruct (resizeImage img ctx) as [a0 | msg |] eqn:Ha; try exact H.
    cbn. intros a [= <-]. exact (resizeImage_finished _ _ _ Ha).
  - destruct (capturedImage (rendered p)); [cbn; discriminate | exact H].
  - destruct (timers (component p)); exact H.
Qed.

Lemma perform_held_finished (os : list Occurrence) (a : Artifact) :
  capturedImage (ui (component (perform (just_rendered initial) os))) = Some a ->
  finished a.
Proof.
  revert a. unfold perform. rewrite <- fold_left_rev_right.
  induction (rev os) as [| o l IH]; [discriminate |].
  cbn [fold_right]. apply react_held_finished, IH.
Qed.

(** The counter goes up by one when a capture is completed, and only
    then. *)
Lemma react_counts (p : Mounted) (o : Occurrence) :
  captureCount (ui (component (react p o)))
  = captureCount (ui (component p))
    + match o with
      | Handled e => if accepts (component p) e then 1 else 0
      | Rerender => 0
      end.
Proof.
  destruct o as [e |]; [| cbn; lia]. cbn [react component].
  destruct e as [ready ctx | shot | i img ctx | i img ctx | |]; cbn [step accepts].
  - destruct (capturedImage (rendered p)); [lia |]. destruct ready; cbn; lia.
  - destruct (capturedImage (rendered p)); [lia |].
    destruct (tooDark (rendered p) || processing (rendered p)); [lia |].
    unfold start_capture. destruct (no_screenshot shot); cbn; lia.
  - destruct (inflight (component p) !! i) as [[src | src | src] |]; try lia.
    unfold resume_variance.
    destruct (getLaplacianVariance img ctx) as [v | msg |];
      [destruct (nlt v _) |..]; cbn; lia.
  - destruct (inflight (component p) !! i) as [[src | src | src] |]; try lia.
    unfold resume_resize. destruct (resizeImage img ctx) as [a0 | msg |]; cbn; lia.
  - destruct (capturedImage (rendered p)); cbn; lia.
  - destruct (timers (component p)); cbn; lia.
Qed.

Lemma perform_counts (os : list Occurrence) (p : Mounted) :
  captureCount (ui (component (perform p os)))
  = captureCount (ui (component p)) + accepted p os.
Proof.
  revert p. induction os as [| o os IH]; intros p; cbn [perform fold_left accepted]; [lia |].
  change (fold_left react os (react p o)) with (perform (react p o) os).
  rewrite IH, react_counts. lia.
Qed.

(** Where every event is followed by a render, the preview appears when
    an event makes the component hold an image. *)
Lemma appearances_paced (es : list Event) (c : Controller) :
  appearances (just_rendered c) (paced es) = previews c es.
Proof.
  revert c. induction es as [| e es IH]; intros c; [reflexivity |].
  change (paced (e :: es)) with (Handled e :: Rerender :: paced es).
  cbn [appearances previews].
  change (react (react (just_rendered c) (Handled e)) Rerender)
    with (just_rendered (component (react (just_rendered c) (Handled e)))).
  rewrite react_just_rendered. cbn [component]. rewrite IH.
  unfold appears, enters_preview. cbn [rendered component just_rendered].
  destruct (capturedImage (ui c)); destruct (capturedImage (ui (step c e))); lia.
Qed.

End RenderedInvariants.

(** The preview.  Whatever happens and whenever the page renders, an
    image that the component holds is a 1024 x 585 canvas filled by one draw
    and encoded as PNG, as the caption of the preview says.  Where every event
    is followed by a render, the page that shows the preview has the busy flag
    and the blur warning cleared and no evaluation running behind it, and
    nothing but a retake or a flash timeout changes it: polls, presses of the
    capture button and image loads are without effect. *)
Theorem preview_is_settled :
  forall N : Number,
    (forall (os : list Occurrence) (a : Artifact),
       capturedImage (ui (component (perform (just_rendered initial) os))) = Some a ->
       canvas_width a = 1024 /\ canvas_height a = 585
       /\ dest a = (0, 0, 1024, 585) /\ encoding a = "image/png")
    /\
    (forall (es : list Event) (a : Artifact),
       let p := perform (just_rendered initial) (paced es) in
       capturedImage (rendered p) = Some a ->
       main (render (rendered p)) = PreviewPane a
       /\ processing (rendered p) = false /\ blurWarning (rendered p) = None
       /\ inflight (component p) = []
       /\ forall e : Event,
            is_retake e = false -> e <> FlashTimeout -> react p (Handled e) = p).
Proof.
  intros N. split.
  - intros os a Ha. exact (perform_held_finished os a Ha).
  - intros es a p. subst p. rewrite perform_paced.
    cbn [rendered component just_rendered]. intros Hcap.
    destruct (held_image_is_settled _ a (reachable_run es) Hcap)
      as (Hm & Hp & Hw & Hl & Hfix).
    split; [exact Hm |]. split; [exact Hp |]. split; [exact Hw |]. split; [exact Hl |].
    intros e He Hf. rewrite react_just_rendered, (Hfix e He Hf). reflexivity.
Qed.

Lemma preview_is_settled_witness :
  let p := perform (just_rendered (@initial JS.number)) (paced sharp_capture) in
  exists a, capturedImage (rendered p) = Some a
            /\ canvas_width a = 1024 /\ canvas_height a = 585
            /\ inflight (component p) = [].
Proof.
  intros p. destruct js_sharp_capture_held as [a Ha]. exists a.
  assert (Hp : capturedImage (rendered p) = Some a).
  { subst p. rewrite perform_paced. cbn [rendered just_rendered]. exact Ha. }
  assert (Hc : capturedImage (ui (component p)) = Some a).
  { subst p. rewrite perform_paced. cbn [component just_rendered]. exact Ha. }
  destruct (preview_is_settled JS.number) as [Hany Hpaced].
  destruct (Hpaced sharp_capture a Hp) as (_ & _ & _ & Hl & _).
  destruct (Hany (paced sharp_capture) a Hc) as (Hw & Hh & _).
  exact (conj Hp (conj Hw (conj Hh Hl))).
Defined.

(** Retake in a state reached with a render after every event. *)
Lemma retake_clears `{N : Number} (c : Controller) (a : Artifact) :
  reachable c -> capturedImage (ui c) = Some a ->
  let c' := step c Retake in
  capturedImage (ui c') = None /\ processing (ui c') = false
  /\ blurWarning (ui c') = None /\ inflight c' = []
  /\ captureCount (ui c') = captureCount (ui c)
  /\ brightness (ui c') = brightness (ui c)
  /\ forall shot : string,
       shot <> "" -> tooDark (ui c') = false ->
       processing (ui (step c' (Click (Some shot)))) = true
       /\ inflight (step c' (Click (Some shot))) = [AwaitVariance shot].
Proof.
  intros Hr Hcap c'.
  destruct (reachable_settled c Hr) as [Hone [Hrun Hprev]].
  destruct (Hprev a Hcap) as (_ & Hidle & Hwarn).
  pose proof (idle_has_no_call c Hone Hidle) as Hl.
  assert (Hc' : c' = with_ui (fun s => setBlurWarning None (setCapturedImage None s)) c).
  { subst c'. cbn [step]. rewrite Hcap. reflexivity. }
  rewrite Hc'. cbn. rewrite Hl, Hidle.
  split; [reflexivity |]. split; [reflexivity |]. split; [reflexivity |].
  split; [reflexivity |]. split; [reflexivity |]. split; [reflexivity |].
  intros shot Hshot Hdark. unfold handleCapture. cbn.
  unfold tooDark in *. cbn in *. rewrite Hdark, Hidle. cbn.
  destruct (decide (shot = "")); [contradiction |]. cbn. rewrite Hl. split; reflexivity.
Qed.

(** Retake.  Where every event is followed by a render, retake leads
    from the preview back to a camera view that works: no image is held, the
    busy flag and the warning are cleared, nothing is running, the counter and
    the brightness are kept, and a press of the capture button with a still
    starts an evaluation unless the frame is too dark. *)
Theorem retake_restores_camera :
  forall (N : Number) (es : list Event) (a : Artifact),
    let p := perform (just_rendered initial) (paced es) in
    capturedImage (rendered p) = Some a ->
    let p' := perform p [Handled Retake; Rerender] in
    capturedImage (rendered p') = None /\ processing (rendered p') = false
    /\ blurWarning (rendered p') = None /\ inflight (component p') = []
    /\ captureCount (rendered p') = captureCount (rendered p)
    /\ brightness (rendered p') = brightness (rendered p)
    /\ forall shot : string,
         shot <> "" -> tooDark (rendered p') = false ->
         let p'' := perform p' [Handled (Click (Some shot)); Rerender] in
         processing (rendered p'') = true
         /\ inflight (component p'') = [AwaitVariance shot].
Proof.
  intros N es a. cbv zeta. rewrite perform_paced, perform_one.
  cbn [rendered component just_rendered]. intros Hcap.
  destruct (retake_clears _ a (reachable_run es) Hcap)
    as (H1 & H2 & H3 & H4 & H5 & H6 & Hclick).
  split; [exact H1 |]. split; [exact H2 |]. split; [exact H3 |]. split; [exact H4 |].
  split; [exact H5 |]. split; [exact H6 |].
  intros shot Hshot Hdark. rewrite perform_one.
  cbn [rendered component just_rendered]. exact (Hclick shot Hshot Hdark).
Qed.

Lemma retake_restores_camera_witness :
  let p := perform (just_rendered (@initial JS.number)) (paced sharp_capture) in
  inflight (component (perform (perform p [Handled Retake; Rerender])
                               [Handled (Click (Some still)); Rerender]))
  = [AwaitVariance still].
Proof.
  intros p. destruct js_sharp_capture_held as [a Ha].
  assert (Hp : capturedImage (rendered p) = Some a).
  { subst p. rewrite perform_paced. cbn [rendered just_rendered]. exact Ha. }
  destruct (retake_restores_camera JS.number sharp_capture a Hp)
    as (_ & _ & _ & _ & _ & Hb & Hclick).
  apply (Hclick still still_not_empty).
  unfold tooDark. rewrite Hb. subst p. rewrite perform_paced.
  cbn [rendered just_rendered]. rewrite js_sharp_capture. reflexivity.
Defined.


Section Counter.

Context `{N : Number}.

Lemma step_counts (c : Controller) (e : Event) :
  settled c ->
  captureCount (ui (step c e))
  = captureCount (ui c) + (if enters_preview c e then 1 else 0).
Proof.
  intros [[Hlen Hproc] [Hrun Hprev]]. unfold enters_preview.
  destruct e as [ready ctx | shot | i img ctx | i img ctx | |]; cbn [step].
  - destruct (capturedImage (ui c)) eqn:Hcap; [cbn; lia |].
    destruct ready; cbn; rewrite ?Hcap; lia.
  - destruct (capturedImage (ui c)) eqn:Hcap; [cbn; lia |].
    unfold handleCapture.
    destruct (tooDark (ui c) || processing (ui c)); [cbn; rewrite ?Hcap; lia |].
    destruct (no_screenshot shot); cbn; rewrite ?Hcap; lia.
  - destruct (inflight c !! i) as [[src | src | src] |] eqn:Hi;
      try (destruct (capturedImage (ui c)); lia).
    destruct (short_list_lookup _ _ _ Hlen Hi) as [Hl ->].
    destruct Hrun as [Hwarn Hcap]; [rewrite Hl; discriminate |].
    unfold resume_variance.
    destruct (getLaplacianVariance img ctx) as [v | msg |];
      [destruct (nlt v _) |..]; cbn; rewrite ?Hcap; lia.
  - destruct (inflight c !! i) as [[src | src | src] |] eqn:Hi;
      try (destruct (capturedImage (ui c)); lia).
    destruct (short_list_lookup _ _ _ Hlen Hi) as [Hl ->].
    destruct Hrun as [Hwarn Hcap]; [rewrite Hl; discriminate |].
    unfold resume_resize.
    destruct (resizeImage img ctx) as [a | msg |]; cbn; rewrite ?Hcap; lia.
  - destruct (capturedImage (ui c)) eqn:Hcap; cbn; rewrite ?Hcap; lia.
  - destruct (timers c); cbn; destruct (capturedImage (ui c)); lia.
Qed.

Lemma run_counts (es : list Event) (c : Controller) :
  settled c -> captureCount (ui (run c es)) = captureCount (ui c) + previews c es.
Proof.
  revert c. induction es as [| e es IH]; intros c Hc; cbn [run fold_left previews]; [lia |].
  change (fold_left step es (step c e)) with (run (step c e) es).
  rewrite (IH _ (step_settled c e Hc)), (step_counts c e Hc). lia.
Qed.

Lemma previews_nonneg (es : list Event) (c : Controller) : 0 <= previews c es.
Proof.
  revert c. induction es as [| e es IH]; intros c; cbn [previews]; [lia |].
  specialize (IH (step c e)). destruct (enters_preview c e); lia.
Qed.

Lemma held_after_preview (es : list Event) (c : Controller) (a : Artifact) :
  capturedImage (ui c) = None -> capturedImage (ui (run c es)) = Some a ->
  1 <= previews c es.
Proof.
  revert c. induction es as [| e es IH]; intros c Hnone Hheld.
  - cbn in Hheld. congruence.
  - cbn [previews]. pose proof (previews_nonneg es (step c e)) as H0.
    unfold enters_preview. rewrite Hnone.
    destruct (capturedImage (ui (step c e))) eqn:Hstep; [lia |].
    specialize (IH (step c e) Hstep Hheld). lia.
Qed.

End Counter.

(** The counter.  Whatever happens and whenever the page renders,
    [captureCount] is the number of captures completed so far.  Where every
    event is followed by a render, this is the number of times the preview has
    appeared: retakes, rejected and failed attempts leave it alone, the
    counter is shown once it is positive, and it is at least 1 while the
    preview is shown. *)
Theorem counter_counts_previews :
  forall N : Number,
    (forall os : list Occurrence,
       captureCount (ui (component (perform (just_rendered initial) os)))
       = accepted (just_rendered initial) os)
    /\
    (forall es : list Event,
       let p := perform (just_rendered initial) (paced es) in
       let n := appearances (just_rendered initial) (paced es) in
       captureCount (rendered p) = n
       /\ 0 <= n
       /\ counter (render (rendered p)) = (if n =? 0 then None else Some n)
       /\ captureCount (rendered (perform p [Handled Retake; Rerender])) = n
       /\ (forall a, capturedImage (rendered p) = Some a -> 1 <= n)).
Proof.
  intros N. split.
  - intros os. rewrite perform_counts. cbn. lia.
  - intros es p n. subst p n. rewrite perform_paced, perform_one, appearances_paced.
    cbn [rendered just_rendered].
    pose proof (run_counts es initial initial_settled) as Hn.
    change (captureCount (ui initial)) with 0 in Hn. rewrite Z.add_0_l in Hn.
    pose proof (previews_nonneg es initial) as H0.
    split; [exact Hn |]. split; [lia |]. split; [| split].
    + unfold render. cbn [counter]. rewrite Hn.
      destruct (Z.eqb_spec (previews initial es) 0) as [-> | Hne]; [reflexivity |].
      destruct (Z.ltb_spec 0 (previews initial es)); [reflexivity | lia].
    + rewrite (step_counts _ Retake (run_settled es initial initial_settled)).
      unfold enters_preview. cbn [step].
      destruct (capturedImage (ui (run initial es))) eqn:Hcap; [lia |]. rewrite Hcap. lia.
    + intros a Ha. apply (held_after_preview es initial a eq_refl Ha).
Qed.


Section Flash.

Context `{N : Number}.






End Flash.




Section Warning.

Context `{N : Number}.

(** A warning on screen is the blur warning, and the busy flag is clear. *)
Lemma step_warned (c : Controller) (e : Event) :
  (forall w, blurWarning (ui c) = Some w -> w = blur_text /\ processing (ui c) = false) ->
  forall w, blurWarning (ui (step c e)) = Some w ->
            w = blur_text /\ processing (ui (step c e)) = false.
Proof.
  intros H.
  destruct e as [ready ctx | shot | i img ctx | i img ctx | |]; cbn [step].
  - destruct (capturedImage (ui c)); [exact H |]. destruct ready; exact H.
  - destruct (capturedImage (ui c)); [exact H |]. unfold handleCapture.
    destruct (tooDark (ui c) || processing (ui c)); [exact H |].
    destruct (no_screenshot shot); cbn; discriminate.
  - destruct (inflight c !! i) as [[src | src | src] |]; try exact H.
    unfold resume_variance.
    destruct (getLaplacianVariance img ctx) as [v | msg |];
      [destruct (nlt v _) |..]; try exact H.
    cbn. intros w [= <-]. split; reflexivity.
  - destruct (inflight c !! i) as [[src | src | src] |]; try exact H.
    unfold resume_resize.
    destruct (resizeImage img ctx) as [a | msg |]; try exact H.
    cbn. intros w Hw. destruct (H w Hw) as [-> _]. split; reflexivity.
  - destruct (capturedImage (ui c)); [| exact H]. cbn. discriminate.
  - destruct (timers c); exact H.
Qed.

Lemma reachable_warned (c : Controller) (w : string) :
  reachable c -> blurWarning (ui c) = Some w ->
  w = blur_text /\ processing (ui c) = false.
Proof.
  intros [es ->]. revert w. unfold run. rewrite <- fold_left_rev_right.
  induction (rev es) as [| e l IH]; [discriminate |].
  cbn [fold_right]. apply step_warned, IH.
Qed.

End Warning.

(** A warning shown in a state reached with a render after every
    event. *)
Lemma warning_is_blur_warning `{N : Number} (c : Controller) (w : string) :
  reachable c -> shown_warning (ui c) = Some w ->
  w = blur_text
  /\ (exists v, main (render (ui c)) = CameraPane v
                /\ warning v = Some w /\ button_disabled v = false /\ spinner v = false)
  /\ inflight c = []
  /\ forall shot : string,
       shot <> "" ->
       let c' := step c (Click (Some shot)) in
       blurWarning (ui c') = None /\ processing (ui c') = true
       /\ inflight c' = [AwaitVariance shot].
Proof.
  intros Hr Hshown. unfold shown_warning in Hshown.
  destruct (blurWarning (ui c)) as [text |] eqn:Hwarn; [| discriminate].
  destruct (decide (text = "")); [discriminate |].
  destruct (tooDark (ui c)) eqn:Hdark; [discriminate |]. injection Hshown as ->.
  destruct (reachable_warned c w Hr Hwarn) as [Hw Hidle].
  destruct (reachable_settled c Hr) as [Hone [_ Hprev]].
  pose proof (idle_has_no_call c Hone Hidle) as Hl.
  assert (Hcap : capturedImage (ui c) = None).
  { destruct (capturedImage (ui c)) as [a |] eqn:Hcap; [| reflexivity].
    destruct (Hprev a eq_refl) as (_ & _ & Hnone). congruence. }
  split; [exact Hw |]. split; [| split; [exact Hl |]].
  - unfold render. cbn [main]. rewrite Hcap. eexists. split; [reflexivity |].
    cbn [warning button_disabled spinner]. unfold shown_warning.
    rewrite Hwarn, Hdark, Hidle. destruct (decide (w = "")); [contradiction |].
    repeat split.
  - intros shot Hshot c'. subst c'. cbn [step]. rewrite Hcap. unfold handleCapture.
    rewrite Hdark, Hidle. cbn. destruct (decide (shot = "")); [contradiction |].
    cbn. rewrite Hl. repeat split.
Qed.

(** After a rejection the user can try again.  Where every event is
    followed by a render, a warning that the page shows is the blur warning,
    the page is in the camera view with nothing running, and the capture
    button is enabled; a press with a still then removes the warning and
    starts a new evaluation. *)
Theorem blur_warning_allows_retry :
  forall (N : Number) (es : list Event) (w : string),
    let p := perform (just_rendered initial) (paced es) in
    shown_warning (rendered p) = Some w ->
    w = blur_text
    /\ (exists v, main (render (rendered p)) = CameraPane v
                  /\ warning v = Some w /\ button_disabled v = false /\ spinner v = false)
    /\ inflight (component p) = []
    /\ forall shot : string,
         shot <> "" ->
         let p' := perform p [Handled (Click (Some shot)); Rerender] in
         blurWarning (rendered p') = None /\ processing (rendered p') = true
         /\ inflight (component p') = [AwaitVariance shot].
Proof.
  intros N es w. cbv zeta. rewrite perform_paced.
  cbn [rendered component just_rendered]. intros Hshown.
  destruct (warning_is_blur_warning _ w (reachable_run es) Hshown)
    as (Hw & Hview & Hl & Hclick).
  split; [exact Hw |]. split; [exact Hview |]. split; [exact Hl |].
  intros shot Hshot. rewrite perform_one.
  cbn [rendered component just_rendered]. exact (Hclick shot Hshot).
Qed.

Lemma run_two `{N : Number} (c0 c1 : Controller) (e1 e2 : Event) :
  step c0 e1 = c1 -> run c0 [e1; e2] = step c1 e2.
Proof. intros <-. reflexivity. Qed.

(** The flat still is turned down. *)
Lemma js_blurry_capture :
  run (@initial JS.number) blurry_capture
  = rejected_as_blurry
      {| ui := setProcessing true initial_state; inflight := [AwaitVariance still];
         timers := 0 |} 0.
Proof.
  unfold blurry_capture.
  rewrite (run_two _ _ _ _ (js_click_starts still still_not_empty)).
  apply (sharpness_below_floor (N := JS.number) _ 0%nat still _ _
           (solid (Z.to_nat (160 * 90)) 128 128 128 255) 0%float);
    cbn [img_width img_height]; rewrite ?js_height_1920x1080.
  - reflexivity.
  - lia.
  - reflexivity.
  - apply (js_flat_variance 160 90 128 128 128); [lia | lia | lia | |].
    + apply solid_image_data; lia.
    + apply solid_uniform.
  - reflexivity.
Qed.

Lemma blur_warning_allows_retry_witness :
  let p := perform (just_rendered (@initial JS.number)) (paced blurry_capture) in
  shown_warning (rendered p) = Some blur_text
  /\ inflight (component (perform p [Handled (Click (Some still)); Rerender]))
     = [AwaitVariance still].
Proof.
  intros p.
  assert (Hp : shown_warning (rendered p) = Some blur_text).
  { subst p. rewrite perform_paced. cbn [rendered just_rendered].
    rewrite js_blurry_capture. reflexivity. }
  split; [exact Hp |].
  destruct (blur_warning_allows_retry JS.number blurry_capture blur_text Hp)
    as (_ & _ & _ & Hclick).
  apply (Hclick still still_not_empty).
Defined.


(** ** What the upload handler does to the disk *)

Module UploadEffects.
Import Upload.

(** Whatever the request, the handler answers 201, 400 or 500.  A 400
    leaves the disk as it was.  A 201 writes exactly one file, under the
    uploads directory, with the name and the bytes the response reports.  A
    500 leaves every file as it was, unless it comes from a write that threw,
    which can leave what it had written at the path of the upload: the
    handler removes nothing after a failure.  Whatever the answer, a file
    changes only at the path of the upload, and no file and no directory is
    removed. *)
Theorem POST_effects :
  forall (env : Env) (disk : Disk),
    let r := fst (POST env disk) in
    let d := snd (POST env disk) in
    (status r = 201 \/ status r = 400 \/ status r = 500)
    /\ (status r = 400 -> d = disk /\ exists e, body r = Failure e)
    /\ (status r = 201 ->
        exists file filename,
          formData env = inr (Some (EntryFile file))
          /\ body r = Success filename ("/uploads/" +:+ filename)
                              (file_size file) (file_type file)
          /\ files d = <[path_join [UPLOADS_DIR env; filename] := file_bytes file]>
                         (files disk)
          /\ UPLOADS_DIR env ∈ dirs d)
    /\ (status r = 500 ->
        (exists message, body r = Failure (ServerError message))
        /\ (files d = files disk
            \/ exists file failure written,
                 formData env = inr (Some (EntryFile file))
                 /\ writeFile_throws env = Some failure
                 /\ left_behind failure = Some written
                 /\ files d
                    = <[stored_path env
                          (to_text (get_property ALLOWED_TYPES (file_type file)))
                        := written]> (files disk)))
    /\ dirs disk ⊆ dirs d
    /\ (forall p, is_Some (files disk !! p) -> is_Some (files d !! p))
    /\ (forall p,
          files d !! p <> files disk !! p ->
          exists file,
            formData env = inr (Some (EntryFile file))
            /\ p = stored_path env
                     (to_text (get_property ALLOWED_TYPES (file_type file)))).
Proof.
  intros env disk r d. subst r d. unfold POST.
  destruct (formData env) as [msg | [[file | s] |]] eqn:Hform; cbn;
    try (split; [auto |]; split; [try discriminate; intros _; split; eauto |];
         split; [discriminate |];
         split; [try discriminate; intros _; split; eauto |];
         split; [reflexivity |]; split; [auto | intros p Hp; contradiction Hp; reflexivity]).
  destruct (falsy _) eqn:Hf; cbn;
    try (split; [auto |]; split; [try discriminate; intros _; split; eauto |];
         split; [discriminate |];
         split; [try discriminate; intros _; split; eauto |];
         split; [reflexivity |]; split; [auto | intros p Hp; contradiction Hp; reflexivity]).
  destruct (file_size file >? MAX_FILE_SIZE); cbn;
    try (split; [auto |]; split; [try discriminate; intros _; split; eauto |];
         split; [discriminate |];
         split; [try discriminate; intros _; split; eauto |];
         split; [reflexivity |]; split; [auto | intros p Hp; contradiction Hp; reflexivity]).
  destruct (mkdir_throws env); cbn;
    try (split; [auto |]; split; [try discriminate; intros _; split; eauto |];
         split; [discriminate |];
         split; [try discriminate; intros _; split; eauto |];
         split; [reflexivity |]; split; [auto | intros p Hp; contradiction Hp; reflexivity]).
  set (target := path_join [UPLOADS_DIR env;
                   uuidv4 env +:+ to_text (get_property ALLOWED_TYPES (file_type file))]).
  destruct (writeFile_throws env) as [[message [written |]] |]; cbn.
  - split; [auto |]. split; [discriminate |]. split; [discriminate |].
    split; [intros _; split; [eauto |]; right; exists file; do 2 eexists; eauto |].
    split; [set_solver |]. split.
    + intros p Hp. destruct (decide (target = p)) as [<- | Hne].
      * rewrite lookup_insert_eq. eauto.
      * rewrite lookup_insert_ne by exact Hne. exact Hp.
    + intros p Hp. exists file. split; [reflexivity |].
      destruct (decide (target = p)) as [<- | Hne]; [reflexivity |].
      rewrite lookup_insert_ne in Hp by exact Hne. contradiction Hp. reflexivity.
  - split; [auto |]. split; [discriminate |]. split; [discriminate |].
    split; [intros _; split; eauto |].
    split; [set_solver |]. split; [auto |].
    intros p Hp. contradiction Hp. reflexivity.
  - split; [auto |]. split; [discriminate |].
    split; [intros _; exists file; eexists; repeat split; set_solver |].
    split; [discriminate |].
    split; [set_solver |]. split.
    + intros p Hp. destruct (decide (target = p)) as [<- | Hne].
      * rewrite lookup_insert_eq. eauto.
      * rewrite lookup_insert_ne by exact Hne. exact Hp.
    + intros p Hp. exists file. split; [reflexivity |].
      destruct (decide (target = p)) as [<- | Hne]; [reflexivity |].
      rewrite lookup_insert_ne in Hp by exact Hne. contradiction Hp. reflexivity.
Qed.

(** What goes wrong.  A request without a file under [image] (no such
    field, or a text field) is answered 400 and nothing is touched.  An
    exception is answered 500 with its message: when the form cannot be parsed
    nothing is touched; for an allowed file within the size limit, when
    [mkdir] throws nothing is touched, and when the write throws the uploads
    directory has been created, every other file is as it was, and the path of
    the upload holds what the failed write left there: what was there before
    if nothing was opened, else what had been written, which stays on disk
    although the answer is 500. *)
Theorem POST_failures :
  forall (env : Env) (disk : Disk),
    (formData env = inr None \/ (exists s, formData env = inr (Some (EntryString s))) ->
     POST env disk = ({| status := 400; body := Failure NoImage |}, disk))
    /\
    (forall message,
       formData env = inl message ->
       POST env disk = ({| status := 500; body := Failure (ServerError message) |}, disk))
    /\
    (forall file ext message,
       formData env = inr (Some (EntryFile file)) ->
       ALLOWED_TYPES !! file_type file = Some ext -> file_size file <= MAX_FILE_SIZE ->
       mkdir_throws env = Some message ->
       POST env disk = ({| status := 500; body := Failure (ServerError message) |}, disk))
    /\
    (forall file ext failure,
       formData env = inr (Some (EntryFile file)) ->
       ALLOWED_TYPES !! file_type file = Some ext -> file_size file <= MAX_FILE_SIZE ->
       mkdir_throws env = None -> writeFile_throws env = Some failure ->
       let d := snd (POST env disk) in
       fst (POST env disk)
       = {| status := 500; body := Failure (ServerError (write_message failure)) |}
       /\ dirs d = {[ UPLOADS_DIR env ]} ∪ dirs disk
       /\ (forall p, p <> stored_path env ext -> files d !! p = files disk !! p)
       /\ files d !! stored_path env ext
          = match left_behind failure with
            | Some written => Some written
            | None => files disk !! stored_path env ext
            end).
Proof.
  intros env disk. split; [| split; [| split]].
  - intros [H | [s H]]; unfold POST; rewrite H; reflexivity.
  - intros message H. unfold POST. rewrite H. reflexivity.
  - intros file ext message Hform Hext Hsize Hmk.
    unfold POST, get_property. rewrite Hform, Hext.
    assert (Hne : ext <> "").
    { rewrite UploadFacts.allowed_lookup in Hext. repeat destruct (decide _); congruence. }
    simpl. destruct (decide (ext = "")); [contradiction |].
    destruct (Z.gtb_spec (file_size file) MAX_FILE_SIZE) as [Hgt | _]; [lia |].
    rewrite Hmk. reflexivity.
  - intros file ext failure Hform Hext Hsize Hmk Hwr d. subst d.
    unfold POST, get_property. rewrite Hform, Hext.
    assert (Hne : ext <> "").
    { rewrite UploadFacts.allowed_lookup in Hext. repeat destruct (decide _); congruence. }
    simpl. destruct (decide (ext = "")); [contradiction |].
    destruct (Z.gtb_spec (file_size file) MAX_FILE_SIZE) as [Hgt | _]; [lia |].
    rewrite Hmk, Hwr. cbn [fst snd dirs files error_response].
    change (path_join [UPLOADS_DIR env; uuidv4 env +:+ ext]) with (stored_path env ext).
    split; [reflexivity |]. split; [reflexivity |].
    destruct (left_behind failure) as [written |].
    + split; [| apply lookup_insert_eq].
      intros p Hp. apply lookup_insert_ne. intros E. apply Hp. symmetry. exact E.
    + split; reflexivity.
Qed.

Lemma POST_failures_witness :
  let png := {| file_type := "image/png"; file_size := 3; file_bytes := [137; 80; 78] |} in
  let env :=
    {| cwd := "/app"; uuidv4 := "3f2b8c1e-5d4a-4e6f-9a7b-0c1d2e3f4a5b";
       formData := inr (Some (EntryFile png));
       mkdir_throws := None;
       writeFile_throws :=
         Some {| write_message := "ENOSPC: no space left on device, write";
                 left_behind := Some [137; 80] |} |} in
  status (fst (POST env empty_disk)) = 500
  /\ files (snd (POST env empty_disk)) !! stored_path env ".png" = Some [137; 80].
Proof.
  intros png env.
  destruct (proj2 (proj2 (proj2 (POST_failures env empty_disk))) png ".png" _
              eq_refl eq_refl ltac:(vm_compute; discriminate) eq_refl eq_refl)
    as (Hr & _ & _ & Hfile).
  split; [rewrite Hr; reflexivity | exact Hfile].
Defined.

End UploadEffects.


(** ** Gallery listing *)

Module GalleryFacts.
Import Gallery GalleryNotions.

(** *** Sorting *)

Lemma insert_sorted_perm {A : Type} (compare : A -> A -> Z) (x : A) (l : list A) :
  insert_sorted compare x l ≡ₚ x :: l.
Proof.
  induction l as [| y l IH]; cbn [insert_sorted]; [reflexivity |].
  destruct (compare x y <=? 0); [reflexivity |].
  rewrite IH. apply Permutation_swap.
Qed.

Lemma sort_perm {A : Type} (compare : A -> A -> Z) (l : list A) : sort compare l ≡ₚ l.
Proof.
  induction l as [| x l IH]; [reflexivity |].
  cbn [sort fold_right]. fold (sort compare l).
  rewrite insert_sorted_perm, IH. reflexivity.
Qed.

Lemma insert_newest_first (x : GalleryImage) (l : list GalleryImage) :
  Sorted not_older l -> Sorted not_older (insert_sorted newest_first x l).
Proof.
  induction 1 as [| y l Hs IH Hhd]; cbn [insert_sorted].
  - repeat constructor.
  - unfold newest_first at 1.
    destruct (Z.leb_spec (createdAt y - createdAt x) 0) as [Hle | Hgt].
    + constructor; [constructor; assumption |]. constructor. unfold not_older. lia.
    + constructor; [exact IH |].
      destruct l as [| z l]; cbn [insert_sorted].
      * constructor. unfold not_older. lia.
      * unfold newest_first at 1.
        destruct (createdAt z - createdAt x <=? 0).
        -- constructor. unfold not_older. lia.
        -- constructor. inversion Hhd; assumption.
Qed.

Lemma sort_newest_first (l : list GalleryImage) : Sorted not_older (sort newest_first l).
Proof.
  induction l as [| x l IH]; [constructor |].
  cbn [sort fold_right]. apply insert_newest_first, IH.
Qed.

Lemma sort_strongly (l : list GalleryImage) :
  StronglySorted not_older (sort newest_first l).
Proof.
  apply Sorted_StronglySorted; [| apply sort_newest_first].
  intros a b c. unfold not_older. lia.
Qed.

(** The sort is stable: entries born at the same instant keep their order. *)
Lemma insert_stable (t : Z) (x : GalleryImage) (l : list GalleryImage) :
  List.filter (born_at t) (insert_sorted newest_first x l)
  = List.filter (born_at t) (x :: l).
Proof.
  induction l as [| y l IH]; cbn [insert_sorted]; [reflexivity |].
  unfold newest_first at 1.
  destruct (Z.leb_spec (createdAt y - createdAt x) 0) as [Hle | Hgt]; [reflexivity |].
  cbn [List.filter] in *. rewrite IH. unfold born_at.
  destruct (Z.eqb_spec (createdAt x) t) as [Hx | Hx];
    destruct (Z.eqb_spec (createdAt y) t) as [Hy | Hy]; try reflexivity. lia.
Qed.

Lemma sort_stable (t : Z) (l : list GalleryImage) :
  List.filter (born_at t) (sort newest_first l) = List.filter (born_at t) l.
Proof.
  induction l as [| x l IH]; [reflexivity |].
  cbn [sort fold_right]. fold (sort newest_first l).
  rewrite insert_stable. cbn [List.filter]. rewrite IH. reflexivity.
Qed.

(** *** The loop *)

Lemma collect_ok (fs : Fs) (dir : string) (files : list string) :
  (forall n, n ∈ files -> is_image n = true ->
             exists info, stat fs (Upload.path_join [dir; n]) = inr info) ->
  forall images,
    collect fs dir files images
    = inr (images ++ omap (entry fs dir) (List.filter is_image files)).
Proof.
  induction files as [| file rest IH]; intros Hstat images.
  - cbn. rewrite app_nil_r. reflexivity.
  - cbn [collect List.filter]. unfold is_image at 1.
    destruct (decide (toLowerCase (extname file) ∈ ALLOWED_EXT)) as [Hin | Hout].
    + rewrite (bool_decide_eq_true_2 _ Hin).
      destruct (Hstat file) as [info Hinfo]; [left | apply bool_decide_eq_true_2, Hin |].
      assert (He : entry fs dir file
                   = Some {| filename := file; url := "/uploads/" +:+ file;
                             image_size := size info; createdAt := birthtime info |})
        by (unfold entry; rewrite Hinfo; reflexivity).
      rewrite Hinfo, IH by (intros n Hn; apply Hstat; right; exact Hn).
      cbn [omap list_omap]. rewrite He, <- app_assoc. reflexivity.
    + rewrite (bool_decide_eq_false_2 _ Hout).
      apply IH. intros n Hn. apply Hstat. right. exact Hn.
Qed.

Lemma collect_fails (fs : Fs) (dir : string) (files : list string) :
  (exists n msg, n ∈ files /\ is_image n = true
                 /\ stat fs (Upload.path_join [dir; n]) = inl msg) ->
  forall images,
    exists n msg, n ∈ files /\ is_image n = true
                  /\ stat fs (Upload.path_join [dir; n]) = inl msg
                  /\ collect fs dir files images = inl msg.
Proof.
  induction files as [| file rest IH]; intros (n & msg & Hn & Himg & Hmsg) images.
  - apply elem_of_nil in Hn. contradiction.
  - cbn [collect].
    destruct (decide (toLowerCase (extname file) ∈ ALLOWED_EXT)) as [Hin | Hout].
    + destruct (stat fs (Upload.path_join [dir; file])) as [m | info] eqn:Hstat.
      * exists file, m. split; [left |]. split; [apply bool_decide_eq_true_2, Hin |].
        split; [exact Hstat | reflexivity].
      * apply elem_of_cons in Hn as [-> | Hn]; [congruence |].
        destruct (IH (ex_intro _ n (ex_intro _ msg (conj Hn (conj Himg Hmsg))))
                    (images ++ [{| filename := file; url := "/uploads/" +:+ file;
                                   image_size := size info;
                                   createdAt := birthtime info |}]))
          as (n' & m' & Hn' & Hi' & Hs' & Hc').
        exists n', m'. split; [right; exact Hn' | auto].
    + apply elem_of_cons in Hn as [-> | Hn].
      { unfold is_image in Himg. apply bool_decide_eq_true_1 in Himg. contradiction. }
      destruct (IH (ex_intro _ n (ex_intro _ msg (conj Hn (conj Himg Hmsg)))) images)
        as (n' & m' & Hn' & Hi' & Hs' & Hc').
      exists n', m'. split; [right; exact Hn' | auto].
Qed.

Lemma collect_same (fs fs' : Fs) (dir : string) (files : list string) :
  (forall n, is_image n = true ->
             stat fs' (Upload.path_join [dir; n]) = stat fs (Upload.path_join [dir; n])) ->
  forall images, collect fs' dir files images = collect fs dir files images.
Proof.
  intros Hsame. induction files as [| file rest IH]; intros images; [reflexivity |].
  cbn [collect].
  destruct (decide (toLowerCase (extname file) ∈ ALLOWED_EXT)) as [Hin | Hout];
    [| apply IH].
  rewrite (Hsame file) by (apply bool_decide_eq_true_2, Hin).
  destruct (stat fs _); [reflexivity | apply IH].
Qed.

Lemma entry_inv (fs : Fs) (dir : string) (n : string) (g : GalleryImage) :
  entry fs dir n = Some g -> filename g = n /\ url g = "/uploads/" +:+ n.
Proof.
  unfold entry. destruct (stat fs _); [discriminate |]. intros [= <-]. split; reflexivity.
Qed.

Lemma listing (cwd : string) (fs : Fs) (names : list string) :
  readdir fs (UPLOADS_DIR cwd) = Some names ->
  (forall n, n ∈ names -> is_image n = true ->
             exists info, stat fs (Upload.path_join [UPLOADS_DIR cwd; n]) = inr info) ->
  exists images,
    GET cwd fs
    = {| status := 200; body := Listing images (Some (Z.of_nat (length images))) |}
    /\ images ≡ₚ omap (entry fs (UPLOADS_DIR cwd)) (List.filter is_image names)
    /\ forall t, List.filter (born_at t) images
                 = List.filter (born_at t)
                     (omap (entry fs (UPLOADS_DIR cwd)) (List.filter is_image names)).
Proof.
  intros Hdir Hstat. unfold GET. rewrite Hdir.
  rewrite (collect_ok fs _ names Hstat []). cbn [app].
  eexists. split; [reflexivity |]. split; [apply sort_perm |].
  intros t. apply sort_stable.
Qed.

(** The listing.  When the uploads directory can be read and [stat] works
    on its image files, the handler answers 200 with one entry for every
    name that ends, in any letter case, in .png, .jpg, .jpeg or .webp, and no
    other; each entry carries the URL [/uploads/<name>]; the entries are
    ordered newest first, those born at the same instant in the order of the
    directory, and [total] is their number. *)
Theorem GET_lists_images :
  forall (cwd : string) (fs : Fs) (names : list string),
    readdir fs (UPLOADS_DIR cwd) = Some names ->
    (forall n, n ∈ names -> is_image n = true ->
               exists info, stat fs (Upload.path_join [UPLOADS_DIR cwd; n]) = inr info) ->
    exists images,
      GET cwd fs
      = {| status := 200; body := Listing images (Some (Z.of_nat (length images))) |}
      /\ images ≡ₚ omap (entry fs (UPLOADS_DIR cwd)) (List.filter is_image names)
      /\ StronglySorted not_older images
      /\ (forall t, List.filter (born_at t) images
                    = List.filter (born_at t)
                        (omap (entry fs (UPLOADS_DIR cwd)) (List.filter is_image names)))
      /\ forall g, g ∈ images ->
            filename g ∈ names /\ is_image (filename g) = true
            /\ url g = "/uploads/" +:+ filename g.
Proof.
  intros cwd fs names Hdir Hstat. unfold GET. rewrite Hdir.
  rewrite (collect_ok fs _ names Hstat []). cbn [app].
  eexists. split; [reflexivity |]. split; [apply sort_perm |].
  split; [apply sort_strongly |]. split; [intros t; apply sort_stable |].
  intros g Hg. rewrite sort_perm in Hg.
  apply list_elem_of_omap in Hg as (n & Hn & He).
  apply entry_inv in He as [Hf Hu]. rewrite Hf, Hu.
  apply list_elem_of_In, filter_In in Hn as [Hn Himg].
  split; [apply list_elem_of_In, Hn | auto].
Qed.

Lemma GET_lists_images_witness :
  exists images,
    GET "/app" one_png
    = {| status := 200; body := Listing images (Some (Z.of_nat (length images))) |}.
Proof.
  destruct (GET_lists_images "/app" one_png ["card.PNG"; "notes.txt"] eq_refl)
    as (images & H & _).
  - intros n Hn Himg. 
    apply elem_of_cons in Hn as [-> | Hn]; [eexists; reflexivity |].
    apply elem_of_cons in Hn as [-> | Hn]; [vm_compute in Himg; discriminate Himg |].
    apply elem_of_nil in Hn. contradiction.
  - exists images. exact H.
Defined.

(** What goes wrong.  When the uploads directory cannot be read the
    handler still answers 200, with an empty list and no [total]; when [stat]
    throws on an image file it answers 500 with the message of the first such
    failure; files that are not images are never looked at, so what [stat]
    would do on them changes nothing. *)
Theorem GET_failures :
  forall (cwd : string) (fs : Fs),
    (readdir fs (UPLOADS_DIR cwd) = None ->
     GET cwd fs = {| status := 200; body := Listing [] None |})
    /\
    (forall names,
       readdir fs (UPLOADS_DIR cwd) = Some names ->
       (exists n msg, n ∈ names /\ is_image n = true
                      /\ stat fs (Upload.path_join [UPLOADS_DIR cwd; n]) = inl msg) ->
       exists n msg, n ∈ names /\ is_image n = true
                     /\ stat fs (Upload.path_join [UPLOADS_DIR cwd; n]) = inl msg
                     /\ GET cwd fs = {| status := 500; body := Failure msg |})
    /\
    (forall fs' : Fs,
       readdir fs' (UPLOADS_DIR cwd) = readdir fs (UPLOADS_DIR cwd) ->
       (forall n, is_image n = true ->
                  stat fs' (Upload.path_join [UPLOADS_DIR cwd; n])
                  = stat fs (Upload.path_join [UPLOADS_DIR cwd; n])) ->
       GET cwd fs' = GET cwd fs).
Proof.
  intros cwd fs. split; [| split].
  - intros Hdir. unfold GET. rewrite Hdir. reflexivity.
  - intros names Hdir Hbad.
    destruct (collect_fails fs _ names Hbad []) as (n & msg & Hn & Himg & Hs & Hc).
    exists n, msg. unfold GET. rewrite Hdir, Hc. auto.
  - intros fs' Hdir Hsame. unfold GET. rewrite Hdir.
    destruct (readdir fs (UPLOADS_DIR cwd)) as [names |]; [| reflexivity].
    rewrite (collect_same fs fs' _ names Hsame). reflexivity.
Qed.

End GalleryFacts.


(** ** From the upload to the gallery *)

Module RoundTrip.
Import Gallery GalleryNotions.

Lemma char_at_left (u s : string) (i : nat) :
  (i < String.length u)%nat -> char_at (u +:+ s) i = char_at u i.
Proof.
  intros Hi. unfold char_at. rewrite <- (String.append_correct1 u s i Hi). reflexivity.
Qed.

Lemma char_at_right (u s : string) (j : nat) :
  char_at (u +:+ s) (String.length u + j) = char_at s j.
Proof.
  unfold char_at. rewrite Nat.add_comm, <- (String.append_correct2 u s j). reflexivity.
Qed.

Lemma all_chars_at (p : Ascii.ascii -> bool) (s : string) (i : nat) :
  all_chars p s = true -> (i < String.length s)%nat -> p (char_at s i) = true.
Proof.
  revert i. induction s as [| c s IH]; intros i Hall Hi; cbn in *; [lia |].
  apply andb_prop in Hall as [Hc Hs].
  destruct i as [| i]; [exact Hc |]. apply (IH i Hs). lia.
Qed.

Lemma substring_all (s : string) : String.substring 0 (String.length s) s = s.
Proof. induction s as [| c s IH]; simpl; [reflexivity | f_equal; exact IH]. Qed.

Lemma substring_right (u s : string) :
  String.substring (String.length u) (String.length s) (u +:+ s) = s.
Proof.
  induction u as [| c u IH]; simpl; [apply substring_all | exact IH].
Qed.

Lemma length_append (u s : string) :
  String.length (u +:+ s) = (String.length u + String.length s)%nat.
Proof. induction u as [| c u IH]; simpl; [reflexivity | f_equal; exact IH]. Qed.

(** The scan over the characters after the dot, when none of them is a dot
    or a separator. *)
Lemma scan_plain (path : string) (lo : nat) (st : Scan) :
  startDot st = -1 -> scan_end st <> -1 ->
  forall n : nat,
    (forall i, (lo <= i < lo + n)%nat -> plain_char (char_at path i) = true) ->
    scan path (lo + n) st = scan path lo st.
Proof.
  intros Hdot Hend. induction n as [| n IH]; intros Hplain.
  - rewrite Nat.add_0_r. reflexivity.
  - rewrite Nat.add_succ_r. cbn [scan].
    pose proof (Hplain (lo + n)%nat ltac:(lia)) as Hc. unfold plain_char in Hc.
    apply andb_prop in Hc as [Hslash Hpoint].
    apply negb_true_iff in Hslash, Hpoint.
    unfold scan_step. rewrite Hslash, Hpoint.
    destruct (Z.eqb_spec (scan_end st) (-1)) as [E | _]; [contradiction |].
    rewrite Hdot. cbn. apply IH. intros i Hi. apply Hplain. lia.
Qed.

(** The scan over the characters before the dot. *)
Lemma scan_stem (path : string) (st : Scan) :
  startDot st <> -1 -> scan_end st <> -1 ->
  forall n : nat,
    (forall i, (i < n)%nat -> plain_char (char_at path i) = true) ->
    (0 < n)%nat \/ preDotState st = -1 ->
    scan path n st
    = {| startDot := startDot st; startPart := startPart st; scan_end := scan_end st;
         matchedSlash := matchedSlash st; preDotState := -1 |}.
Proof.
  intros Hdot Hend n. revert st Hdot Hend.
  induction n as [| n IH]; intros st Hdot Hend Hplain Hn.
  - destruct Hn as [Hn | Hn]; [lia |]. destruct st. cbn in *. subst. reflexivity.
  - cbn [scan].
    pose proof (Hplain n ltac:(lia)) as Hc. unfold plain_char in Hc.
    apply andb_prop in Hc as [Hslash Hpoint].
    apply negb_true_iff in Hslash, Hpoint.
    unfold scan_step. rewrite Hslash, Hpoint.
    destruct (Z.eqb_spec (scan_end st) (-1)) as [E | _]; [contradiction |].
    destruct (Z.eqb_spec (startDot st) (-1)) as [E | _]; [contradiction |].
    cbn [negb]. rewrite IH; cbn; auto. 
Qed.

Lemma scan_stem_suffix (u e : string) :
  u <> "" -> e <> "" ->
  all_chars plain_char u = true -> all_chars plain_char e = true ->
  scan (u +:+ "." +:+ e) (String.length (u +:+ "." +:+ e))
       {| startDot := -1; startPart := 0; scan_end := -1;
          matchedSlash := true; preDotState := 0 |}
  = {| startDot := Z.of_nat (String.length u); startPart := 0;
       scan_end := Z.of_nat (String.length u + 1 + String.length e);
       matchedSlash := false; preDotState := -1 |}.
Proof.
  intros Hu He Pu Pe.
  set (path := u +:+ "." +:+ e).
  assert (Hlen : String.length path = (String.length u + 1 + String.length e)%nat).
  { unfold path. rewrite !length_append. simpl. lia. }
  assert (Hle : (0 < String.length e)%nat) by (destruct e; [contradiction | simpl; lia]).
  assert (Hlu : (0 < String.length u)%nat) by (destruct u; [contradiction | simpl; lia]).
  assert (Hright : forall i, (String.length u + 1 <= i < String.length u + 1 + String.length e)%nat ->
            plain_char (char_at path i) = true).
  { intros i Hi.
    replace i with (String.length u + S (i - (String.length u + 1)))%nat by lia.
    unfold path. rewrite char_at_right.
    change ("." +:+ e) with (String "."%char e). unfold char_at. cbn [String.get].
    apply (all_chars_at plain_char e _ Pe). lia. }
  assert (Hleft : forall i, (i < String.length u)%nat -> plain_char (char_at path i) = true).
  { intros i Hi. unfold path. rewrite char_at_left by exact Hi.
    apply (all_chars_at plain_char u i Pu Hi). }
  assert (Hdot : char_at path (String.length u) = "."%char).
  { unfold path. rewrite <- (Nat.add_0_r (String.length u)), char_at_right. reflexivity. }
  rewrite Hlen. set (n := (String.length u + 1 + String.length e)%nat) in *.
  set (m := (String.length u + 1 + (String.length e - 1))%nat).
  (* the last character *)
  assert (H1 : scan_step (char_at path m) (Z.of_nat m)
                 {| startDot := -1; startPart := 0; scan_end := -1;
                    matchedSlash := true; preDotState := 0 |}
               = Some {| startDot := -1; startPart := 0; scan_end := Z.of_nat n;
                         matchedSlash := false; preDotState := 0 |}).
  { pose proof (Hright m ltac:(lia)) as Hlast.
    unfold plain_char in Hlast. apply andb_prop in Hlast as [Hs Hp].
    apply negb_true_iff in Hs, Hp.
    unfold scan_step. rewrite Hs, Hp. cbn. do 3 f_equal. lia. }
  (* the dot *)
  assert (H2 : scan_step (char_at path (String.length u)) (Z.of_nat (String.length u))
                 {| startDot := -1; startPart := 0; scan_end := Z.of_nat n;
                    matchedSlash := false; preDotState := 0 |}
               = Some {| startDot := Z.of_nat (String.length u); startPart := 0;
                         scan_end := Z.of_nat n; matchedSlash := false;
                         preDotState := 0 |}).
  { rewrite Hdot. unfold scan_step. cbn.
    destruct (Z.eqb_spec (Z.of_nat n) (-1)) as [E | _]; [lia | reflexivity]. }
  replace n with (S m) at 1 by lia. cbn [scan]. rewrite H1.
  replace m with (String.length u + 1 + (String.length e - 1))%nat by reflexivity.
  rewrite scan_plain; [| reflexivity | cbn; lia | intros i Hi; apply Hright; lia].
  replace (String.length u + 1)%nat with (S (String.length u)) by lia.
  cbn [scan]. rewrite H2.
  rewrite scan_stem; [reflexivity | cbn; lia | cbn; lia | exact Hleft | left; exact Hlu].
Qed.

(** [path.extname] of a plain stem followed by a dot and a plain suffix. *)
Lemma extname_plain (u e : string) :
  u <> "" -> e <> "" ->
  all_chars plain_char u = true -> all_chars plain_char e = true ->
  extname (u +:+ "." +:+ e) = "." +:+ e.
Proof.
  intros Hu He Pu Pe. unfold extname.
  rewrite (scan_stem_suffix u e Hu He Pu Pe).
  cbn [startDot scan_end preDotState startPart].
  assert (Hle : (0 < String.length e)%nat) by (destruct e; [contradiction | simpl; lia]).
  destruct (Z.eqb_spec (Z.of_nat (String.length u)) (-1)) as [E | _]; [lia |].
  destruct (Z.eqb_spec (Z.of_nat (String.length u + 1 + String.length e)) (-1))
    as [E | _]; [lia |].
  cbn [orb andb Z.eqb]. unfold slice.
  replace (Z.to_nat (Z.of_nat (String.length u))) with (String.length u) by lia.
  replace (Z.to_nat (Z.of_nat (String.length u + 1 + String.length e)
                     - Z.of_nat (String.length u)))
    with (S (String.length e)) by lia.
  change (S (String.length e)) with (String.length ("." +:+ e)).
  apply substring_right.
Qed.

Lemma uuid_char_plain (c : Ascii.ascii) : uuid_char c = true -> plain_char c = true.
Proof.
  destruct c as [[] [] [] [] [] [] [] []]; vm_compute; intros H;
    first [reflexivity | discriminate H].
Qed.

Lemma all_chars_impl (p q : Ascii.ascii -> bool) (s : string) :
  (forall c, p c = true -> q c = true) -> all_chars p s = true -> all_chars q s = true.
Proof.
  intros Hpq. induction s as [| c s IH]; cbn; [reflexivity |].
  intros H. apply andb_prop in H as [Hc Hs]. rewrite (Hpq c Hc), (IH Hs). reflexivity.
Qed.

Lemma all_chars_app (p : Ascii.ascii -> bool) (u s : string) :
  all_chars p u = true -> all_chars p s = true -> all_chars p (u +:+ s) = true.
Proof.
  intros Hu Hs. induction u as [| c u IH]; simpl; [exact Hs |].
  cbn in Hu. apply andb_prop in Hu as [Hc Hu]. rewrite Hc, (IH Hu). reflexivity.
Qed.

(** An accepted upload is stored under its UUID and extension. *)
Lemma POST_stores (env : Upload.Env) (disk : Upload.Disk) (file : Upload.File)
    (ext : string) :
  Upload.formData env = inr (Some (Upload.EntryFile file)) ->
  Upload.ALLOWED_TYPES !! Upload.file_type file = Some ext ->
  Upload.file_size file <= Upload.MAX_FILE_SIZE ->
  Upload.mkdir_throws env = None -> Upload.writeFile_throws env = None ->
  Upload.POST env disk
  = ({| Upload.status := 201;
        Upload.body := Upload.Success (Upload.uuidv4 env +:+ ext)
                         ("/uploads/" +:+ Upload.uuidv4 env +:+ ext)
                         (Upload.file_size file) (Upload.file_type file) |},
     {| Upload.dirs := {[ Upload.UPLOADS_DIR env ]} ∪ Upload.dirs disk;
        Upload.files := <[Upload.stored_path env ext := Upload.file_bytes file]>
                          (Upload.files disk) |}).
Proof.
  intros Hform Hext Hsize Hmk Hwr. unfold Upload.POST, Upload.get_property.
  rewrite Hform, Hext.
  assert (Hne : ext <> "").
  { rewrite UploadFacts.allowed_lookup in Hext. repeat destruct (decide _); congruence. }
  simpl. destruct (decide (ext = "")); [contradiction |].
  destruct (Z.gtb_spec (Upload.file_size file) Upload.MAX_FILE_SIZE) as [Hgt | _]; [lia |].
  rewrite Hmk, Hwr. reflexivity.
Qed.

(** The three extensions the upload handler gives are a dot and a plain
    suffix in lower case. *)
Lemma allowed_ext_shape (t ext : string) :
  Upload.ALLOWED_TYPES !! t = Some ext ->
  exists e, ext = "." +:+ e /\ e <> "" /\ all_chars plain_char e = true
            /\ toLowerCase ext = ext /\ ext ∈ ALLOWED_EXT.
Proof.
  rewrite UploadFacts.allowed_lookup. intros H.
  repeat destruct (decide _); try discriminate; injection H as <-.
  - exists "png". split; [reflexivity |]. split; [discriminate |].
    split; [reflexivity |]. split; [reflexivity | unfold ALLOWED_EXT; set_solver].
  - exists "jpg". split; [reflexivity |]. split; [discriminate |].
    split; [reflexivity |]. split; [reflexivity | unfold ALLOWED_EXT; set_solver].
  - exists "webp". split; [reflexivity |]. split; [discriminate |].
    split; [reflexivity |]. split; [reflexivity | unfold ALLOWED_EXT; set_solver].
Qed.

(** An uploaded picture shows up in the gallery.  After an upload that is
    accepted and stored under a UUID, a listing taken from a file system that
    shows the uploads directory answers 200 and has an entry whose file name
    and URL are the ones the upload's response gave, with the length of the
    uploaded bytes as size. *)
Theorem upload_then_gallery :
  forall (env : Upload.Env) (disk : Upload.Disk) (file : Upload.File) (ext : string)
         (fs : Fs),
    Upload.formData env = inr (Some (Upload.EntryFile file)) ->
    Upload.ALLOWED_TYPES !! Upload.file_type file = Some ext ->
    Upload.file_size file <= Upload.MAX_FILE_SIZE ->
    Upload.mkdir_throws env = None -> Upload.writeFile_throws env = None ->
    is_uuid (Upload.uuidv4 env) = true ->
    serves fs (snd (Upload.POST env disk)) (UPLOADS_DIR (Upload.cwd env)) ->
    exists images g,
      GET (Upload.cwd env) fs
      = {| status := 200; body := Listing images (Some (Z.of_nat (length images))) |}
      /\ g ∈ images
      /\ Upload.body (fst (Upload.POST env disk))
         = Upload.Success (filename g) (url g) (Upload.file_size file)
                          (Upload.file_type file)
      /\ image_size g = Z.of_nat (length (Upload.file_bytes file)).
Proof.
  intros env disk file ext fs Hform Hext Hsize Hmk Hwr Huuid Hserves.
  rewrite (POST_stores env disk file ext Hform Hext Hsize Hmk Hwr) in *.
  cbn [fst snd Upload.body] in *.
  destruct (allowed_ext_shape _ _ Hext) as (e & -> & He & Pe & Hlow & Hin).
  unfold is_uuid in Huuid. apply andb_prop in Huuid as [Hlen Hchars].
  apply Nat.eqb_eq in Hlen.
  assert (Hu : Upload.uuidv4 env <> "") by (intros E; rewrite E in Hlen; discriminate).
  pose proof (all_chars_impl _ _ _ uuid_char_plain Hchars) as Pu.
  set (name := Upload.uuidv4 env +:+ "." +:+ e) in *.
  assert (Himg : is_image name = true).
  { unfold is_image, name. rewrite (extname_plain _ e Hu He Pu Pe), Hlow.
    apply bool_decide_eq_true_2, Hin. }
  assert (Hslash : all_chars (fun c => negb (Ascii.eqb c "/")) name = true).
  { assert (Hweak : forall c, plain_char c = true -> negb (Ascii.eqb c "/") = true).
    { intros c Hc. unfold plain_char in Hc. apply andb_prop in Hc as [Hc _]. exact Hc. }
    unfold name. apply all_chars_app; [exact (all_chars_impl _ _ _ Hweak Pu) |].
    change ("." +:+ e) with (String "."%char e). cbn [all_chars].
    rewrite (all_chars_impl _ _ _ Hweak Pe). reflexivity. }
  destruct Hserves as (names & Hdir & Hstat & Hfiles).
  destruct (Hfiles name (Upload.file_bytes file) Hslash) as (Hname & info & Hinfo & Hsz).
  { cbn [Upload.files]. apply lookup_insert_eq. }
  destruct (GalleryFacts.listing (Upload.cwd env) fs names Hdir)
    as (images & Hget & Hperm & _).
  { intros n Hn _. apply Hstat, Hn. }
  exists images.
  exists {| filename := name; url := "/uploads/" +:+ name;
            image_size := size info; createdAt := birthtime info |}.
  split; [exact Hget |]. split; [| split; [reflexivity | exact Hsz]].
  rewrite Hperm. apply list_elem_of_omap. exists name. split.
  - apply list_elem_of_In, filter_In. split; [apply list_elem_of_In, Hname | exact Himg].
  - unfold entry. rewrite Hinfo. reflexivity.
Qed.

Lemma upload_then_gallery_witness :
  let file := {| Upload.file_type := "image/png"; Upload.file_size := 3;
                 Upload.file_bytes := [137; 80; 78] |} in
  exists images g,
    GET "/app" (after_upload ".png" [137; 80; 78])
    = {| status := 200; body := Listing images (Some (Z.of_nat (length images))) |}
    /\ g ∈ images
    /\ Upload.body (fst (Upload.POST (Upload.request file) Upload.empty_disk))
       = Upload.Success (filename g) (url g) 3 "image/png"
    /\ image_size g = 3.
Proof.
  intros file.
  apply (upload_then_gallery (Upload.request file) Upload.empty_disk file ".png"
           (after_upload ".png" [137; 80; 78]));
    try reflexivity.
  - vm_compute. discriminate.
  - exists ["3f2b8c1e-5d4a-4e6f-9a7b-0c1d2e3f4a5b.png"].
    split; [reflexivity |]. split.
    + intros n _. eexists. reflexivity.
    + intros n bytes _ Hf.
      rewrite (POST_stores (Upload.request file) Upload.empty_disk file ".png")
        in Hf by (try reflexivity; vm_compute; discriminate).
      cbn [snd Upload.files Upload.empty_disk] in Hf.
      apply lookup_insert_Some in Hf as [[Hp <-] | [_ Hf]];
        [| rewrite lookup_empty in Hf; discriminate].
      assert (Hn : n = "3f2b8c1e-5d4a-4e6f-9a7b-0c1d2e3f4a5b.png")
        by (vm_compute in Hp; congruence).
      rewrite Hn. split; [left | eexists; split; reflexivity].
Defined.

End RoundTrip.


(** ** Two uploads *)

Module TwoUploads.
Import Upload GalleryNotions.

Lemma append_cancel_l (p s1 s2 : string) : p +:+ s1 = p +:+ s2 -> s1 = s2.
Proof. induction p as [| c p IH]; simpl; [auto | intros [= H]; auto]. Qed.

Lemma append_same_length (u1 u2 e1 e2 : string) :
  String.length u1 = String.length u2 -> u1 +:+ e1 = u2 +:+ e2 -> u1 = u2 /\ e1 = e2.
Proof.
  revert u2. induction u1 as [| c u1 IH]; intros [| d u2]; simpl; try discriminate.
  - auto.
  - intros [= Hlen] [= -> H]. destruct (IH u2 Hlen H) as [-> ->]. auto.
Qed.

Lemma ends_with_slash_app (a b : string) :
  b <> "" -> ends_with_slash (a +:+ b) = ends_with_slash b.
Proof.
  intros Hb. induction a as [| c a IH]; [reflexivity |].
  change (String c a +:+ b) with (String c (a +:+ b)). cbn [ends_with_slash].
  destruct (a +:+ b) eqn:E; [| exact IH].
  destruct a; simpl in E; [contradiction | discriminate].
Qed.

Lemma join2_under_uploads (dir name : string) :
  join2 (join2 dir "uploads") name = join2 dir "uploads" +:+ "/" +:+ name.
Proof.
  unfold join2 at 1.
  replace (ends_with_slash (join2 dir "uploads")) with false; [reflexivity |].
  unfold join2. destruct (ends_with_slash dir);
    rewrite ends_with_slash_app by discriminate; reflexivity.
Qed.

Lemma stored_path_inj (env1 env2 : Env) (ext1 ext2 : string) :
  cwd env1 = cwd env2 ->
  is_uuid (uuidv4 env1) = true -> is_uuid (uuidv4 env2) = true ->
  stored_path env1 ext1 = stored_path env2 ext2 ->
  uuidv4 env1 = uuidv4 env2 /\ ext1 = ext2.
Proof.
  intros Hcwd H1 H2. unfold stored_path, UPLOADS_DIR, path_join. rewrite Hcwd.
  cbn [fold_left]. rewrite !join2_under_uploads.
  intros H. apply append_cancel_l, append_cancel_l in H.
  unfold is_uuid in H1, H2.
  apply andb_prop in H1 as [H1 _]. apply andb_prop in H2 as [H2 _].
  apply Nat.eqb_eq in H1, H2. apply append_same_length in H; [exact H | congruence].
Qed.

(** Uploads do not overwrite each other.  Of two accepted uploads made
    one after the other in the same working directory under different UUIDs,
    both files are on disk afterwards, each with its own bytes, and every file
    that was stored before is still there unchanged; only an upload that
    repeats the UUID and the extension of an earlier one replaces its file. *)
Theorem uploads_do_not_collide :
  forall (env1 env2 : Env) (disk : Disk) (file1 file2 : File) (ext1 ext2 : string),
    formData env1 = inr (Some (EntryFile file1)) ->
    formData env2 = inr (Some (EntryFile file2)) ->
    ALLOWED_TYPES !! file_type file1 = Some ext1 ->
    ALLOWED_TYPES !! file_type file2 = Some ext2 ->
    file_size file1 <= MAX_FILE_SIZE -> file_size file2 <= MAX_FILE_SIZE ->
    mkdir_throws env1 = None -> writeFile_throws env1 = None ->
    mkdir_throws env2 = None -> writeFile_throws env2 = None ->
    cwd env1 = cwd env2 ->
    is_uuid (uuidv4 env1) = true -> is_uuid (uuidv4 env2) = true ->
    let after := files (snd (POST env2 (snd (POST env1 disk)))) in
    (uuidv4 env1 <> uuidv4 env2 ->
     stored_path env1 ext1 <> stored_path env2 ext2
     /\ after !! stored_path env1 ext1 = Some (file_bytes file1)
     /\ after !! stored_path env2 ext2 = Some (file_bytes file2))
    /\
    (uuidv4 env1 = uuidv4 env2 -> ext1 = ext2 ->
     after !! stored_path env1 ext1 = Some (file_bytes file2))
    /\
    (forall p bytes,
       files disk !! p = Some bytes ->
       p <> stored_path env1 ext1 -> p <> stored_path env2 ext2 ->
       after !! p = Some bytes).
Proof.
  intros env1 env2 disk file1 file2 ext1 ext2 Hf1 Hf2 He1 He2 Hs1 Hs2 Hm1 Hw1 Hm2 Hw2
    Hcwd Hu1 Hu2 after. subst after.
  rewrite (RoundTrip.POST_stores env1 disk file1 ext1 Hf1 He1 Hs1 Hm1 Hw1).
  cbn [snd].
  rewrite (RoundTrip.POST_stores env2 _ file2 ext2 Hf2 He2 Hs2 Hm2 Hw2).
  cbn [snd files]. split; [| split].
  - intros Hne.
    assert (Hp : stored_path env1 ext1 <> stored_path env2 ext2).
    { intros E. apply (stored_path_inj env1 env2 ext1 ext2 Hcwd Hu1 Hu2) in E as [E _].
      contradiction. }
    split; [exact Hp |]. split.
    + rewrite lookup_insert_ne by congruence. apply lookup_insert_eq.
    + apply lookup_insert_eq.
  - intros Hsame Hext. subst ext2.
    assert (Hp : stored_path env1 ext1 = stored_path env2 ext1).
    { unfold stored_path, UPLOADS_DIR. rewrite Hcwd, Hsame. reflexivity. }
    rewrite Hp. apply lookup_insert_eq.
  - intros p bytes Hp H1 H2. rewrite !lookup_insert_ne by congruence. exact Hp.
Qed.

Lemma uploads_do_not_collide_witness :
  let png := {| file_type := "image/png"; file_size := 3; file_bytes := [137; 80; 78] |} in
  let jpg := {| file_type := "image/jpeg"; file_size := 2; file_bytes := [255; 216] |} in
  let second :=
    {| cwd := "/app"; uuidv4 := "0a1b2c3d-4e5f-4a6b-8c7d-9e0f1a2b3c4d";
       formData := inr (Some (EntryFile jpg));
       mkdir_throws := None; writeFile_throws := None |} in
  files (snd (POST second (snd (POST (request png) empty_disk))))
    !! stored_path (request png) ".png" = Some [137; 80; 78].
Proof.
  intros png jpg second.
  refine (proj1 (proj2 (proj1 (uploads_do_not_collide (request png) second empty_disk
                   png jpg ".png" ".jpg" eq_refl eq_refl eq_refl eq_refl _ _
                   eq_refl eq_refl eq_refl eq_refl eq_refl eq_refl eq_refl) _)));
    [vm_compute; discriminate | vm_compute; discriminate | discriminate].
Defined.

End TwoUploads.


(** ** Leads *)

Module LeadsFacts.
Import Leads.

(** A lead needs a contact.  A body that is parsed and is not [null] but
    has no name, email or phone other than a missing, [null], [false], [0] or
    empty one is answered 400, and nothing is sent to the database, whatever
    its company and image URL are and whatever the database would do; this is
    so for every body that is a number, a string, a boolean or an array.  A
    body that is [null] or is not JSON is answered 500. *)
Theorem lead_without_contact_is_refused :
  forall env : Env,
    (forall body,
       json env = inr body -> body <> JNull -> has_contact body = false ->
       POST env = ({| status := 400; body := Failure ContactRequired |}, []))
    /\
    (forall body,
       json env = inr body -> (forall members, body <> JObject members) ->
       status (fst (POST env)) <> 201 /\ snd (POST env) = [])
    /\
    (forall body,
       json env = inr body -> status (fst (POST env)) = 400 -> has_contact body = false)
    /\
    (json env = inr JNull ->
     POST env = ({| status := 500; body := Failure (ServerError DestructureNull) |}, []))
    /\
    (forall message,
       json env = inl message ->
       POST env = ({| status := 500;
                      body := Failure (ServerError (InvalidJson message)) |}, [])).
Proof.
  intros env. split; [| split; [| split; [| split]]].
  - intros body Hjson Hnull Hno. unfold POST. rewrite Hjson.
    unfold has_contact in Hno. apply orb_false_elim in Hno as [Hno Hp].
    apply orb_false_elim in Hno as [Hn He].
    destruct body; try contradiction; rewrite Hn, He, Hp; reflexivity.
  - intros body Hjson Hobj. unfold POST. rewrite Hjson.
    destruct body as [| b | x | s | items | members]; cbn;
      try (split; [discriminate | reflexivity]).
    contradiction (Hobj members). reflexivity.
  - intros body Hjson H400. unfold POST in H400. rewrite Hjson in H400.
    unfold has_contact.
    destruct body as [| b | x | s | items | members]; try reflexivity.
    cbv zeta in H400.
    destruct (truthy (member (JObject members) "name")); [| 
      destruct (truthy (member (JObject members) "email")); [|
        destruct (truthy (member (JObject members) "phone")); [| reflexivity]]];
      cbn in H400; destruct (execute env _); discriminate H400.
  - intros Hjson. unfold POST. rewrite Hjson. reflexivity.
  - intros message Hjson. unfold POST. rewrite Hjson. reflexivity.
Qed.

(** A lead with a contact is inserted once.  The handler sends exactly one
    statement: the INSERT with the five fields in the order of its columns,
    [null] standing for a field that is missing.  When the database accepts it
    the answer is 201 with the [insertId] as [id] and the fields as they came;
    when the database call throws the answer is 500 with its message. *)
Theorem lead_with_contact_is_inserted :
  forall (env : Env) (body : Json),
    json env = inr body -> has_contact body = true ->
    let statement :=
      {| sql := INSERT_LEAD;
         params := [or_null (member body "name"); or_null (member body "email");
                    or_null (member body "phone"); or_null (member body "company");
                    or_null (member body "image_url")] |} in
    snd (POST env) = [statement]
    /\ (forall insertId,
          execute env statement = inr insertId ->
          fst (POST env)
          = {| status := 201;
               body := Created {| id := insertId; name := member body "name";
                                  email := member body "email";
                                  phone := member body "phone";
                                  company := member body "company";
                                  image_url := member body "image_url" |} |})
    /\ (forall message,
          execute env statement = inl message ->
          fst (POST env)
          = {| status := 500; body := Failure (ServerError (Database message)) |}).
Proof.
  intros env body Hjson Hyes statement. subst statement. unfold POST. rewrite Hjson.
  assert (Hgate : negb (truthy (member body "name")) && negb (truthy (member body "email"))
                  && negb (truthy (member body "phone")) = false).
  { unfold has_contact in Hyes.
    destruct (truthy (member body "name")), (truthy (member body "email")),
      (truthy (member body "phone")); try reflexivity; discriminate Hyes. }
  destruct body as [| b | x | s | items | members]; try discriminate Hyes.
  cbv zeta. rewrite Hgate.
  destruct (execute env _) as [message | insertId] eqn:Hex; cbn [fst snd].
  - split; [reflexivity |]. split; [intros i Hi | intros m Hm]; congruence.
  - split; [reflexivity |]. split; [intros i Hi | intros m Hm]; congruence.
Qed.

Lemma lead_with_contact_is_inserted_witness :
  let body := JObject [("email", JString "ada@example.org"); ("name", JString "")] in
  snd (POST (accepting body 7))
  = [{| sql := INSERT_LEAD;
        params := [JString ""; JString "ada@example.org"; JNull; JNull; JNull] |}].
Proof.
  intros body.
  exact (proj1 (lead_with_contact_is_inserted (accepting body 7) body eq_refl eq_refl)).
Defined.

End LeadsFacts.
